(** * Payment channels and hooks of rippled-hooks: a shallow embedding

    The development follows the three translation units
    [PayChan.cpp], [SetHook.cpp] and [applyHook.cpp].  Ledger entries are
    typed records, the apply view is a finite map from ledger indexes to
    entries, every transactor is a function from a view to a terminal
    status and the view it leaves behind. *)

From Stdlib Require Import ZArith List Bool Lia.
From Stdlib Require Import Init.Byte Strings.Byte.
From stdpp Require Import gmap list fin_maps.
Import ListNotations.

Local Open Scope Z_scope.

(** ** Machine integers *)

(** [uint32_t] arithmetic: results are reduced modulo [2^32]. *)
Definition wrap32 (x : Z) : Z := x mod 2 ^ 32.

Definition UINT32_MAX : Z := 2 ^ 32 - 1.

(** ** Terminal statuses (the TER codes the three files return) *)

Inductive TER : Type :=
| tesSUCCESS
| tecNO_ENTRY | tecNO_TARGET | tecNO_DST | tecDST_TAG_NEEDED
| tecNO_PERMISSION | tecUNFUNDED | tecUNFUNDED_PAYMENT
| tecINSUFFICIENT_RESERVE | tecDIR_FULL | tecINTERNAL
| tecNO_LINE
| tefINTERNAL | tefBAD_LEDGER | tefEXCEPTION
| temBAD_AMOUNT | temBAD_CURRENCY | temBAD_EXPIRATION
| temBAD_SIGNATURE | temBAD_SIGNER | temDST_IS_SRC
| temINVALID_FLAG | temMALFORMED | temHOOK_DATA_TOO_LARGE
| terNO_ACCOUNT | terNO_AUTH.

Definition TER_eqb (a b : TER) : bool :=
  match a, b with
  | tesSUCCESS, tesSUCCESS | tecNO_ENTRY, tecNO_ENTRY
  | tecNO_TARGET, tecNO_TARGET | tecNO_DST, tecNO_DST
  | tecDST_TAG_NEEDED, tecDST_TAG_NEEDED
  | tecNO_PERMISSION, tecNO_PERMISSION | tecUNFUNDED, tecUNFUNDED
  | tecUNFUNDED_PAYMENT, tecUNFUNDED_PAYMENT
  | tecINSUFFICIENT_RESERVE, tecINSUFFICIENT_RESERVE
  | tecDIR_FULL, tecDIR_FULL | tecINTERNAL, tecINTERNAL
  | tecNO_LINE, tecNO_LINE
  | tefINTERNAL, tefINTERNAL | tefBAD_LEDGER, tefBAD_LEDGER
  | tefEXCEPTION, tefEXCEPTION
  | temBAD_AMOUNT, temBAD_AMOUNT | temBAD_CURRENCY, temBAD_CURRENCY
  | temBAD_EXPIRATION, temBAD_EXPIRATION
  | temBAD_SIGNATURE, temBAD_SIGNATURE | temBAD_SIGNER, temBAD_SIGNER
  | temDST_IS_SRC, temDST_IS_SRC | temINVALID_FLAG, temINVALID_FLAG
  | temMALFORMED, temMALFORMED
  | temHOOK_DATA_TOO_LARGE, temHOOK_DATA_TOO_LARGE
  | terNO_ACCOUNT, terNO_ACCOUNT | terNO_AUTH, terNO_AUTH => true
  | _, _ => false
  end.

Definition isTesSuccess (t : TER) : bool := TER_eqb t tesSUCCESS.

(** ** Amounts *)

Definition AccountID : Type := Z.
Definition Currency : Type := Z.
Definition Blob : Type := list byte.

#[global] Instance byte_eq_dec : EqDecision byte := Byte.byte_eq_dec.

Inductive Issue : Type :=
| xrpIssue
| iouIssue (currency : Currency) (issuer : AccountID).

(** An [STAmount]: a signed value in some issue.  XRP values are drops. *)
Record STAmount : Type := mkAmount { amt_issue : Issue; amt_value : Z }.

Definition isXRP (a : STAmount) : bool :=
  match amt_issue a with xrpIssue => true | iouIssue _ _ => false end.

Definition drops (n : Z) : STAmount := mkAmount xrpIssue n.

(** [STAmount] raises [std::runtime_error] when two amounts that are
    not comparable are compared, added or subtracted: both must be
    native, or both issued in the same currency (issuers are not
    compared).  A raised exception is [None] here; the transactors below
    turn it into [tefEXCEPTION], the status the apply loop reports. *)
Definition areComparable (a b : STAmount) : bool :=
  match amt_issue a, amt_issue b with
  | xrpIssue, xrpIssue => true
  | iouIssue c1 _, iouIssue c2 _ => c1 =? c2
  | _, _ => false
  end.

Definition amt_ltb (a b : STAmount) : option bool :=
  if areComparable a b then Some (amt_value a <? amt_value b) else None.

Definition amt_leb (a b : STAmount) : option bool :=
  if areComparable a b then Some (amt_value a <=? amt_value b) else None.

Definition amt_eqb (a b : STAmount) : bool :=
  areComparable a b && (amt_value a =? amt_value b).

Definition amt_add (a b : STAmount) : option STAmount :=
  if areComparable a b
  then Some (mkAmount (amt_issue a) (amt_value a + amt_value b))
  else None.

Definition amt_neg (a : STAmount) : STAmount :=
  mkAmount (amt_issue a) (- amt_value a).

Definition amt_sub (a b : STAmount) : option STAmount := amt_add a (amt_neg b).

(** ** Ledger indexes

    A ledger index is a 256-bit digest of the entry kind and its
    components.  The digests are kept symbolic: one constructor per
    [keylet::] function, so that distinct components give distinct
    indexes. *)

Inductive Keylet : Type :=
| keylet_account (a : AccountID)
| keylet_ownerDir (a : AccountID)
| keylet_hook (a : AccountID)
| keylet_hook_state (a : AccountID) (key : Z)
| keylet_payChan (src dst : AccountID) (seq : Z)
| keylet_line (a issuer : AccountID) (c : Currency)
| keylet_depositPreauth (owner authorized : AccountID).

Definition Keylet_code (k : Keylet) : Z + Z + Z + Z * Z + Z * Z * Z + Z * Z * Z + Z * Z :=
  match k with
  | keylet_account a => inl (inl (inl (inl (inl (inl a)))))
  | keylet_ownerDir a => inl (inl (inl (inl (inl (inr a)))))
  | keylet_hook a => inl (inl (inl (inl (inr a))))
  | keylet_hook_state a key => inl (inl (inl (inr (a, key))))
  | keylet_payChan s d q => inl (inl (inr (s, d, q)))
  | keylet_line a i c => inl (inr (a, i, c))
  | keylet_depositPreauth o a => inr (o, a)
  end.

Definition Keylet_decode (c : Z + Z + Z + Z * Z + Z * Z * Z + Z * Z * Z + Z * Z) : Keylet :=
  match c with
  | inl (inl (inl (inl (inl (inl a))))) => keylet_account a
  | inl (inl (inl (inl (inl (inr a))))) => keylet_ownerDir a
  | inl (inl (inl (inl (inr a)))) => keylet_hook a
  | inl (inl (inl (inr (a, key)))) => keylet_hook_state a key
  | inl (inl (inr (s, d, q))) => keylet_payChan s d q
  | inl (inr (a, i, c)) => keylet_line a i c
  | inr (o, a) => keylet_depositPreauth o a
  end.

#[global] Instance Keylet_eq_dec : EqDecision Keylet.
Proof. solve_decision. Defined.

#[global] Instance Keylet_countable : Countable Keylet.
Proof.
  apply (inj_countable' Keylet_code Keylet_decode).
  by intros [].
Defined.

(** ** Ledger entries *)

Record AccountRoot : Type := mkAccountRoot {
  acct_Balance : Z;          (* sfBalance, XRP drops *)
  acct_OwnerCount : Z;       (* sfOwnerCount, uint32 *)
  acct_Flags : Z             (* sfFlags *)
}.

Record HookSLE : Type := mkHook {
  hook_Account : AccountID;
  hook_CreateCode : Blob;
  hook_HookStateCount : Z;
  hook_HookReserveCount : Z;
  hook_HookDataMaxSize : Z;
  hook_HookOn : Z;
  hook_OwnerNode : Z
}.

Record HookStateSLE : Type := mkHookState {
  hs_HookData : Blob;
  hs_OwnerNode : Z
}.

Record PayChanSLE : Type := mkPayChan {
  pc_Account : AccountID;
  pc_Destination : AccountID;
  pc_Amount : STAmount;
  pc_Balance : STAmount;
  pc_SettleDelay : Z;
  pc_PublicKey : Blob;
  pc_CancelAfter : option Z;
  pc_Expiration : option Z;
  pc_SourceTag : option Z;
  pc_DestinationTag : option Z;
  pc_OwnerNode : Z;
  pc_DestinationNode : option Z
}.

Inductive LedgerEntryType : Type :=
| ltACCOUNT_ROOT | ltDIR_NODE | ltHOOK | ltHOOK_STATE | ltPAYCHAN
| ltRIPPLE_STATE | ltDEPOSIT_PREAUTH.

Inductive SLE : Type :=
| sle_account (r : AccountRoot)
| sle_dir (indexes : list Keylet)
| sle_hook (h : HookSLE)
| sle_hook_state (s : HookStateSLE)
| sle_paychan (p : PayChanSLE)
| sle_line (balance locked : Z)
| sle_preauth.

Definition sfLedgerEntryType (e : SLE) : LedgerEntryType :=
  match e with
  | sle_account _ => ltACCOUNT_ROOT
  | sle_dir _ => ltDIR_NODE
  | sle_hook _ => ltHOOK
  | sle_hook_state _ => ltHOOK_STATE
  | sle_paychan _ => ltPAYCHAN
  | sle_line _ _ => ltRIPPLE_STATE
  | sle_preauth => ltDEPOSIT_PREAUTH
  end.

(** ** The apply view

    The view of one transaction: the entries it sees, its own writes
    included.  [peek] hands out the entry stored in the view, so a field
    assignment through the pointer is a write to the map. *)

Abbreviation View := (gmap Keylet SLE).

Definition peek_account (v : View) (a : AccountID) : option AccountRoot :=
  match v !! keylet_account a with Some (sle_account r) => Some r | _ => None end.

Definition peek_hook (v : View) (a : AccountID) : option HookSLE :=
  match v !! keylet_hook a with Some (sle_hook h) => Some h | _ => None end.

Definition peek_hook_state (v : View) (k : Keylet) : option HookStateSLE :=
  match v !! k with Some (sle_hook_state s) => Some s | _ => None end.

Definition peek_paychan (v : View) (k : Keylet) : option PayChanSLE :=
  match v !! k with Some (sle_paychan p) => Some p | _ => None end.

Definition view_exists (v : View) (k : Keylet) : bool :=
  match v !! k with Some _ => true | None => false end.

(** *** Owner directories

    Modelled from the spec: the directory operations [dirAdd],
    [dirInsert], [dirRemove], [dirIsEmpty], [cdirFirst] and [cdirNext]
    belong to the ledger view, outside these sources.  An owner
    directory is the ordered collection of the indexes one account
    owns; an insert returns a page hint that the owned entry stores; a
    removal takes the hint back.  The pages are kept as one root page
    here, so every hint is [0]. *)

Definition dirNodeMaxEntries : Z := 32 * 262144.

Definition dirAdd (v : View) (dir key : Keylet) : option (Z * View) :=
  match v !! dir with
  | Some (sle_dir l) =>
      if Z.of_nat (length l) <? dirNodeMaxEntries
      then Some (0, <[dir := sle_dir (l ++ [key])]> v)
      else None
  | Some _ => None
  | None => Some (0, <[dir := sle_dir [key]]> v)
  end.

Definition dirInsert := dirAdd.

Fixpoint remove_first (key : Keylet) (l : list Keylet) : list Keylet :=
  match l with
  | [] => []
  | x :: r => if decide (x = key) then r else x :: remove_first key r
  end.

Definition key_in (key : Keylet) (l : list Keylet) : bool :=
  existsb (fun x => bool_decide (x = key)) l.

(** [dirRemove] answers [false] ([None] here) when the page or the
    index is missing; an empty root page is erased unless [keepRoot]. *)
Definition dirRemove (v : View) (dir : Keylet) (page : Z) (key : Keylet)
    (keepRoot : bool) : option View :=
  match v !! dir with
  | Some (sle_dir l) =>
      if (page =? 0) && key_in key l then
        match remove_first key l with
        | [] => if keepRoot then Some (<[dir := sle_dir []]> v)
                else Some (delete dir v)
        | l' => Some (<[dir := sle_dir l']> v)
        end
      else None
  | _ => None
  end.

Definition dirIsEmpty (v : View) (dir : Keylet) : bool :=
  match v !! dir with
  | Some (sle_dir []) => true
  | Some (sle_dir _) => false
  | _ => true
  end.

(** The directory cursor of [cdirFirst]/[cdirNext]: the page read when
    the iteration starts and the position in it.  The cursor holds the
    page as it was read, so erasing the current item does not disturb
    the items still to come. *)
Definition cdirFirst (v : View) (dir : Keylet) : option (list Keylet) :=
  match v !! dir with
  | Some (sle_dir l) => Some l
  | _ => None
  end.

(** *** Owner count

    Modelled from the spec: [adjustOwnerCount] adds a signed amount to
    the account's owner count and writes the account back; the count is
    confined to the [uint32] range. *)
Definition confineOwnerCount (current adjustment : Z) : Z :=
  let adjusted := wrap32 (current + adjustment) in
  if 0 <? adjustment
  then (if adjusted <? current then UINT32_MAX else adjusted)
  else (if current <? adjusted then 0 else adjusted).

Definition adjustOwnerCount (v : View) (a : AccountID) (amount : Z) : View :=
  match peek_account v a with
  | Some r =>
      <[keylet_account a :=
          sle_account (mkAccountRoot (acct_Balance r)
                         (confineOwnerCount (acct_OwnerCount r) amount)
                         (acct_Flags r))]> v
  | None => v
  end.

(** ** Rules, fees, ledger info and the external engines *)

Inductive Feature : Type :=
| featurePaychanAndEscrowForTokens
| fixPayChanRecipientOwnerDir
| featureDepositAuth
| fix1543.

Inductive RunType : Type := DryRun | WetRun.

(** What a transactor reads from outside the entry map.  The three
    trust-line functions are the Trust-Line Engine, the last four the
    signature and serializer collaborators and the framework's own
    [preflight1]/[preflight2]; all are consumed through their interface
    only. *)
Record Env : Type := mkEnv {
  rules_enabled : Feature -> bool;
  fees_accountReserve : Z -> Z;
  info_parentCloseTime : Z;
  trustAdjustLockedBalance :
    View -> Keylet -> STAmount -> Z -> RunType -> TER * View;
  trustTransferAllowed : View -> AccountID -> AccountID -> Issue -> TER;
  trustTransferLockedBalance :
    View -> AccountID -> AccountID -> AccountID -> STAmount -> Z ->
    RunType -> TER * View
}.

(** A dry run reports the status and leaves the view alone. *)
Definition trustAdjustLockedBalance_dry (env : Env) (v : View) (line : Keylet)
    (amount : STAmount) (delta : Z) : TER :=
  fst (trustAdjustLockedBalance env v line amount delta DryRun).

Definition amt_issuer (a : STAmount) : AccountID :=
  match amt_issue a with xrpIssue => 0 | iouIssue _ i => i end.

Definition amt_currency (a : STAmount) : Currency :=
  match amt_issue a with xrpIssue => 0 | iouIssue c _ => c end.

(** Modelled from the spec: the account flags RequireDestTag,
    DisallowXRP and DepositAuth are bits of [sfFlags]; the header that
    names the bits is outside these sources. *)
Definition lsfRequireDestTag : Z := 0x00020000.
Definition lsfDisallowXRP : Z := 0x00080000.
Definition lsfDepositAuth : Z := 0x01000000.

(** Modelled from the spec: the claim flags [tfClose] (1) and
    [tfRenew] (2); the header that defines their bits is outside these
    sources. *)
Definition tfClose : Z := 1.
Definition tfRenew : Z := 2.

Definition has_flag (flags bit : Z) : bool := negb (Z.land flags bit =? 0).

(** ** PayChan.cpp *)

Module PayChan.

(** [closeTime >= *t] for an optional time [t]. *)
Definition elapsed (closeTime : Z) (t : option Z) : bool :=
  match t with Some x => x <=? closeTime | None => false end.

Definition set_account_balance (v : View) (a : AccountID) (bal : Z) : View :=
  match peek_account v a with
  | Some r =>
      <[keylet_account a :=
          sle_account (mkAccountRoot bal (acct_OwnerCount r) (acct_Flags r))]> v
  | None => v
  end.

(** Remove PayChan from recipient's owner directory, if present
    (lines 164-175 of [closeChannel]); [None] when [dirRemove] fails. *)
Definition removeFromRecipientDir (env : Env) (slep : PayChanSLE) (view : View)
    (key : Keylet) : option View :=
  match pc_DestinationNode slep with
  | Some page =>
      if rules_enabled env fixPayChanRecipientOwnerDir
      then dirRemove view (keylet_ownerDir (pc_Destination slep)) page key true
      else Some view
  | None => Some view
  end.

(** The dry run that opens [closeChannel] (lines 127-151): the status
    to return, if any. *)
Definition closeDryRun (env : Env) (view : View) (src : AccountID)
    (amount : STAmount) : option TER :=
  if negb (isXRP amount) then
    if negb (rules_enabled env featurePaychanAndEscrowForTokens)
    then Some tefINTERNAL
    else
      let sleLine := keylet_line src (amt_issuer amount) (amt_currency amount) in
      let result :=
        trustAdjustLockedBalance_dry env view sleLine (amt_neg amount) (-1) in
      if negb (isTesSuccess result) then Some result else None
  else None.

(** Transfer amount back to owner (lines 184-203). *)
Definition closeRefund (env : Env) (view : View) (src : AccountID)
    (amount : STAmount) (sle : AccountRoot) : TER * View :=
  if isXRP amount
  then (tesSUCCESS,
        set_account_balance view src (acct_Balance sle + amt_value amount))
  else
    let sleLine := keylet_line src (amt_issuer amount) (amt_currency amount) in
    trustAdjustLockedBalance env view sleLine (amt_neg amount) (-1) WetRun.

(** [closeChannel(slep, view, key, j)]. *)
Definition closeChannel (env : Env) (slep : PayChanSLE) (view : View)
    (key : Keylet) : TER * View :=
  let src := pc_Account slep in
  match amt_sub (pc_Amount slep) (pc_Balance slep) with
  | None => (tefEXCEPTION, view)
  | Some amount =>
  match closeDryRun env view src amount with
  | Some err => (err, view)
  | None =>
  (* Remove PayChan from owner directory *)
  match dirRemove view (keylet_ownerDir src) (pc_OwnerNode slep) key true with
  | None => (tefBAD_LEDGER, view)
  | Some view1 =>
  match removeFromRecipientDir env slep view1 key with
  | None => (tefBAD_LEDGER, view1)
  | Some view2 =>
  (* Transfer amount back to owner, decrement owner count *)
  match peek_account view2 src with
  | None => (tefINTERNAL, view2)
  | Some sle =>
  let refund := closeRefund env view2 src amount sle in
  if negb (isTesSuccess (fst refund)) then refund
  else
    let view3 := adjustOwnerCount (snd refund) src (-1) in
    (* Remove PayChan from ledger *)
    (tesSUCCESS, delete key view3)
  end end end end end.

(** *** PayChanCreate *)

Record PayChanCreateTx : Type := mkCreateTx {
  create_Account : AccountID;
  create_Destination : AccountID;
  create_Amount : STAmount;
  create_SettleDelay : Z;
  create_PublicKey : Blob;
  create_CancelAfter : option Z;
  create_SourceTag : option Z;
  create_DestinationTag : option Z;
  create_Sequence : Z
}.

(** [PayChanCreate::preclaim].  The funds test is an [if]/[else]: every
    amount that does not return [tecUNFUNDED] runs the [else] block
    before it reaches the destination checks. *)
Definition PayChanCreate_preclaim (env : Env) (view : View)
    (tx : PayChanCreateTx) : TER :=
  let account := create_Account tx in
  match peek_account view account with
  | None => terNO_ACCOUNT
  | Some sle =>
  let amount := create_Amount tx in
  let balance := acct_Balance sle in
  let reserve := fees_accountReserve env (wrap32 (acct_OwnerCount sle + 1)) in
  if balance <? reserve then tecINSUFFICIENT_RESERVE else
  let dst := create_Destination tx in
  (* Check reserve and funds availability *)
  if isXRP amount && (balance <? reserve + amt_value (create_Amount tx))
  then tecUNFUNDED
  else
    if negb (rules_enabled env featurePaychanAndEscrowForTokens)
    then tecINTERNAL else
    (* check for any possible bars to a channel existing
       between these accounts for this asset *)
    let result := trustTransferAllowed env view account dst (amt_issue amount) in
    if negb (isTesSuccess result) then result else
    (* check if the amount can be locked *)
    let sleLine :=
      keylet_line account (amt_issuer amount) (amt_currency amount) in
    let result := trustAdjustLockedBalance_dry env view sleLine amount 1 in
    if negb (isTesSuccess result) then result else
    (* Check destination account *)
    match peek_account view dst with
    | None => tecNO_DST
    | Some sled =>
      if has_flag (acct_Flags sled) lsfRequireDestTag
         && negb (bool_decide (is_Some (create_DestinationTag tx)))
      then tecDST_TAG_NEEDED
      else if negb (rules_enabled env featureDepositAuth)
              && has_flag (acct_Flags sled) lsfDisallowXRP
      then tecNO_TARGET
      else tesSUCCESS
    end
  end.

(** *** PayChanFund *)

Record PayChanFundTx : Type := mkFundTx {
  fund_Account : AccountID;
  fund_Channel : Keylet;
  fund_Amount : STAmount;
  fund_Expiration : option Z
}.

Definition set_paychan (v : View) (k : Keylet) (p : PayChanSLE) : View :=
  <[k := sle_paychan p]> v.

Definition with_Expiration (p : PayChanSLE) (e : option Z) : PayChanSLE :=
  mkPayChan (pc_Account p) (pc_Destination p) (pc_Amount p) (pc_Balance p)
    (pc_SettleDelay p) (pc_PublicKey p) (pc_CancelAfter p) e
    (pc_SourceTag p) (pc_DestinationTag p) (pc_OwnerNode p)
    (pc_DestinationNode p).

Definition with_Amount (p : PayChanSLE) (a : STAmount) : PayChanSLE :=
  mkPayChan (pc_Account p) (pc_Destination p) a (pc_Balance p)
    (pc_SettleDelay p) (pc_PublicKey p) (pc_CancelAfter p) (pc_Expiration p)
    (pc_SourceTag p) (pc_DestinationTag p) (pc_OwnerNode p)
    (pc_DestinationNode p).

Definition with_Balance (p : PayChanSLE) (b : STAmount) : PayChanSLE :=
  mkPayChan (pc_Account p) (pc_Destination p) (pc_Amount p) b
    (pc_SettleDelay p) (pc_PublicKey p) (pc_CancelAfter p) (pc_Expiration p)
    (pc_SourceTag p) (pc_DestinationTag p) (pc_OwnerNode p)
    (pc_DestinationNode p).

(** The floor of an extended expiration, lines 544-548: the close time
    plus the settle delay (a [uint32] sum), lowered to the current
    expiration when that is earlier. *)
Definition minExpiration (closeTime settleDelay : Z) (expiration : option Z) : Z :=
  let m := wrap32 (closeTime + settleDelay) in
  match expiration with
  | Some e => if e <? m then e else m
  | None => m
  end.

(** The part of [PayChanFund::doApply] after the owner test. *)
Definition fund_tail (env : Env) (view : View) (tx : PayChanFundTx)
    (k : Keylet) (slep : PayChanSLE) (sleLine : Keylet) : TER * View :=
  let amount := fund_Amount tx in
  let txAccount := fund_Account tx in
  match peek_account view txAccount with
  | None => (tefINTERNAL, view)
  | Some sle =>
  (* do not allow adding funds if dst does not exist *)
  if negb (view_exists view (keylet_account (pc_Destination slep)))
  then (tecNO_DST, view) else
  (* Check reserve and funds availability *)
  let balance := acct_Balance sle in
  let reserve := fees_accountReserve env (acct_OwnerCount sle) in
  if balance <? reserve then (tecINSUFFICIENT_RESERVE, view) else
  let paid :=
    if isXRP amount then
      if balance <? reserve + amt_value amount then (tecUNFUNDED, view)
      else (tesSUCCESS,
            set_account_balance view txAccount (balance - amt_value amount))
    else
      if negb (rules_enabled env featurePaychanAndEscrowForTokens)
      then (tefINTERNAL, view)
      else
        let r := trustAdjustLockedBalance env view sleLine amount 1 WetRun in
        if negb (isTesSuccess (fst r)) then (tefINTERNAL, snd r) else r in
  if negb (isTesSuccess (fst paid)) then paid else
  match amt_add (pc_Amount slep) (fund_Amount tx) with
  | None => (tefEXCEPTION, snd paid)
  | Some total => (tesSUCCESS, set_paychan (snd paid) k (with_Amount slep total))
  end
  end.

(** [PayChanFund::doApply]. *)
Definition PayChanFund_doApply (env : Env) (view : View) (tx : PayChanFundTx)
    : TER * View :=
  let k := fund_Channel tx in
  match peek_paychan view k with
  | None => (tecNO_ENTRY, view)
  | Some slep =>
  let amount := fund_Amount tx in
  let sleLine :=
    keylet_line (pc_Account slep) (amt_issuer amount) (amt_currency amount) in
  (* if this is a Fund operation on an IOU then perform a dry run here *)
  let dry :=
    if negb (isXRP amount) && rules_enabled env featurePaychanAndEscrowForTokens
    then trustAdjustLockedBalance_dry env view sleLine amount 1
    else tesSUCCESS in
  if negb (isTesSuccess dry) then (dry, view) else
  let src := pc_Account slep in
  let txAccount := fund_Account tx in
  let expiration := pc_Expiration slep in
  let cancelAfter := pc_CancelAfter slep in
  let closeTime := info_parentCloseTime env in
  if elapsed closeTime cancelAfter || elapsed closeTime expiration
  then closeChannel env slep view k
  else
  if negb (src =? txAccount)
  then (* only the owner can add funds or extend *)
       (tecNO_PERMISSION, view)
  else
  match fund_Expiration tx with
  | Some extend =>
      if extend <? minExpiration closeTime (pc_SettleDelay slep) expiration
      then (temBAD_EXPIRATION, view)
      else
        let slep' := with_Expiration slep (Some extend) in
        fund_tail env (set_paychan view k slep') tx k slep' sleLine
  | None => fund_tail env view tx k slep sleLine
  end
  end.

(** *** PayChanClaim *)

Record PayChanClaimTx : Type := mkClaimTx {
  claim_Account : AccountID;
  claim_Channel : Keylet;
  claim_Balance : option STAmount;
  claim_Amount : option STAmount;
  claim_Signature : option Blob;
  claim_PublicKey : option Blob;
  claim_Flags : Z
}.

(** Modelled from the spec: the claim authorization message that
    [serializePayChanAuthorization] builds, ["CLM\0"] followed by the
    channel ID and the encoded amount (64-bit drops for XRP; value,
    currency and issuer for an issued amount).  The serializer itself is
    outside these sources; the message is kept as its sequence of
    fields. *)
Inductive SerField : Type :=
| ser_prefix (b : list byte)
| ser_u256 (k : Keylet)
| ser_u64 (n : Z)
| ser_iou (value : Z) (c : Currency) (issuer : AccountID).

Definition HashPrefix_paymentChannelClaim : list byte := [x43; x4c; x4d; x00].

Definition serializePayChanAuthorization (key : Keylet) (authAmt : STAmount)
    : list SerField :=
  match amt_issue authAmt with
  | xrpIssue =>
      [ser_prefix HashPrefix_paymentChannelClaim; ser_u256 key;
       ser_u64 (amt_value authAmt)]
  | iouIssue c i =>
      [ser_prefix HashPrefix_paymentChannelClaim; ser_u256 key;
       ser_iou (amt_value authAmt) c i]
  end.

(** [*o] on a [std::optional]: the held value when there is one.  On a
    disengaged optional the expression has no defined value; what it
    yields is whatever the optional's storage holds, which is the
    [storage] argument here. *)
Definition deref {A : Type} (storage : A) (o : option A) : A :=
  match o with Some a => a | None => storage end.

(** [STAmount::operator bool]: the amount is not zero. *)
Definition amt_nonzero (a : STAmount) : bool := negb (amt_value a =? 0).

Section Preflight.

(** The framework's own checks, the key and signature primitives and
    the flag mask, all declared outside these sources. *)
Variable preflight1 : PayChanClaimTx -> TER.
Variable preflight2 : PayChanClaimTx -> TER.
Variable publicKeyType : Blob -> bool.
Variable verify : Blob -> list SerField -> Blob -> bool -> bool.
Variable tfPayChanClaimMask : Z.
Variable rules : Feature -> bool.

Definition bad_amount (a : option STAmount) : bool :=
  match a with
  | Some x =>
      (negb (isXRP x) && negb (rules featurePaychanAndEscrowForTokens))
      || (amt_value x <=? 0)
  | None => false
  end.

(** The signature block of [PayChanClaim::preflight], lines 655-684.
    [storage] is what [*amt] reads when the Amount field is absent. *)
Definition check_signature (storage : STAmount) (tx : PayChanClaimTx)
    (sig : Blob) : option TER :=
  let bal := claim_Balance tx in
  let amt := claim_Amount tx in
  match claim_PublicKey tx, bal with
  | Some pk, Some reqBalance =>
      (* auto const authAmt = *amt ? *amt : reqBalance; *)
      let authAmt :=
        if amt_nonzero (deref storage amt) then deref storage amt
        else reqBalance in
      match amt_ltb authAmt reqBalance with
      | None => Some tefEXCEPTION
      | Some true => Some temBAD_AMOUNT
      | Some false =>
          let k := claim_Channel tx in
          if negb (publicKeyType pk) then Some temMALFORMED
          else
            let msg := serializePayChanAuthorization k authAmt in
            if negb (verify pk msg sig true) then Some temBAD_SIGNATURE
            else None
      end
  | _, _ => Some temMALFORMED
  end.

(** [PayChanClaim::preflight]. *)
Definition PayChanClaim_preflight (storage : STAmount) (tx : PayChanClaimTx)
    : TER :=
  let ret := preflight1 tx in
  if negb (isTesSuccess ret) then ret else
  let bal := claim_Balance tx in
  if bad_amount bal then temBAD_AMOUNT else
  let amt := claim_Amount tx in
  if bad_amount amt then temBAD_AMOUNT else
  let over :=
    match bal, amt with
    | Some b, Some a => amt_ltb a b
    | _, _ => Some false
    end in
  match over with
  | None => tefEXCEPTION
  | Some true => temBAD_AMOUNT
  | Some false =>
  let flags := claim_Flags tx in
  if rules fix1543 && has_flag flags tfPayChanClaimMask then temINVALID_FLAG else
  if has_flag flags tfClose && has_flag flags tfRenew then temMALFORMED else
  match claim_Signature tx with
  | Some sig =>
      match check_signature storage tx sig with
      | Some err => err
      | None => preflight2 tx
      end
  | None => preflight2 tx
  end
  end.

End Preflight.

(** The signature tests of the Balance block, lines 721-729: the
    status to return, if any. *)
Definition claim_signer (tx : PayChanClaimTx) (slep : PayChanSLE) : option TER :=
  if (claim_Account tx =? pc_Destination slep)
     && negb (bool_decide (is_Some (claim_Signature tx)))
  then Some temBAD_SIGNATURE else
  match claim_Signature tx with
  | Some _ =>
      match claim_PublicKey tx with
      | None => Some tefEXCEPTION
      | Some pk =>
          if bool_decide (pk = pc_PublicKey slep) then None
          else Some temBAD_SIGNER
      end
  | None => None
  end.

(** The Balance block of [PayChanClaim::doApply], lines 715-799: an
    early return, or the view and the channel to go on with. *)
Definition claim_balance_block (env : Env) (view : View) (tx : PayChanClaimTx)
    (k : Keylet) (slep : PayChanSLE) (reqBalance : STAmount)
    : (TER * View) + (View * PayChanSLE) :=
  let src := pc_Account slep in
  let dst := pc_Destination slep in
  let txAccount := claim_Account tx in
  let chanBalance := pc_Balance slep in
  let chanFunds := pc_Amount slep in
  match claim_signer tx slep with
  | Some err => inl (err, view)
  | None =>
  match amt_ltb chanFunds reqBalance with
  | None => inl (tefEXCEPTION, view)
  | Some true => inl (tecUNFUNDED_PAYMENT, view)
  | Some false =>
  match amt_leb reqBalance chanBalance with
  | None => inl (tefEXCEPTION, view)
  | Some true => (* nothing requested *) inl (tecUNFUNDED_PAYMENT, view)
  | Some false =>
  match peek_account view dst with
  | None => inl (tecNO_DST, view)
  | Some sled =>
  let depositAuth := rules_enabled env featureDepositAuth in
  if negb depositAuth
     && ((txAccount =? src) && has_flag (acct_Flags sled) lsfDisallowXRP)
  then inl (tecNO_TARGET, view) else
  if depositAuth && has_flag (acct_Flags sled) lsfDepositAuth
     && negb (txAccount =? dst)
     && negb (view_exists view (keylet_depositPreauth dst txAccount))
  then inl (tecNO_PERMISSION, view) else
  let slep1 := with_Balance slep reqBalance in
  let view1 := set_paychan view k slep1 in
  match amt_sub reqBalance chanBalance with
  | None => inl (tefEXCEPTION, view1)
  | Some reqDelta =>
      if isXRP reqDelta then
        inr (set_account_balance view1 dst
               (acct_Balance sled + amt_value reqDelta), slep1)
      else
        (* xfer locked tokens to satisfy claim *)
        if negb (rules_enabled env featurePaychanAndEscrowForTokens)
        then inl (tefINTERNAL, view1)
        else
          let r := trustTransferLockedBalance env view1 txAccount src dst
                     reqDelta 0 WetRun in
          if negb (isTesSuccess (fst r)) then inl r
          else inr (snd r, slep1)
  end end end end end.

(** [PayChanClaim::doApply]. *)
Definition PayChanClaim_doApply (env : Env) (view : View) (tx : PayChanClaimTx)
    : TER * View :=
  let k := claim_Channel tx in
  match peek_paychan view k with
  | None => (tecNO_TARGET, view)
  | Some slep =>
  let src := pc_Account slep in
  let dst := pc_Destination slep in
  let txAccount := claim_Account tx in
  let curExpiration := pc_Expiration slep in
  let cancelAfter := pc_CancelAfter slep in
  let closeTime := info_parentCloseTime env in
  if elapsed closeTime cancelAfter || elapsed closeTime curExpiration
  then closeChannel env slep view k
  else
  if negb (txAccount =? src) && negb (txAccount =? dst)
  then (tecNO_PERMISSION, view) else
  let afterBalance :=
    match claim_Balance tx with
    | Some reqBalance => claim_balance_block env view tx k slep reqBalance
    | None => inr (view, slep)
    end in
  match afterBalance with
  | inl ret => ret
  | inr (view1, slep1) =>
  let afterRenew :=
    if has_flag (claim_Flags tx) tfRenew then
      if negb (src =? txAccount) then inl (tecNO_PERMISSION, view1)
      else
        let slep2 := with_Expiration slep1 None in
        inr (set_paychan view1 k slep2, slep2)
    else inr (view1, slep1) in
  match afterRenew with
  | inl ret => ret
  | inr (view2, slep2) =>
  if has_flag (claim_Flags tx) tfClose then
    (* Channel will close immediately if dry or the receiver closes *)
    if (dst =? txAccount) || amt_eqb (pc_Balance slep2) (pc_Amount slep2)
    then closeChannel env slep2 view2 k
    else
      let settleExpiration := wrap32 (closeTime + pc_SettleDelay slep2) in
      let extend :=
        match curExpiration with
        | None => true
        | Some e => settleExpiration <? e
        end in
      if extend
      then (tesSUCCESS,
            set_paychan view2 k (with_Expiration slep2 (Some settleExpiration)))
      else (tesSUCCESS, view2)
  else (tesSUCCESS, view2)
  end end end.

End PayChan.

(** ** applyHook.cpp and SetHook.cpp *)

Module Hook.

(** *** WASM linear memory *)

Definition memory_length (memory : list byte) : Z := Z.of_nat (length memory).

(** What a host function gets back from touching guest memory: the
    bytes, or nothing when the range leaves the linear memory (the C++
    pointer arithmetic then reads outside the instance). *)
Definition read_memory (memory : list byte) (ptr len : Z) : option (list byte) :=
  if (0 <=? ptr) && (0 <=? len) && (ptr + len <=? memory_length memory)
  then Some (firstn (Z.to_nat len) (skipn (Z.to_nat ptr) memory))
  else None.

(** A store of the guest to its own linear memory; a store that leaves
    the memory traps ([None]). *)
Definition write_memory (memory : list byte) (ptr : Z) (bytes : list byte)
    : option (list byte) :=
  if (0 <=? ptr) && (ptr + Z.of_nat (length bytes) <=? memory_length memory)
  then Some (firstn (Z.to_nat ptr) memory ++ bytes
             ++ skipn (Z.to_nat ptr + length bytes) memory)
  else None.

(** The result of a host call: it ran on bytes of the linear memory
    only, or it read outside of it. *)
Inductive access (A : Type) : Type :=
| Ok (a : A)
| OutsideLinearMemory.
Arguments Ok {A} a.
Arguments OutsideLinearMemory {A}.

(** [uint256::fromVoid]: the 32 bytes at the pointer, most significant
    first. *)
Definition uint256_fromVoid (b : list byte) : Z :=
  fold_left (fun acc x => acc * 256 + Z.of_N (Byte.to_N x)) b 0.

(** *** The host API's return codes, exit types and the hook context *)

Inductive api_return : Type :=
| OUT_OF_BOUNDS | INTERNAL_ERROR | TOO_BIG | TOO_SMALL | DOESNT_EXIST
| returned (n : Z).

Definition is_error_code (r : api_return) : bool :=
  match r with returned _ => false | _ => true end.

Inductive ExitType : Type := ROLLBACK | ACCEPT | REJECT.

#[global] Instance ExitType_eq_dec : EqDecision ExitType.
Proof. solve_decision. Defined.

#[global] Instance LedgerEntryType_eq_dec : EqDecision LedgerEntryType.
Proof. solve_decision. Defined.

(** [changedState], a [std::map<uint256, std::pair<bool, Blob>>]: kept
    in ascending key order, one entry per key. *)
Definition StateCache : Type := list (Z * (bool * Blob)).

Fixpoint cache_set (key : Z) (e : bool * Blob) (m : StateCache) : StateCache :=
  match m with
  | [] => [(key, e)]
  | (k', e') :: r =>
      if key <? k' then (key, e) :: m
      else if key =? k' then (key, e) :: r
      else (k', e') :: cache_set key e r
  end.

Fixpoint cache_find (key : Z) (m : StateCache) : option (bool * Blob) :=
  match m with
  | [] => None
  | (k', e') :: r => if key =? k' then Some e' else cache_find key r
  end.

Record HookContext : Type := mkHookContext {
  account : AccountID;
  changedState : StateCache;
  exitType : ExitType;
  exitReason : list byte;
  exitCode : Z
}.

Definition with_changedState (c : HookContext) (m : StateCache) : HookContext :=
  mkHookContext (account c) m (exitType c) (exitReason c) (exitCode c).

Definition set_hook (v : View) (a : AccountID) (h : HookSLE) : View :=
  <[keylet_hook a := sle_hook h]> v.

Definition with_HookStateCount (h : HookSLE) (n : Z) : HookSLE :=
  mkHook (hook_Account h) (hook_CreateCode h) n (hook_HookReserveCount h)
    (hook_HookDataMaxSize h) (hook_HookOn h) (hook_OwnerNode h).

Definition sfOwnerNode (e : SLE) : Z :=
  match e with
  | sle_hook h => hook_OwnerNode h
  | sle_hook_state s => hs_OwnerNode s
  | sle_paychan p => pc_OwnerNode p
  | _ => 0
  end.

Section Runtime.

(** The macro [COMPUTE_HOOK_DATA_OWNER_COUNT] and the constant behind
    [hook::maxHookDataSize()] are defined in the header, outside these
    sources; [accountReserve] is the fee schedule of the view. *)
Variable COMPUTE_HOOK_DATA_OWNER_COUNT : Z -> Z.
Variable maxHookDataSize : Z.
Variable accountReserve : Z -> Z.

(** The macro [WRITE_WASM_MEMORY_AND_RETURN] is defined in the header,
    outside these sources: from the guest memory, the destination
    pointer and length and the bytes to copy it gives the return code
    and the memory after the copy. *)
Variable WRITE_WASM_MEMORY_AND_RETURN :
  list byte -> Z -> Z -> Blob -> access (api_return * list byte).

(** [hook::setHookState(hookCtx, hookStateKeylet, data)]. *)
Definition setHookState (view : View) (acc : AccountID) (hookStateKeylet : Keylet)
    (data : Blob) : TER * View :=
  match peek_account view acc with
  | None => (tefINTERNAL, view)
  | Some sle =>
  match peek_hook view acc with
  | None => (tefINTERNAL, view)
  | Some hook =>
  let hookDataMax := hook_HookDataMaxSize hook in
  (* if the blob is too large don't set it *)
  if hookDataMax <? Z.of_nat (length data) then (temHOOK_DATA_TOO_LARGE, view) else
  let stateCount := hook_HookStateCount hook in
  let oldStateReserve := COMPUTE_HOOK_DATA_OWNER_COUNT stateCount in
  let oldHookState := peek_hook_state view hookStateKeylet in
  (* if the blob is nil then delete the entry if it exists *)
  if Z.of_nat (length data) =? 0 then
    match oldHookState with
    | None =>
      (* a request to remove a non-existent entry is defined as success *)
      (tesSUCCESS, view)
    | Some old =>
      let hint := hs_OwnerNode old in
      (* Remove the node from the account directory. *)
      match dirRemove view (keylet_ownerDir acc) hint hookStateKeylet false with
      | None => (tefBAD_LEDGER, view)
      | Some view1 =>
        (* remove the actual hook state obj *)
        let view2 := delete hookStateKeylet view1 in
        (* adjust state object count *)
        let stateCount1 := if 0 <? stateCount then stateCount - 1 else stateCount in
        (* if removing this state entry would destroy the allotment then
           reduce the owner count *)
        let view3 :=
          if COMPUTE_HOOK_DATA_OWNER_COUNT stateCount1 <? oldStateReserve
          then adjustOwnerCount view2 acc (-1) else view2 in
        (tesSUCCESS,
         set_hook view3 acc
           (with_HookStateCount hook
              (wrap32 (COMPUTE_HOOK_DATA_OWNER_COUNT stateCount1))))
      end
    end
  else
  let ownerCount := acct_OwnerCount sle in
  let counted : TER + (View * HookSLE) :=
    match oldHookState with
    | Some _ => inr (delete hookStateKeylet view, hook)
    | None =>
      let stateCount1 := wrap32 (stateCount + 1) in
      let reserved : TER + View :=
        if oldStateReserve <? COMPUTE_HOOK_DATA_OWNER_COUNT stateCount1 then
          (* the hook used its allocated allotment of state entries for
             its previous ownercount: increment ownercount and give it
             another allotment *)
          let ownerCount1 := wrap32 (ownerCount + 1) in
          let newReserve := accountReserve ownerCount1 in
          if acct_Balance sle <? newReserve then inl tecINSUFFICIENT_RESERVE
          else inr (adjustOwnerCount view acc 1)
        else inr view in
      match reserved with
      | inl err => inl err
      | inr view1 =>
          (* update state count *)
          let hook1 := with_HookStateCount hook stateCount1 in
          inr (set_hook view1 acc hook1, hook1)
      end
    end in
  match counted with
  | inl err => (err, view)
  | inr (view1, _) =>
    (* add new data to ledger *)
    let view2 := <[hookStateKeylet := sle_hook_state (mkHookState data 0)]> view1 in
    match oldHookState with
    | Some _ => (tesSUCCESS, view2)
    | None =>
      (* Add the hook to the account's directory if it wasn't there already *)
      match dirAdd view2 (keylet_ownerDir acc) hookStateKeylet with
      | None => (tecDIR_FULL, view2)
      | Some (page, view3) =>
          (tesSUCCESS,
           <[hookStateKeylet := sle_hook_state (mkHookState data page)]> view3)
      end
    end
  end
  end end.

(** [hook::commitChangesToLedger]: every modified entry of the change
    buffer goes through [setHookState], in key order; its status is
    dropped. *)
Definition commitChangesToLedger (hookCtx : HookContext) (view : View) : View :=
  fold_left
    (fun v cacheEntry =>
       let '(key, (is_modified, blob)) := cacheEntry in
       if is_modified : bool then
         (* this entry isn't just cached, it was actually modified *)
         snd (setHookState v (account hookCtx)
                (keylet_hook_state (account hookCtx) key) blob)
       else v)
    (changedState hookCtx) view.

(** [hook_api::set_state(wasm_ctx, key_ptr, data_ptr_in, in_len)].  The
    three arguments are [uint32_t]; the two sums of the bounds test are
    formed in 32 bits before they are compared with the memory
    length. *)
Definition set_state (view : View) (hookCtx : HookContext) (memory : list byte)
    (key_ptr data_ptr_in in_len : Z) : access (api_return * HookContext) :=
  if (memory_length memory <? wrap32 (key_ptr + 32))
     || (memory_length memory <? wrap32 (data_ptr_in + maxHookDataSize))
  then Ok (OUT_OF_BOUNDS, hookCtx) else
  if in_len =? 0 then Ok (TOO_SMALL, hookCtx) else
  match peek_hook view (account hookCtx) with
  | None => Ok (INTERNAL_ERROR, hookCtx)
  | Some sle =>
  let maxSize := hook_HookDataMaxSize sle in
  if maxSize <? in_len then Ok (TOO_BIG, hookCtx) else
  match read_memory memory key_ptr 32 with
  | None => OutsideLinearMemory
  | Some keyBytes =>
  let key := uint256_fromVoid keyBytes in
  match read_memory memory data_ptr_in in_len with
  | None => OutsideLinearMemory
  | Some blob =>
      Ok (returned in_len,
          with_changedState hookCtx
            (cache_set key (true, blob) (changedState hookCtx)))
  end end end.

(** Modelled from the spec: the macro [NOT_IN_BOUNDS] is defined in the
    header, outside these sources; index and length arguments are
    bounds-checked against linear memory. *)
Definition NOT_IN_BOUNDS (memory : list byte) (ptr len : Z) : bool :=
  (memory_length memory <? ptr) || (memory_length memory <? ptr + len).

(** [hook_api::_exit]: [inl] is a plain return to the guest, [inr] the
    context after [wasmer_raise_runtime_error] ended the execution. *)
Definition _exit (hookCtx : HookContext) (memory : list byte)
    (error_code data_ptr_in in_len : Z) (exitType' : ExitType)
    : access (api_return + HookContext) :=
  let reason : access (api_return + list byte) :=
    if negb (data_ptr_in =? 0) then
      if NOT_IN_BOUNDS memory data_ptr_in in_len then Ok (inl OUT_OF_BOUNDS)
      else match read_memory memory data_ptr_in in_len with
           | Some s => Ok (inr s)
           | None => OutsideLinearMemory
           end
    else Ok (inr (exitReason hookCtx)) in
  match reason with
  | OutsideLinearMemory => OutsideLinearMemory
  | Ok (inl code) => Ok (inl code)
  | Ok (inr s) =>
      Ok (inr (mkHookContext (account hookCtx) (changedState hookCtx)
                 exitType' s error_code))
  end.

Definition accept (hookCtx : HookContext) (memory : list byte)
    (error_code data_ptr_in in_len : Z) :=
  _exit hookCtx memory error_code data_ptr_in in_len ACCEPT.

Definition reject (hookCtx : HookContext) (memory : list byte)
    (error_code data_ptr_in in_len : Z) :=
  _exit hookCtx memory error_code data_ptr_in in_len REJECT.

Definition rollback (hookCtx : HookContext) (memory : list byte)
    (error_code data_ptr_in in_len : Z) :=
  _exit hookCtx memory error_code data_ptr_in in_len ROLLBACK.

(** The loop of [output_dbg]: [n] more characters from index [i] on;
    the index [ptr + i] is a [uint32_t] sum. *)
Fixpoint dbg_loop (memory : list byte) (ptr i : Z) (n : nat)
    : access (list byte) :=
  match n with
  | O => Ok []
  | S n' =>
      match read_memory memory (wrap32 (ptr + i)) 1 with
      | None => OutsideLinearMemory
      | Some c =>
          match dbg_loop memory ptr (i + 1) n' with
          | Ok out => Ok (c ++ out)
          | OutsideLinearMemory => OutsideLinearMemory
          end
      end
  end.

(** [hook_api::output_dbg(wasm_ctx, ptr, len)]: the return code and
    the characters printed. *)
Definition output_dbg (memory : list byte) (ptr len : Z)
    : access (api_return * list byte) :=
  let len := if 1024 <? len then 1024 else len in
  match dbg_loop memory ptr 0
          (Z.to_nat (Z.min len (memory_length memory))) with
  | Ok out => Ok (returned len, out)
  | OutsideLinearMemory => OutsideLinearMemory
  end.

(** [hook_api::get_state(wasm_ctx, key_ptr, data_ptr_out, out_len)]:
    the return code, the hook context and the guest memory
    afterwards. *)
Definition get_state (view : View) (hookCtx : HookContext) (memory : list byte)
    (key_ptr data_ptr_out out_len : Z)
    : access (api_return * HookContext * list byte) :=
  if memory_length memory <? wrap32 (key_ptr + out_len)
  then Ok (OUT_OF_BOUNDS, hookCtx, memory) else
  match read_memory memory key_ptr 32 with
  | None => OutsideLinearMemory
  | Some keyBytes =>
  let key := uint256_fromVoid keyBytes in
  (* first check if the requested state was previously cached this session *)
  match cache_find key (changedState hookCtx) with
  | Some cacheEntry =>
      match WRITE_WASM_MEMORY_AND_RETURN memory data_ptr_out out_len
              (snd cacheEntry) with
      | Ok (code, memory') => Ok (code, hookCtx, memory')
      | OutsideLinearMemory => OutsideLinearMemory
      end
  | None =>
  (* cache miss look it up *)
  match peek_hook view (account hookCtx) with
  | None => Ok (INTERNAL_ERROR, hookCtx, memory)
  | Some _ =>
  match peek_hook_state view (keylet_hook_state (account hookCtx) key) with
  | None => Ok (DOESNT_EXIST, hookCtx, memory)
  | Some hsSLE =>
      let b := hs_HookData hsSLE in
      (* it exists add it to cache and return it *)
      let hookCtx' :=
        with_changedState hookCtx
          (cache_set key (false, b) (changedState hookCtx)) in
      match WRITE_WASM_MEMORY_AND_RETURN memory data_ptr_out out_len b with
      | Ok (code, memory') => Ok (code, hookCtx', memory')
      | OutsideLinearMemory => OutsideLinearMemory
      end
  end end end end.

(** Modelled from the spec: the WASM engine is outside these sources.
    A run of the guest's [hook] export is seen from the host as a tree:
    the guest returns (or traps), stores bytes to its linear memory, or
    calls a function of the host API and goes on according to the value
    it gets back and the memory it then finds.  The run ends when the
    guest returns or traps, or at the first [accept], [reject] or
    [rollback] that raises. *)
Inductive HostCall : Type :=
| call_output_dbg (ptr len : Z)
| call_set_state (key_ptr data_ptr_in in_len : Z)
| call_get_state (key_ptr data_ptr_out out_len : Z)
| call_accept (error_code data_ptr_in in_len : Z)
| call_reject (error_code data_ptr_in in_len : Z)
| call_rollback (error_code data_ptr_in in_len : Z).

Inductive GuestCode : Type :=
| guest_return
| guest_store (ptr : Z) (bytes : list byte) (next : GuestCode)
| guest_call (c : HostCall) (next : api_return -> list byte -> GuestCode).

Record Guest : Type := mkGuest {
  guest_memory : list byte;
  guest_code : GuestCode
}.

(** [hook::apply] does not look at what [wasmer_instance_call]
    answers: a guest that traps leaves the hook context as a guest that
    returns does. *)
Fixpoint wasmer_instance_call (view : View) (memory : list byte)
    (code : GuestCode) (hookCtx : HookContext) : access HookContext :=
  match code with
  | guest_return => Ok hookCtx
  | guest_store ptr bytes next =>
      match write_memory memory ptr bytes with
      | Some memory' => wasmer_instance_call view memory' next hookCtx
      | None => Ok hookCtx
      end
  | guest_call c next =>
      let leave (r : access (api_return + HookContext)) :=
        match r with
        | OutsideLinearMemory => OutsideLinearMemory
        | Ok (inl ret) =>
            wasmer_instance_call view memory (next ret memory) hookCtx
        | Ok (inr ctx') => Ok ctx'
        end in
      match c with
      | call_output_dbg ptr len =>
          match output_dbg memory ptr len with
          | OutsideLinearMemory => OutsideLinearMemory
          | Ok (ret, _) =>
              wasmer_instance_call view memory (next ret memory) hookCtx
          end
      | call_set_state kp dp len =>
          match set_state view hookCtx memory kp dp len with
          | OutsideLinearMemory => OutsideLinearMemory
          | Ok (ret, ctx') =>
              wasmer_instance_call view memory (next ret memory) ctx'
          end
      | call_get_state kp dp len =>
          match get_state view hookCtx memory kp dp len with
          | OutsideLinearMemory => OutsideLinearMemory
          | Ok (ret, ctx', memory') =>
              wasmer_instance_call view memory' (next ret memory') ctx'
          end
      | call_accept ec p len => leave (accept hookCtx memory ec p len)
      | call_reject ec p len => leave (reject hookCtx memory ec p len)
      | call_rollback ec p len => leave (rollback hookCtx memory ec p len)
      end
  end.

(** The [HookContext] that [hook::apply] hands to the instance. *)
Definition initialContext (acc : AccountID) : HookContext :=
  mkHookContext acc []
    ROLLBACK (* default is to rollback unless hook calls accept() or reject() *)
    [] (-1).

(** [hook::apply(hook, applyCtx, account)]. *)
Definition apply_hook (wasmer_instantiate : Blob -> option Guest) (hook : Blob)
    (view : View) (acc : AccountID) : access (TER * View) :=
  match wasmer_instantiate hook with
  | None => Ok (temMALFORMED, view)
  | Some instance =>
      match wasmer_instance_call view (guest_memory instance)
              (guest_code instance) (initialContext acc) with
      | OutsideLinearMemory => OutsideLinearMemory
      | Ok hookCtx' =>
          let view' :=
            if negb (bool_decide (exitType hookCtx' = ROLLBACK))
            then commitChangesToLedger hookCtx' view
            else view in
          if bool_decide (exitType hookCtx' = ACCEPT)
          then Ok (tesSUCCESS, view')
          else Ok (terNO_AUTH, view')
      end
  end.

(** *** SetHook.cpp *)

(** [std::ceil((double) n / d)] on integers. *)
Definition ceil_div (n d : Z) : Z := - ((- n) / d).

(** The [do]/[while] loop of [destroyEntireHookState] over the items
    of the directory cursor. *)
Fixpoint destroy_loop (view : View) (ownerDirKeylet : Keylet)
    (entries : list Keylet) : TER * View :=
  match entries with
  | [] => (tesSUCCESS, view)
  | dirEntry :: rest =>
      (* Make sure any directory node types that we find are the kind
         we can delete. *)
      match view !! dirEntry with
      | None =>
          (* Directory node has an invalid index.  Bail out. *)
          (tefBAD_LEDGER, view)
      | Some sleItem =>
          let nodeType := sfLedgerEntryType sleItem in
          if bool_decide (nodeType = ltHOOK_STATE) then
            (* delete it! *)
            let hint := sfOwnerNode sleItem in
            match dirRemove view ownerDirKeylet hint dirEntry false with
            | None => (tefBAD_LEDGER, view)
            | Some view1 =>
                destroy_loop (delete dirEntry view1) ownerDirKeylet rest
            end
          else destroy_loop view ownerDirKeylet rest
      end
  end.

(** [SetHook::destroyEntireHookState]. *)
Definition destroyEntireHookState (view : View) (acc : AccountID) : TER * View :=
  let ownerDirKeylet := keylet_ownerDir acc in
  if dirIsEmpty view ownerDirKeylet then (tesSUCCESS, view) else
  match cdirFirst view ownerDirKeylet with
  | None | Some [] => (tefINTERNAL, view)
  | Some entries => destroy_loop view ownerDirKeylet entries
  end.

(** [SetHook::removeHookFromLedger]. *)
Definition removeHookFromLedger (view : View) (acc : AccountID) : TER * View :=
  match peek_hook view acc with
  | None => (tesSUCCESS, view)
  | Some hook =>
      (* Remove the node from the account directory. *)
      let hint := hook_OwnerNode hook in
      match dirRemove view (keylet_ownerDir acc) hint (keylet_hook acc) false with
      | None => (tefBAD_LEDGER, view)
      | Some view1 =>
          (* remove the actual hook *)
          (tesSUCCESS, delete (keylet_hook acc) view1)
      end
  end.

(** [SetHook::setHook], with the transactor's members [account_],
    [mPriorBalance], [hook_] and [hookOn_] as arguments. *)
Definition setHook (view : View) (account_ : AccountID) (mPriorBalance : Z)
    (hook_ : Blob) (hookOn_ : Z) : TER * View :=
  let blobMax := maxHookDataSize in
  let oldHook := peek_hook view account_ in
  (* get the current state count, if any *)
  let stateCount :=
    match oldHook with Some h => hook_HookStateCount h | None => 0 end in
  (* get the previously reserved amount, if any *)
  let previousReserveUnits :=
    match oldHook with Some h => hook_HookReserveCount h | None => 0 end in
  (* get the new cost to store, if any *)
  let newReserveUnits := ceil_div (Z.of_nat (length hook_)) (5 * blobMax) in
  if bool_decide (hook_ = []) && negb (bool_decide (is_Some oldHook)) then
    (* this is a special case for destroying the existing state data of
       a previously removed contract *)
    let r := destroyEntireHookState view account_ in
    if negb (isTesSuccess (fst r)) then r else (tesSUCCESS, snd r)
  else
  (* remove the existing hook object in anticipation of readding *)
  let r := removeHookFromLedger view account_ in
  if negb (isTesSuccess (fst r)) then r else
  let view1 := snd r in
  match peek_account view1 account_ with
  | None => (tefINTERNAL, view1)
  | Some sle =>
  (* Compute new reserve.  Verify the account has funds to meet the reserve. *)
  let oldOwnerCount := acct_OwnerCount sle in
  let addedOwnerCount := newReserveUnits - previousReserveUnits in
  let newReserve := accountReserve (oldOwnerCount + addedOwnerCount) in
  if mPriorBalance <? newReserve then (tecINSUFFICIENT_RESERVE, view1) else
  let installed : TER + View :=
    if negb (bool_decide (hook_ = [])) then
      let hook := mkHook account_ hook_ stateCount (wrap32 newReserveUnits)
                    blobMax hookOn_ 0 in
      let view2 := set_hook view1 account_ hook in
      (* Add the hook to the account's directory. *)
      match dirAdd view2 (keylet_ownerDir account_) (keylet_hook account_) with
      | None => inl tecDIR_FULL
      | Some (page, view3) =>
          inr (set_hook view3 account_
                 (mkHook account_ hook_ stateCount (wrap32 newReserveUnits)
                    blobMax hookOn_ page))
      end
    else inr view1 in
  match installed with
  | inl err => (err, set_hook view1 account_
                       (mkHook account_ hook_ stateCount
                          (wrap32 newReserveUnits) blobMax hookOn_ 0))
  | inr view4 => (tesSUCCESS, adjustOwnerCount view4 account_ addedOwnerCount)
  end
  end.

End Runtime.

(** Modelled from the spec: [COMPUTE_HOOK_DATA_OWNER_COUNT(n)] maps the
    count of state entries to owner-count units by one fixed formula,
    [ceil(n / K)] for a chosen granularity [K]; the macro itself is
    outside these sources. *)
Definition allotment (K n : Z) : Z := ceil_div n K.

(** The HookState entries an account owns: the entries of its owner
    directory that are HookState entries of the view. *)
Definition ownedHookStates (view : View) (acc : AccountID) : list Keylet :=
  match view !! keylet_ownerDir acc with
  | Some (sle_dir l) =>
      filter (fun k => is_Some (peek_hook_state view k)) l
  | _ => []
  end.

End Hook.

(** ** PayChan.cpp: the remaining transactor phases *)

Module PayChanTx.

Import PayChan.

(** The checks that [PayChanCreate::preflight] and
    [PayChanFund::preflight] both make on an amount that is not XRP
    (lines 232-249 and 460-477): the status to return, if any. *)
Definition token_amount_check (rules : Feature -> bool)
    (isLegalNet isFakeXRP : STAmount -> bool) (account : AccountID)
    (amount : STAmount) : option TER :=
  if negb (isXRP amount) then
    if negb (rules featurePaychanAndEscrowForTokens) then Some temBAD_AMOUNT
    else if negb (isLegalNet amount) then Some temBAD_AMOUNT
    else if isFakeXRP amount then Some temBAD_CURRENCY
    else if account =? amt_issuer amount then Some temDST_IS_SRC
    else None
  else None.

Section CreatePreflight.

(** The framework's checks, the key-type test, the amount tests and
    the universal flag mask are declared outside these sources. *)
Variable preflight1 : PayChanCreateTx -> TER.
Variable preflight2 : PayChanCreateTx -> TER.
Variable publicKeyType : Blob -> bool.
Variable isLegalNet : STAmount -> bool.
Variable isFakeXRP : STAmount -> bool.
Variable tfUniversalMask : Z.
Variable rules : Feature -> bool.

(** [PayChanCreate::preflight]; [flags] is [ctx.tx.getFlags()]. *)
Definition PayChanCreate_preflight (flags : Z) (tx : PayChanCreateTx) : TER :=
  if rules fix1543 && has_flag flags tfUniversalMask then temINVALID_FLAG else
  let ret := preflight1 tx in
  if negb (isTesSuccess ret) then ret else
  let amount := create_Amount tx in
  match token_amount_check rules isLegalNet isFakeXRP (create_Account tx) amount with
  | Some err => err
  | None =>
  if amt_value (create_Amount tx) <=? 0 then temBAD_AMOUNT else
  if create_Account tx =? create_Destination tx then temDST_IS_SRC else
  if negb (publicKeyType (create_PublicKey tx)) then temMALFORMED else
  preflight2 tx
  end.

End CreatePreflight.

Section FundPreflight.

Variable preflight1 : PayChanFundTx -> TER.
Variable preflight2 : PayChanFundTx -> TER.
Variable isLegalNet : STAmount -> bool.
Variable isFakeXRP : STAmount -> bool.
Variable tfUniversalMask : Z.
Variable rules : Feature -> bool.

(** [PayChanFund::preflight]; [flags] is [ctx.tx.getFlags()]. *)
Definition PayChanFund_preflight (flags : Z) (tx : PayChanFundTx) : TER :=
  if rules fix1543 && has_flag flags tfUniversalMask then temINVALID_FLAG else
  let ret := preflight1 tx in
  if negb (isTesSuccess ret) then ret else
  let amount := fund_Amount tx in
  match token_amount_check rules isLegalNet isFakeXRP (fund_Account tx) amount with
  | Some err => err
  | None =>
  if amt_value (fund_Amount tx) <=? 0 then temBAD_AMOUNT else
  preflight2 tx
  end.

End FundPreflight.

Definition with_OwnerNode (p : PayChanSLE) (page : Z) : PayChanSLE :=
  mkPayChan (pc_Account p) (pc_Destination p) (pc_Amount p) (pc_Balance p)
    (pc_SettleDelay p) (pc_PublicKey p) (pc_CancelAfter p) (pc_Expiration p)
    (pc_SourceTag p) (pc_DestinationTag p) page (pc_DestinationNode p).

Definition with_DestinationNode (p : PayChanSLE) (page : option Z) : PayChanSLE :=
  mkPayChan (pc_Account p) (pc_Destination p) (pc_Amount p) (pc_Balance p)
    (pc_SettleDelay p) (pc_PublicKey p) (pc_CancelAfter p) (pc_Expiration p)
    (pc_SourceTag p) (pc_DestinationTag p) (pc_OwnerNode p) page.

(** The entry that [PayChanCreate::doApply] builds, lines 367-379. *)
Definition newPayChan (tx : PayChanCreateTx) : PayChanSLE :=
  mkPayChan (create_Account tx) (create_Destination tx)
    (create_Amount tx)                                   (* Funds held in this channel *)
    (mkAmount (amt_issue (create_Amount tx)) 0)          (* Amount channel has already paid *)
    (create_SettleDelay tx) (create_PublicKey tx) (create_CancelAfter tx)
    None (create_SourceTag tx) (create_DestinationTag tx) 0 None.

(** Add PayChan to the recipient's owner directory (lines 394-402):
    [None] when the directory is full. *)
Definition addToRecipientDir (env : Env) (view : View) (key : Keylet)
    (slep : PayChanSLE) : option (View * PayChanSLE) :=
  if rules_enabled env fixPayChanRecipientOwnerDir then
    match dirInsert view (keylet_ownerDir (pc_Destination slep)) key with
    | None => None
    | Some (page, view1) =>
        let slep1 := with_DestinationNode slep (Some page) in
        Some (set_paychan view1 key slep1, slep1)
    end
  else Some (view, slep).

(** Deduct owner's balance (lines 404-433). *)
Definition createDeduct (env : Env) (view : View) (account : AccountID)
    (amount : STAmount) (sle : AccountRoot) : TER * View :=
  if isXRP amount then
    (tesSUCCESS,
     set_account_balance view account (acct_Balance sle - amt_value amount))
  else
    if negb (rules_enabled env featurePaychanAndEscrowForTokens)
    then (tefINTERNAL, view)
    else
      let sleLine :=
        keylet_line account (amt_issuer amount) (amt_currency amount) in
      if negb (view_exists view sleLine) then (tecUNFUNDED_PAYMENT, view)
      else
        let r := trustAdjustLockedBalance env view sleLine amount 1 WetRun in
        if negb (isTesSuccess (fst r)) then (tefINTERNAL, snd r) else r.

(** [PayChanCreate::doApply].  [view.insert] of an index that is
    already in the view raises; the status is then [tefEXCEPTION]. *)
Definition PayChanCreate_doApply (env : Env) (view : View)
    (tx : PayChanCreateTx) : TER * View :=
  let account := create_Account tx in
  match peek_account view account with
  | None => (tefINTERNAL, view)
  | Some sle =>
  let dst := create_Destination tx in
  let amount := create_Amount tx in
  (* Create PayChan in ledger. *)
  let payChanKeylet := keylet_payChan account dst (create_Sequence tx) in
  if view_exists view payChanKeylet then (tefEXCEPTION, view) else
  let view1 := set_paychan view payChanKeylet (newPayChan tx) in
  (* Add PayChan to owner directory *)
  match dirInsert view1 (keylet_ownerDir account) payChanKeylet with
  | None => (tecDIR_FULL, view1)
  | Some (page, view2) =>
  let slep1 := with_OwnerNode (newPayChan tx) page in
  let view3 := set_paychan view2 payChanKeylet slep1 in
  match addToRecipientDir env view3 payChanKeylet slep1 with
  | None => (tecDIR_FULL, view3)
  | Some (view4, slep2) =>
  (* Deduct owner's balance, increment owner count *)
  let paid := createDeduct env view4 account amount sle in
  if negb (isTesSuccess (fst paid)) then paid
  else (tesSUCCESS, adjustOwnerCount (snd paid) account 1)
  end end end.

(** The channel entry a successful create leaves in the view. *)
Definition createdPayChan (env : Env) (tx : PayChanCreateTx) : PayChanSLE :=
  with_DestinationNode (with_OwnerNode (newPayChan tx) 0)
    (if rules_enabled env fixPayChanRecipientOwnerDir then Some 0 else None).

(** An index is listed in an account's owner directory under a page
    hint. *)
Definition listed (view : View) (owner : AccountID) (page : Z) (key : Keylet)
    : Prop :=
  page = 0 /\
  exists l, view !! keylet_ownerDir owner = Some (sle_dir l) /\
            key_in key l = true.

(** A channel linked into the ledger the way [PayChanCreate::doApply]
    links it: the owner's directory lists it under [sfOwnerNode], the
    recipient's directory lists it under [sfDestinationNode] when the
    channel has that field and the recipient-directory fix is enabled,
    and the owner's account root exists. *)
Definition channel_linked (env : Env) (view : View) (key : Keylet)
    (slep : PayChanSLE) : Prop :=
  listed view (pc_Account slep) (pc_OwnerNode slep) key /\
  (forall page, pc_DestinationNode slep = Some page ->
     rules_enabled env fixPayChanRecipientOwnerDir = true ->
     pc_Destination slep <> pc_Account slep /\
     listed view (pc_Destination slep) page key) /\
  is_Some (peek_account view (pc_Account slep)).

End PayChanTx.

(** ** applyHook.cpp: the remaining host API *)

Module HookApi.

Import Hook.

(** The entries of the change buffer that are marked modified. *)
Definition modifiedEntries (m : list (Z * (bool * Blob)))
    : list (Z * (bool * Blob)) :=
  filter (fun e => fst (snd e) = true) m.

(** The order of a [std::map]: keys strictly ascending, so one entry
    per key. *)
Fixpoint ascending_keys (m : list (Z * (bool * Blob))) : Prop :=
  match m with
  | [] => True
  | e :: r => Forall (fun x => fst e < fst x) r /\ ascending_keys r
  end.

(** What holds of the change buffer throughout a run on [view] for the
    account [acc]: it is ordered by key, and every entry marked
    modified holds data that is not empty and fits the limit of the
    account's hook. *)
Definition well_staged (view : View) (acc : AccountID)
    (m : list (Z * (bool * Blob))) : Prop :=
  ascending_keys m /\
  forall key blob, cache_find key m = Some (true, blob) ->
    blob <> [] /\
    exists hook, peek_hook view acc = Some hook /\
                 Z.of_nat (length blob) <= hook_HookDataMaxSize hook.

Definition is_exit_call (c : HostCall) : bool :=
  match c with
  | call_accept _ _ _ | call_reject _ _ _ | call_rollback _ _ _ => true
  | _ => false
  end.

(** A guest that, whatever the host answers, never calls [accept],
    [reject] or [rollback]. *)
Fixpoint makes_no_exit_call (code : GuestCode) : Prop :=
  match code with
  | guest_return => True
  | guest_store _ _ next => makes_no_exit_call next
  | guest_call c next =>
      is_exit_call c = false /\
      forall ret memory, makes_no_exit_call (next ret memory)
  end.

End HookApi.

(** ** Concrete ledgers and transactions *)

Module Scenarios.

Import PayChan Hook.

(** Fee schedule with [accountReserve(1) = 200,000] drops. *)
Definition reserve (ownerCount : Z) : Z := 100000 + 100000 * ownerCount.

Definition no_amendments : Feature -> bool := fun _ => false.

Definition tokens_enabled : Feature -> bool :=
  fun f => match f with featurePaychanAndEscrowForTokens => true | _ => false end.

(** A stand-in for the Trust-Line Engine: it refuses to lock on a trust
    line that is not in the ledger and accepts otherwise. *)
Definition engine_adjust (v : View) (line : Keylet) (amount : STAmount)
    (delta : Z) (run : RunType) : TER * View :=
  match v !! line with
  | Some (sle_line _ _) => (tesSUCCESS, v)
  | _ => (tecNO_LINE, v)
  end.

Definition engine_allowed (v : View) (src dst : AccountID) (i : Issue) : TER :=
  tesSUCCESS.

Definition engine_transfer (v : View) (actor src dst : AccountID)
    (amount : STAmount) (flags : Z) (run : RunType) : TER * View :=
  (tesSUCCESS, v).

Definition env_at (rules : Feature -> bool) (closeTime : Z) : Env :=
  mkEnv rules reserve closeTime engine_adjust engine_allowed engine_transfer.

(** Owner [O], destination [D], a third account [S] and an issuer [I]. *)
Definition O : AccountID := 1.
Definition D : AccountID := 2.
Definition S : AccountID := 3.
Definition I : AccountID := 9.
Definition PKa : Blob := [xed; x01; x02; x03].
Definition SIGa : Blob := [x30; x44; x02; x20].

Definition accounts : View :=
  <[keylet_account O := sle_account (mkAccountRoot 1000000 0 0)]>
  (<[keylet_account D := sle_account (mkAccountRoot 500000 0 0)]>
  (<[keylet_account S := sle_account (mkAccountRoot 700000 0 0)]> ∅)).

(** Scenario 1 of the spec: Create(dst=D, amount=100,000,
    settleDelay=86,400, pk=PKa) by [O]. *)
Definition create_tx : PayChanCreateTx :=
  mkCreateTx O D (drops 100000) 86400 PKa None None None 1.

(** The channel that create leaves behind, with [CancelAfter] at 1000,
    and the ledger that holds it. *)
Definition K : Keylet := keylet_payChan O D 1.

Definition channel (cancelAfter : option Z) : PayChanSLE :=
  mkPayChan O D (drops 100000) (drops 0) 86400 PKa cancelAfter None
    None None 0 None.

Definition ledger_with (p : PayChanSLE) : View :=
  <[K := sle_paychan p]>
  (<[keylet_ownerDir O := sle_dir [K]]>
  (<[keylet_account O := sle_account (mkAccountRoot 900000 1 0)]> accounts)).

Definition USD : Currency := 840.

(** A fund by the stranger [S] in an issued currency. *)
Definition fund_iou_tx : PayChanFundTx := mkFundTx S K (mkAmount (iouIssue USD I) 50) None.

(** A fund by the stranger [S] in XRP. *)
Definition fund_xrp_tx : PayChanFundTx := mkFundTx S K (drops 50000) None.

(** A fund by the owner that also moves the expiration. *)
Definition fund_extend_tx (extend : Z) : PayChanFundTx :=
  mkFundTx O K (drops 50000) (Some extend).

(** Scenario 3 of the spec: the destination claims 150,000 of a
    channel that holds 100,000. *)
Definition overclaim_tx : PayChanClaimTx :=
  mkClaimTx D K (Some (drops 150000)) None (Some SIGa) (Some PKa) 0.

(** A claim of 40,000 signed by the owner, without an Amount field. *)
Definition claim_tx : PayChanClaimTx :=
  mkClaimTx D K (Some (drops 40000)) None (Some SIGa) (Some PKa) 0.

(** *** Hooks *)

Definition A : AccountID := 7.
Definition wasm : Blob := [x00; x61; x73; x6d; x01; x00; x00; x00].

Definition installed_hook (stateCount : Z) : HookSLE :=
  mkHook A wasm stateCount 1 128 0 0.

Definition state_entry : SLE := sle_hook_state (mkHookState [x2a] 0).

(** [A] has a hook and no state yet. *)
Definition hook_ledger : View :=
  <[keylet_account A := sle_account (mkAccountRoot 5000000 1 0)]>
  (<[keylet_hook A := sle_hook (installed_hook 0)]>
  (<[keylet_ownerDir A := sle_dir [keylet_hook A]]> ∅)).

(** [A] has a hook and three HookState entries; with a granularity of 5
    they cost one owner-count unit on top of the hook's own. *)
Definition three_states : View :=
  <[keylet_hook_state A 1 := state_entry]>
  (<[keylet_hook_state A 2 := state_entry]>
  (<[keylet_hook_state A 3 := state_entry]> ∅)).

Definition hook_ledger3 : View :=
  <[keylet_account A := sle_account (mkAccountRoot 5000000 2 0)]>
  (<[keylet_hook A := sle_hook (installed_hook 3)]>
  (<[keylet_ownerDir A :=
       sle_dir [keylet_hook A; keylet_hook_state A 1; keylet_hook_state A 2;
                keylet_hook_state A 3]]> three_states)).

(** Scenario 6 of the spec: the hook is gone, its three HookState
    entries are left, and [A]'s owner count still carries their unit. *)
Definition orphan_ledger : View :=
  <[keylet_account A := sle_account (mkAccountRoot 5000000 1 0)]>
  (<[keylet_ownerDir A :=
       sle_dir [keylet_hook_state A 1; keylet_hook_state A 2;
                keylet_hook_state A 3]]> three_states).

(** One page of linear memory: a 32-byte key (the number 1) at offset
    0 and 16 bytes of data at offset 32. *)
Definition data16 : list byte :=
  [x10; x11; x12; x13; x14; x15; x16; x17; x18; x19; x1a; x1b; x1c; x1d; x1e; x1f].

Definition page : list byte :=
  repeat x00 31 ++ [x01] ++ data16 ++ repeat x00 (Z.to_nat (65536 - 48)).


Definition instantiate (g : Guest) : Blob -> option Guest := fun _ => Some g.


End Scenarios.

(** ** More ledgers and transactions *)

Module MoreScenarios.

Import PayChan Hook Scenarios.

(** [O] holds a USD trust line to the issuer [I]. *)
Definition token_ledger : View :=
  <[keylet_line O I USD := sle_line 1000 0]> accounts.

Definition create_iou_tx : PayChanCreateTx :=
  mkCreateTx O D (mkAmount (iouIssue USD I) 100) 86400 PKa None None None 1.

Definition recipient_dir_enabled : Feature -> bool :=
  fun f => match f with fixPayChanRecipientOwnerDir => true | _ => false end.

(** A blob one byte over the hook's limit of 128. *)
Definition oversized : Blob := repeat x00 129.

(** [A] cannot afford one more owned entry: its balance is below
    [reserve 2]. *)
Definition poor_hook_ledger : View :=
  <[keylet_account A := sle_account (mkAccountRoot 250000 1 0)]>
  (<[keylet_hook A := sle_hook (installed_hook 0)]>
  (<[keylet_ownerDir A := sle_dir [keylet_hook A]]> ∅)).

(** A guest that stages [(1 -> data16)] and then accepts. *)
Definition accepting_guest : Guest :=
  mkGuest page
    (guest_call (call_set_state 0 32 16) (fun _ _ =>
     guest_call (call_accept 0 0 0) (fun _ _ => guest_return))).

(** A guest that stages [(1 -> data16)] and returns. *)
Definition returning_guest : Guest :=
  mkGuest page
    (guest_call (call_set_state 0 32 16) (fun _ _ => guest_return)).

(** A stand-in for the macro [WRITE_WASM_MEMORY_AND_RETURN]: it copies
    as much of the data as the destination takes and returns the
    number of bytes copied, or [OUT_OF_BOUNDS] when the destination
    leaves the linear memory. *)
Definition copy_out (memory : list byte) (ptr len : Z) (b : Blob)
    : access (api_return * list byte) :=
  let n := Z.min (Z.of_nat (length b)) len in
  match write_memory memory ptr (firstn (Z.to_nat n) b) with
  | Some memory' => Ok (returned n, memory')
  | None => Ok (OUT_OF_BOUNDS, memory)
  end.



(** A channel of [O] to [D], as create leaves it, whose SettleDelay is
    the largest 32-bit value. *)
Definition long_delay_channel : PayChanSLE :=
  mkPayChan O D (drops 100000) (drops 0) 4294967295 PKa None None
    None None 0 None.

(** The change buffer after [set_state(0, 32, 16)] on [page]. *)
Definition staged_context : HookContext :=
  mkHookContext A [(1, (true, data16))] ROLLBACK [] (-1).

End MoreScenarios.

(** ** Statuses and amounts: basic facts *)

Lemma isTesSuccess_true (t : TER) : isTesSuccess t = true <-> t = tesSUCCESS.
Proof. split; [by destruct t | by intros ->]. Qed.

Lemma isTesSuccess_false (t : TER) : isTesSuccess t = false <-> t <> tesSUCCESS.
Proof. split; [by intros H -> | by destruct t]. Qed.

Lemma wrap32_small (x : Z) : 0 <= x < 2 ^ 32 -> wrap32 x = x.
Proof. intros H. unfold wrap32. by apply Z.mod_small. Qed.

(** ** Directories and account roots *)

Lemma peek_account_dirRemove (v v1 : View) (owner : AccountID) (page : Z)
    (key : Keylet) (keepRoot : bool) (a : AccountID) :
  dirRemove v (keylet_ownerDir owner) page key keepRoot = Some v1 ->
  peek_account v1 a = peek_account v a.
Proof.
  unfold dirRemove, peek_account. intros H.
  destruct (v !! keylet_ownerDir owner) as [[]|]; try done.
  destruct (_ && _); [| done].
  destruct (remove_first key indexes); [destruct keepRoot |];
    injection H as <-.
  - by rewrite lookup_insert_ne.
  - by rewrite lookup_delete_ne.
  - by rewrite lookup_insert_ne.
Qed.

(** ** The hook runtime *)

Module HookFacts.

Import Hook Scenarios.

(** *** set_state *)

(** C4 (counterexample).  On the ledger where [A] has a hook and no
    state, a [set_state] call with [in_len = 0] for the key 1, which has
    no entry anywhere, is not a successful no-op: it returns the error
    code [TOO_SMALL]. *)
Lemma set_state_zero_length_is_an_error :
  peek_hook_state hook_ledger (keylet_hook_state A 1) = None /\
  set_state 128 hook_ledger (initialContext A) page 0 32 0
    = Ok (TOO_SMALL, initialContext A) /\
  is_error_code TOO_SMALL = true.
Proof. by vm_compute. Qed.

(** C4 (amended).  A [set_state] call with [dataLen = 0] never stages
    anything, neither a deletion nor an entry: it returns the error
    code [OUT_OF_BOUNDS] when the bounds test fails and the error code
    [TOO_SMALL] otherwise, also when no entry exists for the key, and
    the hook context, change buffer included, is as before. *)
Theorem set_state_zero_length (maxHookDataSize : Z) (view : View)
    (hookCtx : HookContext) (memory : list byte) (key_ptr data_ptr_in : Z) :
  let out_of_bounds :=
    (memory_length memory <? wrap32 (key_ptr + 32))
    || (memory_length memory <? wrap32 (data_ptr_in + maxHookDataSize)) in
  set_state maxHookDataSize view hookCtx memory key_ptr data_ptr_in 0
  = Ok (if out_of_bounds then OUT_OF_BOUNDS else TOO_SMALL, hookCtx) /\
  is_error_code (if out_of_bounds then OUT_OF_BOUNDS else TOO_SMALL) = true.
Proof.
  intros out_of_bounds. unfold set_state. fold out_of_bounds.
  by destruct out_of_bounds.
Qed.

(** Reads that the bounds test admits stay inside the linear memory
    as long as neither 32-bit sum wraps and the hook's own data limit is
    the global one. *)
Lemma set_state_inside_without_wrap (maxHookDataSize : Z) (view : View)
    (hookCtx : HookContext) (memory : list byte) (key_ptr data_ptr_in in_len : Z)
    (h : HookSLE) :
  0 <= key_ptr -> key_ptr + 32 < 2 ^ 32 ->
  0 <= data_ptr_in -> 0 <= in_len -> 0 <= maxHookDataSize ->
  data_ptr_in + maxHookDataSize < 2 ^ 32 ->
  peek_hook view (account hookCtx) = Some h ->
  hook_HookDataMaxSize h = maxHookDataSize ->
  set_state maxHookDataSize view hookCtx memory key_ptr data_ptr_in in_len
    <> OutsideLinearMemory.
Proof.
  intros Hk Hk32 Hd Hl Hm Hd32 Hh Hmax. unfold set_state.
  rewrite !wrap32_small by lia.
  destruct (_ || _) eqn:Hb; [done |].
  apply orb_false_iff in Hb as [Hb1 Hb2].
  apply Z.ltb_ge in Hb1, Hb2.
  destruct (in_len =? 0); [done |].
  rewrite Hh, Hmax.
  destruct (maxHookDataSize <? in_len) eqn:Hbig; [done |].
  apply Z.ltb_ge in Hbig.
  unfold read_memory.
  assert (Hr1 : (0 <=? key_ptr) && (0 <=? 32) && (key_ptr + 32 <=? memory_length memory) = true).
  { rewrite !andb_true_iff. repeat split; apply Z.leb_le; lia. }
  assert (Hr2 : (0 <=? data_ptr_in) && (0 <=? in_len)
                && (data_ptr_in + in_len <=? memory_length memory) = true).
  { rewrite !andb_true_iff. repeat split; apply Z.leb_le; lia. }
  by rewrite Hr1, Hr2.
Qed.

(** C10.  One page of linear memory (65,536 bytes), [key_ptr =
    4294967280]: [key_ptr + 32] is far beyond the memory length, yet the
    32-bit sum wraps to 16, the bounds test passes, and the call reads
    its key outside the linear memory instead of returning
    [OUT_OF_BOUNDS]. *)
Theorem set_state_key_ptr_wraps :
  memory_length page = 65536 /\
  memory_length page < 4294967280 + 32 /\
  wrap32 (4294967280 + 32) = 16 /\
  set_state 128 hook_ledger (initialContext A) page 4294967280 0 1
    = OutsideLinearMemory.
Proof. by vm_compute. Qed.

(** *** setHookState *)

Lemma peek_hook_set_hook (v : View) (a : AccountID) (h : HookSLE) :
  peek_hook (set_hook v a h) a = Some h.
Proof. unfold peek_hook, set_hook. by rewrite lookup_insert_eq. Qed.

(** Deleting an existing entry stores
    [COMPUTE_HOOK_DATA_OWNER_COUNT(stateCount - 1)] in [sfHookStateCount],
    whatever the macro computes. *)
Lemma setHookState_delete_count (COMPUTE : Z -> Z) (accountReserve : Z -> Z)
    (view view1 : View) (acc : AccountID) (k : Keylet) (sle : AccountRoot)
    (hook : HookSLE) (old : HookStateSLE) :
  peek_account view acc = Some sle ->
  peek_hook view acc = Some hook ->
  0 <= hook_HookDataMaxSize hook ->
  peek_hook_state view k = Some old ->
  dirRemove view (keylet_ownerDir acc) (hs_OwnerNode old) k false = Some view1 ->
  let n := hook_HookStateCount hook in
  let r := setHookState COMPUTE accountReserve view acc k [] in
  fst r = tesSUCCESS /\
  peek_hook (snd r) acc
    = Some (with_HookStateCount hook
              (wrap32 (COMPUTE (if 0 <? n then n - 1 else n)))).
Proof.
  intros Hacc Hhook Hmax Hold Hdir n r. subst r. unfold setHookState.
  rewrite Hacc, Hhook. change (Z.of_nat (length (@nil byte))) with 0.
  destruct (hook_HookDataMaxSize hook <? 0) eqn:E; [apply Z.ltb_lt in E; lia |].
  rewrite Hold. change (0 =? 0) with true. rewrite Hdir. cbn [fst snd].
  split; [done |]. apply peek_hook_set_hook.
Qed.

(** The delete path at work: [A] has a hook whose [sfHookStateCount]
    is 3 and owns three HookState entries; with the allotment macro
    [ceil(n / 5)], deleting one entry leaves two entries and stores 1,
    the allotment of two entries, as the count. *)
Lemma delete_state_stores_allotment_as_count :
  let r := setHookState (allotment 5) reserve hook_ledger3 A
             (keylet_hook_state A 2) [] in
  (hook_HookStateCount <$> peek_hook hook_ledger3 A) = Some 3 /\
  length (ownedHookStates hook_ledger3 A) = 3%nat /\
  fst r = tesSUCCESS /\
  length (ownedHookStates (snd r) A) = 2%nat /\
  (hook_HookStateCount <$> peek_hook (snd r) A) = Some 1.
Proof. by vm_compute. Qed.

(** *** SetHook: bulk state teardown *)

Lemma destroy_loop_accounts (entries : list Keylet) (view : View)
    (owner a : AccountID) :
  peek_account (snd (destroy_loop view (keylet_ownerDir owner) entries)) a
  = peek_account view a.
Proof.
  revert view. induction entries as [| dirEntry rest IH]; intros view; [done |].
  cbn [destroy_loop].
  destruct (view !! dirEntry) as [sleItem |] eqn:Hitem; [| done].
  case_bool_decide as Htype; [| apply IH].
  destruct (dirRemove _ _ _ _ _) as [view1 |] eqn:Hdir; [| done].
  rewrite IH. rewrite <- (peek_account_dirRemove _ _ _ _ _ _ a Hdir).
  unfold peek_account.
  destruct (decide (dirEntry = keylet_account a)) as [-> | Hne].
  - rewrite lookup_delete_eq.
    pose proof (peek_account_dirRemove _ _ _ _ _ _ a Hdir) as Hsame.
    unfold peek_account in Hsame. rewrite Hsame, Hitem.
    by destruct sleItem.
  - by rewrite lookup_delete_ne.
Qed.

(** C5.  A SetHook with empty [createCode] on an account without a
    Hook entry runs the bulk teardown, and the teardown never writes an
    account root: whatever it erases, the owner count of every account,
    the sender's included, is what it was before.  The owner-count
    allotment the erased HookState entries consumed is not given
    back. *)
Theorem teardown_keeps_owner_count (maxHookDataSize : Z)
    (accountReserve : Z -> Z) (view : View) (account_ : AccountID)
    (mPriorBalance hookOn_ : Z) (a : AccountID) :
  peek_hook view account_ = None ->
  peek_account
    (snd (setHook maxHookDataSize accountReserve view account_ mPriorBalance
            [] hookOn_)) a
  = peek_account view a.
Proof.
  intros Hnone. unfold setHook. rewrite Hnone.
  rewrite bool_decide_eq_true_2 by done.
  rewrite (bool_decide_eq_false_2 (is_Some None)) by (by intros [? ?]).
  cbn [negb andb].
  assert (Hd : peek_account (snd (destroyEntireHookState view account_)) a
               = peek_account view a).
  { unfold destroyEntireHookState.
    destruct (dirIsEmpty _ _); [done |].
    destruct (cdirFirst _ _) as [[| e l] |]; try done.
    apply destroy_loop_accounts. }
  by destruct (negb _).
Qed.

Lemma teardown_keeps_owner_count_witness :
  peek_account (snd (setHook 128 reserve orphan_ledger A 5000000 [] 0)) A
  = peek_account orphan_ledger A.
Proof.
  apply (teardown_keeps_owner_count 128 reserve orphan_ledger A 5000000 0 A).
  vm_compute. reflexivity.
Defined.

(** Scenario 6 in full: the three HookState entries cost one
    owner-count unit (granularity 5); the teardown succeeds, erases the
    three entries and the directory root, creates no Hook entry, and
    leaves the owner count at 1. *)
Lemma teardown_scenario :
  let r := setHook 128 reserve orphan_ledger A 5000000 [] 0 in
  allotment 5 (Z.of_nat (length (ownedHookStates orphan_ledger A))) = 1 /\
  (acct_OwnerCount <$> peek_account orphan_ledger A) = Some 1 /\
  fst r = tesSUCCESS /\
  ownedHookStates (snd r) A = [] /\
  snd r !! keylet_hook_state A 1 = None /\
  snd r !! keylet_hook_state A 2 = None /\
  snd r !! keylet_hook_state A 3 = None /\
  peek_hook (snd r) A = None /\
  (acct_OwnerCount <$> peek_account (snd r) A) = Some 1.
Proof. by vm_compute. Qed.

End HookFacts.

(** ** The payment-channel transactors *)

Module PayChanFacts.

Import PayChan Scenarios MoreScenarios.

(** *** PayChanCreate::preclaim *)

(** C2.  An XRP create whose owner holds at least
    [reserve(ownerCount + 1) + amount] does not return [tecUNFUNDED],
    but it does not proceed to the destination checks either: the
    [else] block of the funds test runs for it, and with the tokens
    amendment not enabled that block returns [tecINTERNAL], whatever the
    destination is. *)
Theorem create_xrp_funded_takes_token_branch (env : Env) (view : View)
    (tx : PayChanCreateTx) (sle : AccountRoot) :
  peek_account view (create_Account tx) = Some sle ->
  0 <= acct_OwnerCount sle < UINT32_MAX ->
  isXRP (create_Amount tx) = true ->
  0 < amt_value (create_Amount tx) ->
  fees_accountReserve env (acct_OwnerCount sle + 1)
    + amt_value (create_Amount tx) <= acct_Balance sle ->
  rules_enabled env featurePaychanAndEscrowForTokens = false ->
  PayChanCreate_preclaim env view tx = tecINTERNAL.
Proof.
  intros Hsle Hcount Hxrp Hpos Hfunds Hrule. unfold PayChanCreate_preclaim.
  rewrite Hsle, Hxrp, Hrule.
  rewrite wrap32_small by (unfold UINT32_MAX in Hcount; lia).
  assert (E1 : (acct_Balance sle
                <? fees_accountReserve env (acct_OwnerCount sle + 1)) = false)
    by (apply Z.ltb_ge; lia).
  assert (E2 : (acct_Balance sle
                <? fees_accountReserve env (acct_OwnerCount sle + 1)
                   + amt_value (create_Amount tx)) = false)
    by (apply Z.ltb_ge; lia).
  by rewrite E1, E2.
Qed.

Lemma create_xrp_funded_takes_token_branch_witness :
  PayChanCreate_preclaim (env_at no_amendments 0) accounts create_tx
  = tecINTERNAL.
Proof.
  apply (create_xrp_funded_takes_token_branch (env_at no_amendments 0)
           accounts create_tx (mkAccountRoot 1000000 0 0)).
  - vm_compute. reflexivity.
  - vm_compute. split; [discriminate | reflexivity].
  - reflexivity.
  - vm_compute. reflexivity.
  - vm_compute. discriminate.
  - reflexivity.
Defined.

(** *** closeChannel *)

Lemma peek_account_set_account_balance (v : View) (a a' : AccountID) (bal : Z)
    (r : AccountRoot) :
  peek_account v a' = Some r ->
  exists r', peek_account (set_account_balance v a bal) a' = Some r' /\
             (a' <> a -> r' = r) /\
             (a' = a -> acct_Balance r' = bal).
Proof.
  intros H. unfold set_account_balance.
  destruct (peek_account v a) as [ra |] eqn:Ha.
  - unfold peek_account. destruct (decide (a' = a)) as [-> | Hne].
    + rewrite lookup_insert_eq. eexists. split; [done |]. by split.
    + rewrite lookup_insert_ne by congruence.
      unfold peek_account in H. rewrite H. eexists. by repeat split.
  - exists r. repeat split; [done | congruence].
Qed.

Lemma peek_account_adjustOwnerCount (v : View) (a a' : AccountID) (n : Z)
    (r : AccountRoot) :
  peek_account v a' = Some r ->
  exists r', peek_account (adjustOwnerCount v a n) a' = Some r' /\
             acct_Balance r' = acct_Balance r.
Proof.
  intros H. unfold adjustOwnerCount.
  destruct (peek_account v a) as [ra |] eqn:Ha; [| by exists r].
  unfold peek_account. destruct (decide (a' = a)) as [-> | Hne].
  - rewrite lookup_insert_eq. eexists. split; [done |]. cbn. congruence.
  - rewrite lookup_insert_ne by congruence.
    unfold peek_account in H. rewrite H. by exists r.
Qed.

Lemma peek_account_delete_paychan (v : View) (k : Keylet) (p : PayChanSLE)
    (a : AccountID) (r : AccountRoot) :
  k <> keylet_account a ->
  peek_account v a = Some r ->
  peek_account (delete k v) a = Some r.
Proof. intros Hne H. unfold peek_account. by rewrite lookup_delete_ne. Qed.

Lemma closeDryRun_failure (env : Env) (view : View) (src : AccountID)
    (amount : STAmount) (err : TER) :
  closeDryRun env view src amount = Some err -> err <> tesSUCCESS.
Proof.
  unfold closeDryRun. destruct (negb (isXRP amount)); [| done].
  destruct (negb (rules_enabled env _)); [by intros [= <-] |].
  destruct (negb (isTesSuccess _)) eqn:Hs; [| done].
  intros [= <-]. by apply isTesSuccess_false, negb_true_iff.
Qed.

(** A close that reports success has erased the channel. *)
Lemma closeChannel_success_erases (env : Env) (slep : PayChanSLE) (view : View)
    (key : Keylet) :
  fst (closeChannel env slep view key) = tesSUCCESS ->
  snd (closeChannel env slep view key) !! key = None.
Proof.
  unfold closeChannel.
  destruct (amt_sub _ _) as [amount |]; [| done].
  destruct (closeDryRun _ _ _ _) as [err |] eqn:Hdry.
  { cbn [fst]. intros ->. by apply closeDryRun_failure in Hdry. }
  destruct (dirRemove _ _ _ _ _) as [view1 |]; [| done].
  destruct (removeFromRecipientDir _ _ _ _) as [view2 |]; [| done].
  destruct (peek_account view2 _) as [sle |]; [| done].
  cbv zeta.
  destruct (negb (isTesSuccess (closeRefund _ _ _ _ _).1)) eqn:Hw.
  - intros E. apply negb_true_iff, isTesSuccess_false in Hw. done.
  - intros _. cbn [snd]. apply lookup_delete_eq.
Qed.

Lemma removeFromRecipientDir_accounts (env : Env) (slep : PayChanSLE)
    (v v2 : View) (key : Keylet) (a : AccountID) :
  removeFromRecipientDir env slep v key = Some v2 ->
  peek_account v2 a = peek_account v a.
Proof.
  unfold removeFromRecipientDir.
  destruct (pc_DestinationNode slep) as [page |]; [| by intros [= <-]].
  destruct (rules_enabled env _); [| by intros [= <-]].
  apply peek_account_dirRemove.
Qed.

Lemma paychan_key_is_no_account (v : View) (k : Keylet) (p : PayChanSLE)
    (a : AccountID) (r : AccountRoot) :
  peek_paychan v k = Some p -> peek_account v a = Some r ->
  k <> keylet_account a.
Proof.
  unfold peek_paychan, peek_account. intros Hp Ha ->.
  destruct (v !! keylet_account a) as [[]|]; done.
Qed.

(** Closing a channel held in XRP takes nothing from any account: the
    only balance it writes is the owner's, raised by the refund
    [amount - balance]. *)
Lemma closeChannel_xrp_balances (env : Env) (slep : PayChanSLE) (view : View)
    (key : Keylet) (a : AccountID) (r0 : AccountRoot) :
  peek_paychan view key = Some slep ->
  isXRP (pc_Amount slep) = true -> isXRP (pc_Balance slep) = true ->
  amt_value (pc_Balance slep) <= amt_value (pc_Amount slep) ->
  peek_account view a = Some r0 ->
  exists r', peek_account (snd (closeChannel env slep view key)) a = Some r' /\
             acct_Balance r0 <= acct_Balance r'.
Proof.
  intros Hchan Hxa Hxb Hle Ha. unfold closeChannel.
  assert (Hsub : amt_sub (pc_Amount slep) (pc_Balance slep)
                 = Some (drops (amt_value (pc_Amount slep)
                                - amt_value (pc_Balance slep)))).
  { unfold amt_sub, amt_add, amt_neg, areComparable, isXRP, drops in *.
    cbn [amt_issue amt_value].
    destruct (amt_issue (pc_Amount slep)); [| done].
    destruct (amt_issue (pc_Balance slep)); [| done].
    reflexivity. }
  rewrite Hsub. unfold closeDryRun. cbn [isXRP drops amt_issue negb].
  destruct (dirRemove _ _ _ _ _) as [view1 |] eqn:Hd1; [| by exists r0].
  pose proof (peek_account_dirRemove _ _ _ _ _ _ a Hd1) as H1.
  destruct (removeFromRecipientDir _ _ _ _) as [view2 |] eqn:Hd2.
  2: { exists r0. cbn [snd]. by rewrite H1. }
  pose proof (removeFromRecipientDir_accounts _ _ _ _ _ a Hd2) as H2.
  assert (Ha2 : peek_account view2 a = Some r0) by congruence.
  destruct (peek_account view2 (pc_Account slep)) as [sle |] eqn:Hsrc.
  2: { by exists r0. }
  unfold closeRefund. cbn [isXRP drops amt_issue amt_value fst snd].
  cbn [isTesSuccess TER_eqb negb].
  destruct (peek_account_set_account_balance view2 (pc_Account slep) a
              (acct_Balance sle + (amt_value (pc_Amount slep)
                                   - amt_value (pc_Balance slep))) r0 Ha2)
    as (r1 & Hr1 & Hother & Hsame).
  destruct (peek_account_adjustOwnerCount _ (pc_Account slep) a (-1) r1 Hr1)
    as (r2 & Hr2 & Hbal).
  exists r2. split.
  - apply (peek_account_delete_paychan _ _ slep); [| done].
    by eapply paychan_key_is_no_account.
  - rewrite Hbal. destruct (decide (a = pc_Account slep)) as [-> | Hne].
    + rewrite Hsame by done. assert (sle = r0) by congruence. subst. lia.
    + rewrite Hother by done. lia.
Qed.

(** *** PayChanFund::doApply *)

(** C6.  The dry run that [PayChanFund::doApply] makes for an issued
    amount comes before the expiry test and returns on failure: a fund
    in an issued currency whose dry run fails returns that status and
    leaves the view as it was, so a channel whose [cancelAfter] or
    [expiration] has elapsed is not closed by it and is still in the
    ledger. *)
Theorem fund_token_dry_run_precedes_expiry (env : Env) (view : View)
    (tx : PayChanFundTx) (slep : PayChanSLE) (ter : TER) :
  peek_paychan view (fund_Channel tx) = Some slep ->
  isXRP (fund_Amount tx) = false ->
  rules_enabled env featurePaychanAndEscrowForTokens = true ->
  trustAdjustLockedBalance_dry env view
    (keylet_line (pc_Account slep) (amt_issuer (fund_Amount tx))
       (amt_currency (fund_Amount tx)))
    (fund_Amount tx) 1 = ter ->
  ter <> tesSUCCESS ->
  elapsed (info_parentCloseTime env) (pc_CancelAfter slep) = true
  \/ elapsed (info_parentCloseTime env) (pc_Expiration slep) = true ->
  PayChanFund_doApply env view tx = (ter, view) /\
  peek_paychan (snd (PayChanFund_doApply env view tx)) (fund_Channel tx)
  = Some slep.
Proof.
  intros Hchan Hx Hrule Hdry Hter _.
  assert (Hr : PayChanFund_doApply env view tx = (ter, view)).
  { unfold PayChanFund_doApply. rewrite Hchan. cbv zeta.
    rewrite Hx, Hrule. cbn [negb andb]. rewrite Hdry.
    apply isTesSuccess_false in Hter. by rewrite Hter. }
  by rewrite Hr.
Qed.

Lemma fund_token_dry_run_precedes_expiry_witness :
  PayChanFund_doApply (env_at tokens_enabled 2000)
    (ledger_with (channel (Some 1000))) fund_iou_tx
  = (tecNO_LINE, ledger_with (channel (Some 1000))) /\
  peek_paychan
    (snd (PayChanFund_doApply (env_at tokens_enabled 2000)
            (ledger_with (channel (Some 1000))) fund_iou_tx)) K
  = Some (channel (Some 1000)).
Proof.
  apply (fund_token_dry_run_precedes_expiry (env_at tokens_enabled 2000)
           (ledger_with (channel (Some 1000))) fund_iou_tx
           (channel (Some 1000)) tecNO_LINE).
  - vm_compute. reflexivity.
  - reflexivity.
  - reflexivity.
  - vm_compute. reflexivity.
  - discriminate.
  - left. vm_compute. reflexivity.
Defined.

(** With the expiry test reached (the amount is XRP, the tokens
    amendment is off, or the dry run passed), a fund on a channel whose
    [cancelAfter] or [expiration] has elapsed is [closeChannel]. *)
Lemma fund_after_expiry_is_close (env : Env) (view : View)
    (tx : PayChanFundTx) (slep : PayChanSLE) :
  peek_paychan view (fund_Channel tx) = Some slep ->
  (isXRP (fund_Amount tx) = false ->
   rules_enabled env featurePaychanAndEscrowForTokens = true ->
   trustAdjustLockedBalance_dry env view
     (keylet_line (pc_Account slep) (amt_issuer (fund_Amount tx))
        (amt_currency (fund_Amount tx)))
     (fund_Amount tx) 1 = tesSUCCESS) ->
  elapsed (info_parentCloseTime env) (pc_CancelAfter slep) = true
  \/ elapsed (info_parentCloseTime env) (pc_Expiration slep) = true ->
  PayChanFund_doApply env view tx
  = closeChannel env slep view (fund_Channel tx).
Proof.
  intros Hchan Hdry Helapsed.
  unfold PayChanFund_doApply. rewrite Hchan.
  assert (Hd :
    (if negb (isXRP (fund_Amount tx))
        && rules_enabled env featurePaychanAndEscrowForTokens
     then trustAdjustLockedBalance_dry env view
            (keylet_line (pc_Account slep) (amt_issuer (fund_Amount tx))
               (amt_currency (fund_Amount tx)))
            (fund_Amount tx) 1
     else tesSUCCESS) = tesSUCCESS).
  { destruct (isXRP (fund_Amount tx)); [done |].
    destruct (rules_enabled env _); [| done]. by apply Hdry. }
  cbv zeta. rewrite Hd. cbn [isTesSuccess TER_eqb negb].
  assert (He : elapsed (info_parentCloseTime env) (pc_CancelAfter slep)
               || elapsed (info_parentCloseTime env) (pc_Expiration slep)
               = true).
  { apply orb_true_iff. tauto. }
  by rewrite He.
Qed.

(** The same fund seen on the ledger: sent by the stranger [S], it
    erases the channel, returns the 100,000 drops to the owner and
    leaves [S]'s balance alone. *)
Lemma fund_after_cancel_scenario :
  let r := PayChanFund_doApply (env_at no_amendments 2000)
             (ledger_with (channel (Some 1000))) fund_xrp_tx in
  fst r = tesSUCCESS /\
  snd r !! K = None /\
  peek_account (snd r) O = Some (mkAccountRoot 1000000 0 0) /\
  peek_account (snd r) S = peek_account (ledger_with (channel (Some 1000))) S.
Proof. by vm_compute. Qed.

Lemma peek_paychan_set_paychan (v : View) (k : Keylet) (p : PayChanSLE) :
  peek_paychan (set_paychan v k p) k = Some p.
Proof. unfold peek_paychan, set_paychan. by rewrite lookup_insert_eq. Qed.

Lemma peek_paychan_set_account_balance (v : View) (k : Keylet)
    (p : PayChanSLE) (a : AccountID) (bal : Z) :
  peek_paychan v k = Some p ->
  peek_paychan (set_account_balance v a bal) k = Some p.
Proof.
  intros Hp. unfold set_account_balance.
  destruct (peek_account v a) as [r |] eqn:Ha; [| done].
  pose proof (paychan_key_is_no_account _ _ _ _ _ Hp Ha) as Hne.
  unfold peek_paychan. rewrite lookup_insert_ne by congruence. exact Hp.
Qed.

(** Once the expiration is written to the channel, the rest of the
    fund does not touch it: it is still there when the fund is in XRP,
    failed or not, and when the fund succeeds. *)
Lemma fund_tail_keeps_expiration (env : Env) (view : View) (tx : PayChanFundTx)
    (k : Keylet) (slep : PayChanSLE) (sleLine : Keylet) :
  peek_paychan view k = Some slep ->
  isXRP (fund_Amount tx) = true
  \/ fst (fund_tail env view tx k slep sleLine) = tesSUCCESS ->
  pc_Expiration <$> peek_paychan (snd (fund_tail env view tx k slep sleLine)) k
  = Some (pc_Expiration slep).
Proof.
  intros Hp. unfold fund_tail.
  assert (Hsame : pc_Expiration <$> peek_paychan view k
                  = Some (pc_Expiration slep)) by (by rewrite Hp).
  destruct (peek_account view (fund_Account tx)) as [sle |]; [| done].
  destruct (negb (view_exists _ _)); [done |].
  destruct (acct_Balance sle <? _); [done |].
  destruct (isXRP (fund_Amount tx)) eqn:Hx.
  - intros _.
    destruct (acct_Balance sle <? _); [done |].
    cbn [fst snd isTesSuccess TER_eqb negb].
    destruct (amt_add _ _) as [total |]; cbn [snd].
    + by rewrite peek_paychan_set_paychan.
    + by rewrite (peek_paychan_set_account_balance _ _ slep).
  - destruct (negb (rules_enabled env _)); [done |].
    destruct (negb (isTesSuccess (trustAdjustLockedBalance _ _ _ _ _ _).1))
      eqn:Hw.
    + cbn [fst snd isTesSuccess TER_eqb negb]. by intros [? | ?].
    + rewrite Hw. destruct (amt_add _ _) as [total |]; cbn [fst snd].
      * intros _. by rewrite peek_paychan_set_paychan.
      * by intros [? | ?].
Qed.

(** C8.  The floor of a supplied Expiration is a 32-bit sum.  A
    PayChanFund that supplies an Expiration and gets as far as the
    expiration step (the channel exists and has not elapsed, the sender
    owns it, a dry run made for an issued amount passed) fails with
    [temBAD_EXPIRATION], the view untouched, when the supplied value is
    below [(parentCloseTime + settleDelay) mod 2^32], or below the
    channel's current expiration when that is earlier; otherwise the
    supplied value is stored.  When the sum passes [2^32] the floor
    wraps, and an Expiration below [parentCloseTime + settleDelay] is
    accepted and stored. *)
Theorem fund_expiration_floor (env : Env) (view : View) (tx : PayChanFundTx)
    (slep : PayChanSLE) (extend : Z) :
  peek_paychan view (fund_Channel tx) = Some slep ->
  (isXRP (fund_Amount tx) = false ->
   rules_enabled env featurePaychanAndEscrowForTokens = true ->
   trustAdjustLockedBalance_dry env view
     (keylet_line (pc_Account slep) (amt_issuer (fund_Amount tx))
        (amt_currency (fund_Amount tx)))
     (fund_Amount tx) 1 = tesSUCCESS) ->
  elapsed (info_parentCloseTime env) (pc_CancelAfter slep) = false ->
  elapsed (info_parentCloseTime env) (pc_Expiration slep) = false ->
  pc_Account slep = fund_Account tx ->
  fund_Expiration tx = Some extend ->
  let sum32 := (info_parentCloseTime env + pc_SettleDelay slep) mod 2 ^ 32 in
  let floor :=
    match pc_Expiration slep with
    | Some e => Z.min e sum32
    | None => sum32
    end in
  let r := PayChanFund_doApply env view tx in
  (extend < floor -> r = (temBAD_EXPIRATION, view)) /\
  (floor <= extend ->
   isXRP (fund_Amount tx) = true \/ fst r = tesSUCCESS ->
   pc_Expiration <$> peek_paychan (snd r) (fund_Channel tx)
   = Some (Some extend)).
Proof.
  intros Hchan Hdry Hc He Hown Hext sum32 floor r.
  assert (Hfloor : minExpiration (info_parentCloseTime env)
                     (pc_SettleDelay slep) (pc_Expiration slep) = floor).
  { unfold minExpiration, floor, sum32, wrap32.
    destruct (pc_Expiration slep) as [e |]; [| done].
    destruct (e <? _) eqn:E; [apply Z.ltb_lt in E | apply Z.ltb_ge in E]; lia. }
  assert (Hd :
    (if negb (isXRP (fund_Amount tx))
        && rules_enabled env featurePaychanAndEscrowForTokens
     then trustAdjustLockedBalance_dry env view
            (keylet_line (pc_Account slep) (amt_issuer (fund_Amount tx))
               (amt_currency (fund_Amount tx)))
            (fund_Amount tx) 1
     else tesSUCCESS) = tesSUCCESS).
  { destruct (isXRP (fund_Amount tx)); [done |].
    destruct (rules_enabled env _); [| done]. by apply Hdry. }
  assert (Hr : r = if extend <? floor then (temBAD_EXPIRATION, view)
                   else fund_tail env
                          (set_paychan view (fund_Channel tx)
                             (with_Expiration slep (Some extend)))
                          tx (fund_Channel tx)
                          (with_Expiration slep (Some extend))
                          (keylet_line (pc_Account slep)
                             (amt_issuer (fund_Amount tx))
                             (amt_currency (fund_Amount tx)))).
  { subst r. unfold PayChanFund_doApply. rewrite Hchan. cbv zeta.
    rewrite Hd, Hc, He, Hext, Hfloor, Hown, Z.eqb_refl. done. }
  rewrite Hr. split.
  - intros Hlt. apply Z.ltb_lt in Hlt. by rewrite Hlt.
  - intros Hge. apply Z.ltb_ge in Hge. rewrite Hge. intros Hok.
    rewrite fund_tail_keeps_expiration; [done | | done].
    apply peek_paychan_set_paychan.
Qed.

Lemma fund_expiration_floor_witness :
  2500 < 2000 + pc_SettleDelay long_delay_channel /\
  fst (PayChanFund_doApply (env_at no_amendments 2000)
         (ledger_with long_delay_channel) (fund_extend_tx 2500))
  = tesSUCCESS /\
  pc_Expiration
    <$> peek_paychan
          (snd (PayChanFund_doApply (env_at no_amendments 2000)
                  (ledger_with long_delay_channel) (fund_extend_tx 2500))) K
  = Some (Some 2500).
Proof.
  split; [vm_compute; reflexivity |]. split; [vm_compute; reflexivity |].
  apply (fund_expiration_floor (env_at no_amendments 2000)
           (ledger_with long_delay_channel) (fund_extend_tx 2500)
           long_delay_channel 2500).
  - vm_compute. reflexivity.
  - vm_compute. discriminate.
  - reflexivity.
  - reflexivity.
  - reflexivity.
  - reflexivity.
  - vm_compute. discriminate.
  - left. reflexivity.
Defined.

(** Below the floor, without overflow: at close time 2000 with a
    settle delay of 86,400 an Expiration of 88,399 is refused. *)
Lemma fund_below_floor_scenario :
  PayChanFund_doApply (env_at no_amendments 2000) (ledger_with (channel None))
    (fund_extend_tx 88399)
  = (temBAD_EXPIRATION, ledger_with (channel None)).
Proof. by vm_compute. Qed.

(** At the floor itself the fund goes through and the value is
    stored. *)
Lemma fund_extend_scenario :
  let r := PayChanFund_doApply (env_at no_amendments 2000)
             (ledger_with (channel None)) (fund_extend_tx 88400) in
  fst r = tesSUCCESS /\
  (pc_Expiration <$> peek_paychan (snd r) K) = Some (Some 88400) /\
  (pc_Amount <$> peek_paychan (snd r) K) = Some (drops 150000).
Proof. by vm_compute. Qed.

(** *** PayChanClaim::doApply *)

(** Every early return of the Balance block is a failure. *)
Lemma claim_balance_block_returns_failure (env : Env) (view : View)
    (tx : PayChanClaimTx) (k : Keylet) (slep : PayChanSLE) (b : STAmount)
    (ret : TER * View) :
  claim_balance_block env view tx k slep b = inl ret -> fst ret <> tesSUCCESS.
Proof.
  unfold claim_balance_block.
  destruct (claim_signer tx slep) as [err |] eqn:Hsig.
  { intros [= <-]. cbn [fst]. intros ->. unfold claim_signer in Hsig.
    repeat case_match; simplify_eq. }
  repeat case_match; intros [= <-]; simplify_eq; try done;
    cbn [fst]; by apply isTesSuccess_false, negb_true_iff.
Qed.

(** The Balance block lets a claim through only inside the range. *)
Lemma claim_balance_block_passes_in_range (env : Env) (view : View)
    (tx : PayChanClaimTx) (k : Keylet) (slep : PayChanSLE) (b : STAmount)
    (go : View * PayChanSLE) :
  claim_balance_block env view tx k slep b = inr go ->
  amt_value (pc_Balance slep) < amt_value b <= amt_value (pc_Amount slep).
Proof.
  unfold claim_balance_block.
  destruct (claim_signer tx slep); [done |].
  destruct (amt_ltb (pc_Amount slep) b) as [[] |] eqn:Hhi; try done.
  destruct (amt_leb b (pc_Balance slep)) as [[] |] eqn:Hlo; try done.
  intros _. unfold amt_ltb, amt_leb in *.
  destruct (areComparable (pc_Amount slep) b); [| done].
  destruct (areComparable b (pc_Balance slep)); [| done].
  injection Hhi as Hhi. injection Hlo as Hlo.
  apply Z.ltb_ge in Hhi. apply Z.leb_gt in Hlo. lia.
Qed.

(** An authorised claim in the channel's currency and outside the
    range leaves the Balance block with [tecUNFUNDED_PAYMENT]. *)
Lemma claim_balance_block_out_of_range (env : Env) (view : View)
    (tx : PayChanClaimTx) (k : Keylet) (slep : PayChanSLE) (b : STAmount) :
  (claim_Account tx = pc_Destination slep -> is_Some (claim_Signature tx)) ->
  (is_Some (claim_Signature tx) ->
   claim_PublicKey tx = Some (pc_PublicKey slep)) ->
  areComparable (pc_Amount slep) b = true ->
  areComparable b (pc_Balance slep) = true ->
  amt_value b <= amt_value (pc_Balance slep)
  \/ amt_value (pc_Amount slep) < amt_value b ->
  claim_balance_block env view tx k slep b = inl (tecUNFUNDED_PAYMENT, view).
Proof.
  intros Hsig Hpk Hc1 Hc2 Hrange. unfold claim_balance_block.
  assert (H2 : claim_signer tx slep = None).
  { unfold claim_signer.
    destruct (claim_Account tx =? pc_Destination slep) eqn:E.
    - apply Z.eqb_eq in E. destruct (Hsig E) as [sig Hs].
      rewrite Hs in *. rewrite bool_decide_eq_true_2 by eauto. cbn.
      rewrite Hpk by eauto. by rewrite bool_decide_eq_true_2.
    - cbn. destruct (claim_Signature tx) as [sig |] eqn:Hs; [| done].
      rewrite Hpk by eauto. by rewrite bool_decide_eq_true_2. }
  rewrite H2. unfold amt_ltb, amt_leb. rewrite Hc1, Hc2.
  destruct (amt_value (pc_Amount slep) <? amt_value b) eqn:Ehi; [done |].
  apply Z.ltb_ge in Ehi.
  assert (Elo : (amt_value b <=? amt_value (pc_Balance slep)) = true)
    by (apply Z.leb_le; lia).
  by rewrite Elo.
Qed.

(** C7.  A PayChanClaim that carries a Balance, against a channel that
    is open (neither [cancelAfter] nor [expiration] has elapsed): when
    the claim gets as far as the range test (the sender is the owner or
    the destination, the destination brings a signature, a signature
    comes with the channel's public key, the Balance is in the channel's
    currency) and the requested balance is at most the channel's
    balance or above its amount, the transaction returns
    [tecUNFUNDED_PAYMENT] and the view, the channel's balance included,
    is unchanged.  A claim succeeds only when [chanBalance < balance <=
    chanAmount]. *)
Theorem claim_balance_range (env : Env) (view : View) (tx : PayChanClaimTx)
    (slep : PayChanSLE) (b : STAmount) :
  peek_paychan view (claim_Channel tx) = Some slep ->
  elapsed (info_parentCloseTime env) (pc_CancelAfter slep) = false ->
  elapsed (info_parentCloseTime env) (pc_Expiration slep) = false ->
  claim_Balance tx = Some b ->
  let r := PayChanClaim_doApply env view tx in
  ((claim_Account tx = pc_Account slep
    \/ claim_Account tx = pc_Destination slep) ->
   (claim_Account tx = pc_Destination slep -> is_Some (claim_Signature tx)) ->
   (is_Some (claim_Signature tx) ->
    claim_PublicKey tx = Some (pc_PublicKey slep)) ->
   areComparable (pc_Amount slep) b = true ->
   areComparable b (pc_Balance slep) = true ->
   amt_value b <= amt_value (pc_Balance slep)
   \/ amt_value (pc_Amount slep) < amt_value b ->
   r = (tecUNFUNDED_PAYMENT, view)) /\
  (fst r = tesSUCCESS ->
   amt_value (pc_Balance slep) < amt_value b <= amt_value (pc_Amount slep)).
Proof.
  intros Hchan Hc He Hbal r. subst r. unfold PayChanClaim_doApply.
  rewrite Hchan. cbv zeta. rewrite Hc, He, Hbal. cbn [orb].
  split.
  - intros Hcaller Hsig Hpk Hc1 Hc2 Hrange.
    assert (Hperm : negb (claim_Account tx =? pc_Account slep)
                    && negb (claim_Account tx =? pc_Destination slep) = false).
    { destruct Hcaller as [-> | ->]; rewrite Z.eqb_refl; cbn;
        by rewrite ?andb_false_r. }
    rewrite Hperm.
    by rewrite claim_balance_block_out_of_range.
  - destruct (_ && _); [done |].
    destruct (claim_balance_block _ _ _ _ _ _) as [ret | go] eqn:Hblock.
    + intros Hok. by apply claim_balance_block_returns_failure in Hblock.
    + intros _. by apply claim_balance_block_passes_in_range in Hblock.
Qed.

Lemma claim_balance_range_witness :
  PayChanClaim_doApply (env_at no_amendments 2000) (ledger_with (channel None))
    overclaim_tx
  = (tecUNFUNDED_PAYMENT, ledger_with (channel None)).
Proof.
  apply (claim_balance_range (env_at no_amendments 2000)
           (ledger_with (channel None)) overclaim_tx (channel None)
           (drops 150000)).
  - vm_compute. reflexivity.
  - reflexivity.
  - reflexivity.
  - reflexivity.
  - right. reflexivity.
  - intros _. by eexists.
  - intros _. reflexivity.
  - reflexivity.
  - reflexivity.
  - right. vm_compute. reflexivity.
Defined.

(** Inside the range the same claim goes through: the channel's
    balance becomes 40,000 and the destination is credited. *)
Lemma claim_scenario :
  let r := PayChanClaim_doApply (env_at no_amendments 2000)
             (ledger_with (channel None)) claim_tx in
  fst r = tesSUCCESS /\
  (pc_Balance <$> peek_paychan (snd r) K) = Some (drops 40000) /\
  (acct_Balance <$> peek_account (snd r) D) = Some 540000.
Proof. by vm_compute. Qed.

(** *** PayChanClaim::preflight *)

(** With the Amount field absent, the amount the signature is checked
    against is read through the empty optional: it is the Balance only
    when the storage read there holds a zero amount. *)
Lemma check_signature_amount_absent (publicKeyType : Blob -> bool)
    (verify : Blob -> list SerField -> Blob -> bool -> bool)
    (storage : STAmount) (tx : PayChanClaimTx) (sig pk : Blob)
    (reqBalance : STAmount) :
  claim_Amount tx = None ->
  claim_PublicKey tx = Some pk ->
  claim_Balance tx = Some reqBalance ->
  let authAmt := if amt_nonzero storage then storage else reqBalance in
  amt_ltb authAmt reqBalance = Some false ->
  publicKeyType pk = true ->
  check_signature publicKeyType verify storage tx sig
  = if verify pk (serializePayChanAuthorization (claim_Channel tx) authAmt)
         sig true
    then None else Some temBAD_SIGNATURE.
Proof.
  intros Hamt Hpk Hbal authAmt Hle Hkey. unfold check_signature.
  rewrite Hamt, Hpk, Hbal. cbn [deref]. fold authAmt.
  rewrite Hle, Hkey. cbn [negb].
  by destruct (verify _ _ _ _).
Qed.

(** C9.  The claim carries Signature, PublicKey and Balance = 40,000
    drops and no Amount; the storage that [*amt] reads holds 100,000
    drops.  Preflight then builds and verifies the message
    ["CLM\0"], channel, 100,000: the authorized amount is the stale
    value, not the Balance, and a signature over ["CLM\0"], channel,
    40,000 is checked against the wrong message. *)
Theorem claim_preflight_amount_from_storage
    (preflight1 preflight2 : PayChanClaimTx -> TER)
    (publicKeyType : Blob -> bool)
    (verify : Blob -> list SerField -> Blob -> bool -> bool)
    (tfPayChanClaimMask : Z) (rules : Feature -> bool) :
  PayChanClaim_preflight preflight1 preflight2 publicKeyType verify
    tfPayChanClaimMask rules (drops 100000) claim_tx
  = if negb (isTesSuccess (preflight1 claim_tx)) then preflight1 claim_tx
    else if rules fix1543 && has_flag 0 tfPayChanClaimMask
    then temINVALID_FLAG
    else if negb (publicKeyType PKa) then temMALFORMED
    else if negb (verify PKa
                    [ser_prefix HashPrefix_paymentChannelClaim; ser_u256 K;
                     ser_u64 100000] SIGa true)
    then temBAD_SIGNATURE
    else preflight2 claim_tx.
Proof.
  unfold PayChanClaim_preflight, check_signature, claim_tx.
  cbn [claim_Balance claim_Amount claim_Signature claim_PublicKey claim_Flags
       claim_Channel bad_amount deref].
  destruct (negb (isTesSuccess (preflight1 _))); [done |].
  change (isXRP (drops 40000)) with true.
  change (amt_value (drops 40000) <=? 0) with false.
  cbn [negb andb orb].
  destruct (rules fix1543 && has_flag 0 tfPayChanClaimMask); [done |].
  change (has_flag 0 tfClose && has_flag 0 tfRenew) with false. cbv iota.
  change (amt_nonzero (drops 100000)) with true. cbv iota.
  change (amt_ltb (drops 100000) (drops 40000)) with (Some false). cbv iota.
  destruct (negb (publicKeyType PKa)); [done |].
  change (serializePayChanAuthorization K (drops 100000))
    with [ser_prefix HashPrefix_paymentChannelClaim; ser_u256 K; ser_u64 100000].
  by destruct (negb (verify _ _ _ _)).
Qed.

(** The same claim when the storage happens to hold zero: only then is
    the Balance the authorized amount. *)
Lemma claim_preflight_amount_zero_storage
    (publicKeyType : Blob -> bool)
    (verify : Blob -> list SerField -> Blob -> bool -> bool) :
  publicKeyType PKa = true ->
  check_signature publicKeyType verify (drops 0) claim_tx SIGa
  = if verify PKa
         [ser_prefix HashPrefix_paymentChannelClaim; ser_u256 K; ser_u64 40000]
         SIGa true
    then None else Some temBAD_SIGNATURE.
Proof.
  intros Hkey.
  by rewrite (check_signature_amount_absent publicKeyType verify (drops 0)
                claim_tx SIGa PKa (drops 40000)).
Qed.

End PayChanFacts.

(** ** Further properties of the payment-channel transactors *)

Module PayChanProps.

Import PayChan PayChanTx Scenarios MoreScenarios.

(** *** Preflight *)

Lemma token_amount_check_passes (rules : Feature -> bool)
    (isLegalNet isFakeXRP : STAmount -> bool) (account : AccountID)
    (amount : STAmount) :
  token_amount_check rules isLegalNet isFakeXRP account amount = None ->
  isXRP amount = false ->
  rules featurePaychanAndEscrowForTokens = true /\
  isLegalNet amount = true /\ isFakeXRP amount = false /\
  account <> amt_issuer amount.
Proof.
  unfold token_amount_check. intros H Hx. rewrite Hx in H. cbn [negb] in H.
  destruct (rules _); [| done]. cbn [negb] in H.
  destruct (isLegalNet amount); [| done]. cbn [negb] in H.
  destruct (isFakeXRP amount); [done |].
  destruct (account =? amt_issuer amount) eqn:E; [done |].
  by apply Z.eqb_neq in E.
Qed.

(** A PayChanCreate that passes preflight has a positive amount, a
    destination other than the sender and a public key of a known type;
    if the amount is not XRP, the tokens amendment is enabled, the
    amount is legal, its currency is not a fake XRP and the sender is
    not its issuer; under fix1543 no bit of the universal mask is
    set. *)
Theorem create_preflight_success
    (preflight1 preflight2 : PayChanCreateTx -> TER)
    (publicKeyType : Blob -> bool) (isLegalNet isFakeXRP : STAmount -> bool)
    (tfUniversalMask : Z) (rules : Feature -> bool) (flags : Z)
    (tx : PayChanCreateTx) :
  PayChanCreate_preflight preflight1 preflight2 publicKeyType isLegalNet
    isFakeXRP tfUniversalMask rules flags tx = tesSUCCESS ->
  0 < amt_value (create_Amount tx) /\
  create_Account tx <> create_Destination tx /\
  publicKeyType (create_PublicKey tx) = true /\
  (rules fix1543 = true -> has_flag flags tfUniversalMask = false) /\
  (isXRP (create_Amount tx) = false ->
   rules featurePaychanAndEscrowForTokens = true /\
   isLegalNet (create_Amount tx) = true /\
   isFakeXRP (create_Amount tx) = false /\
   create_Account tx <> amt_issuer (create_Amount tx)).
Proof.
  unfold PayChanCreate_preflight.
  destruct (rules fix1543 && has_flag flags tfUniversalMask) eqn:Hmask; [done |].
  destruct (negb (isTesSuccess (preflight1 tx))) eqn:H1.
  { intros E. rewrite E in H1. done. }
  destruct (token_amount_check _ _ _ _ _) as [err |] eqn:Htok.
  { intros ->. unfold token_amount_check in Htok.
    repeat case_match; simplify_eq. }
  destruct (amt_value (create_Amount tx) <=? 0) eqn:Hpos; [done |].
  destruct (create_Account tx =? create_Destination tx) eqn:Hdst; [done |].
  destruct (negb (publicKeyType (create_PublicKey tx))) eqn:Hpk; [done |].
  intros _. apply Z.leb_gt in Hpos. apply Z.eqb_neq in Hdst.
  apply negb_false_iff in Hpk.
  split; [done |]. split; [done |]. split; [done |]. split.
  - intros Hfix. rewrite Hfix in Hmask. done.
  - intros Hx. by eapply token_amount_check_passes.
Qed.

Lemma create_preflight_success_witness :
  0 < amt_value (create_Amount create_tx) /\
  create_Account create_tx <> create_Destination create_tx /\
  (fun _ : Blob => true) (create_PublicKey create_tx) = true /\
  (no_amendments fix1543 = true -> has_flag 0 0x7fffffff = false) /\
  (isXRP (create_Amount create_tx) = false ->
   no_amendments featurePaychanAndEscrowForTokens = true /\
   (fun _ : STAmount => true) (create_Amount create_tx) = true /\
   (fun _ : STAmount => false) (create_Amount create_tx) = false /\
   create_Account create_tx <> amt_issuer (create_Amount create_tx)).
Proof.
  apply (create_preflight_success (fun _ => tesSUCCESS) (fun _ => tesSUCCESS)
           (fun _ => true) (fun _ => true) (fun _ => false) 0x7fffffff
           no_amendments 0 create_tx).
  vm_compute. reflexivity.
Defined.

(** A PayChanFund that passes preflight has a positive amount; if the
    amount is not XRP, the tokens amendment is enabled, the amount is
    legal, its currency is not a fake XRP and the sender is not its
    issuer. *)
Theorem fund_preflight_success
    (preflight1 preflight2 : PayChanFundTx -> TER)
    (isLegalNet isFakeXRP : STAmount -> bool)
    (tfUniversalMask : Z) (rules : Feature -> bool) (flags : Z)
    (tx : PayChanFundTx) :
  PayChanFund_preflight preflight1 preflight2 isLegalNet isFakeXRP
    tfUniversalMask rules flags tx = tesSUCCESS ->
  0 < amt_value (fund_Amount tx) /\
  (rules fix1543 = true -> has_flag flags tfUniversalMask = false) /\
  (isXRP (fund_Amount tx) = false ->
   rules featurePaychanAndEscrowForTokens = true /\
   isLegalNet (fund_Amount tx) = true /\
   isFakeXRP (fund_Amount tx) = false /\
   fund_Account tx <> amt_issuer (fund_Amount tx)).
Proof.
  unfold PayChanFund_preflight.
  destruct (rules fix1543 && has_flag flags tfUniversalMask) eqn:Hmask; [done |].
  destruct (negb (isTesSuccess (preflight1 tx))) eqn:H1.
  { intros E. rewrite E in H1. done. }
  destruct (token_amount_check _ _ _ _ _) as [err |] eqn:Htok.
  { intros ->. unfold token_amount_check in Htok.
    repeat case_match; simplify_eq. }
  destruct (amt_value (fund_Amount tx) <=? 0) eqn:Hpos; [done |].
  intros _. apply Z.leb_gt in Hpos. split; [done |]. split.
  - intros Hfix. rewrite Hfix in Hmask. done.
  - intros Hx. by eapply token_amount_check_passes.
Qed.

Lemma fund_preflight_success_witness :
  0 < amt_value (fund_Amount fund_xrp_tx) /\
  (no_amendments fix1543 = true -> has_flag 0 0x7fffffff = false) /\
  (isXRP (fund_Amount fund_xrp_tx) = false ->
   no_amendments featurePaychanAndEscrowForTokens = true /\
   (fun _ : STAmount => true) (fund_Amount fund_xrp_tx) = true /\
   (fun _ : STAmount => false) (fund_Amount fund_xrp_tx) = false /\
   fund_Account fund_xrp_tx <> amt_issuer (fund_Amount fund_xrp_tx)).
Proof.
  apply (fund_preflight_success (fun _ => tesSUCCESS) (fun _ => tesSUCCESS)
           (fun _ => true) (fun _ => false) 0x7fffffff no_amendments 0
           fund_xrp_tx).
  vm_compute. reflexivity.
Defined.

(** *** PayChanCreate::preclaim *)

(** The order of the funds tests in preclaim: a balance below
    [accountReserve(ownerCount + 1)] is [tecINSUFFICIENT_RESERVE]
    whatever the amount; an XRP amount that the balance covers the
    reserve but not reserve plus amount is [tecUNFUNDED]. *)
Theorem create_preclaim_funds (env : Env) (view : View) (tx : PayChanCreateTx)
    (sle : AccountRoot) :
  peek_account view (create_Account tx) = Some sle ->
  let reserve := fees_accountReserve env (wrap32 (acct_OwnerCount sle + 1)) in
  (acct_Balance sle < reserve ->
   PayChanCreate_preclaim env view tx = tecINSUFFICIENT_RESERVE) /\
  (reserve <= acct_Balance sle ->
   isXRP (create_Amount tx) = true ->
   acct_Balance sle < reserve + amt_value (create_Amount tx) ->
   PayChanCreate_preclaim env view tx = tecUNFUNDED).
Proof.
  intros Hsle reserve. unfold PayChanCreate_preclaim. rewrite Hsle.
  fold reserve. split.
  - intros Hlt. apply Z.ltb_lt in Hlt. by rewrite Hlt.
  - intros Hge Hx Hlt. apply Z.ltb_ge in Hge. apply Z.ltb_lt in Hlt.
    by rewrite Hge, Hx, Hlt.
Qed.

Lemma create_preclaim_funds_witness :
  PayChanCreate_preclaim (env_at no_amendments 0) accounts
    (mkCreateTx O D (drops 900000) 86400 PKa None None None 1)
  = tecUNFUNDED.
Proof.
  apply (create_preclaim_funds (env_at no_amendments 0) accounts
           (mkCreateTx O D (drops 900000) 86400 PKa None None None 1)
           (mkAccountRoot 1000000 0 0)).
  - vm_compute. reflexivity.
  - vm_compute. discriminate.
  - reflexivity.
  - vm_compute. reflexivity.
Defined.

(** What a successful preclaim has established: the sender exists and
    meets the reserve for one more owned entry, the tokens amendment is
    enabled (the token checks are run for XRP too), the trust-line
    engine allows the transfer and its dry run locks the amount, the
    destination exists, it has a destination tag if it requires one,
    and it does not disallow XRP unless DepositAuth is enabled; an XRP
    amount is covered on top of the reserve. *)
Theorem create_preclaim_success (env : Env) (view : View) (tx : PayChanCreateTx) :
  PayChanCreate_preclaim env view tx = tesSUCCESS ->
  exists sle sled,
    peek_account view (create_Account tx) = Some sle /\
    peek_account view (create_Destination tx) = Some sled /\
    let reserve := fees_accountReserve env (wrap32 (acct_OwnerCount sle + 1)) in
    reserve <= acct_Balance sle /\
    (isXRP (create_Amount tx) = true ->
     reserve + amt_value (create_Amount tx) <= acct_Balance sle) /\
    rules_enabled env featurePaychanAndEscrowForTokens = true /\
    trustTransferAllowed env view (create_Account tx) (create_Destination tx)
      (amt_issue (create_Amount tx)) = tesSUCCESS /\
    trustAdjustLockedBalance_dry env view
      (keylet_line (create_Account tx) (amt_issuer (create_Amount tx))
         (amt_currency (create_Amount tx)))
      (create_Amount tx) 1 = tesSUCCESS /\
    (has_flag (acct_Flags sled) lsfRequireDestTag = true ->
     is_Some (create_DestinationTag tx)) /\
    (has_flag (acct_Flags sled) lsfDisallowXRP = true ->
     rules_enabled env featureDepositAuth = true).
Proof.
  unfold PayChanCreate_preclaim.
  destruct (peek_account view (create_Account tx)) as [sle |]; [| done].
  destruct (acct_Balance sle <? _) eqn:Hres; [done |].
  destruct (isXRP (create_Amount tx) && _) eqn:Hfund; [done |].
  destruct (negb (rules_enabled env _)) eqn:Hrule; [done |].
  destruct (negb (isTesSuccess (trustTransferAllowed _ _ _ _ _))) eqn:Hallow.
  { intros E. rewrite E in Hallow. done. }
  destruct (negb (isTesSuccess (trustAdjustLockedBalance_dry _ _ _ _ _)))
    eqn:Hdry.
  { intros E. rewrite E in Hdry. done. }
  destruct (peek_account view (create_Destination tx)) as [sled |]; [| done].
  destruct (has_flag (acct_Flags sled) lsfRequireDestTag && _) eqn:Htag;
    [done |].
  destruct (negb (rules_enabled env featureDepositAuth) && _) eqn:Hdis;
    [done |].
  intros _. exists sle, sled. split; [done |]. split; [done |].
  apply Z.ltb_ge in Hres. split; [done |].
  apply negb_false_iff in Hrule, Hallow, Hdry.
  apply isTesSuccess_true in Hallow, Hdry.
  repeat split; try done.
  - intros Hx. rewrite Hx in Hfund. cbn [andb] in Hfund.
    by apply Z.ltb_ge in Hfund.
  - intros Hf. rewrite Hf in Htag. cbn [andb] in Htag.
    apply negb_false_iff in Htag. by apply bool_decide_eq_true in Htag.
  - intros Hf. rewrite Hf, andb_true_r in Hdis.
    by apply negb_false_iff in Hdis.
Qed.

Lemma create_preclaim_success_witness :
  PayChanCreate_preclaim (env_at tokens_enabled 0) token_ledger create_iou_tx
  = tesSUCCESS /\
  exists sle sled,
    peek_account token_ledger O = Some sle /\
    peek_account token_ledger D = Some sled /\
    rules_enabled (env_at tokens_enabled 0) featurePaychanAndEscrowForTokens
    = true.
Proof.
  assert (H : PayChanCreate_preclaim (env_at tokens_enabled 0) token_ledger
                create_iou_tx = tesSUCCESS) by (vm_compute; reflexivity).
  split; [exact H |].
  destruct (create_preclaim_success (env_at tokens_enabled 0) token_ledger
              create_iou_tx H)
    as (sle & sled & H1 & H2 & _ & _ & H3 & _).
  exists sle, sled. repeat split; assumption.
Defined.

(** *** Views: lookups after writes *)

Lemma peek_account_insert_ne (v : View) (key : Keylet) (e : SLE) (a : AccountID) :
  key <> keylet_account a ->
  peek_account (<[key := e]> v) a = peek_account v a.
Proof. intros H. unfold peek_account. by rewrite lookup_insert_ne. Qed.

Lemma peek_account_insert_eq (v : View) (a : AccountID) (r : AccountRoot) :
  peek_account (<[keylet_account a := sle_account r]> v) a = Some r.
Proof. unfold peek_account. by rewrite lookup_insert_eq. Qed.

Lemma peek_paychan_insert_ne (v : View) (key k : Keylet) (e : SLE) :
  key <> k -> peek_paychan (<[key := e]> v) k = peek_paychan v k.
Proof. intros H. unfold peek_paychan. by rewrite lookup_insert_ne. Qed.

Lemma peek_account_set_paychan (v : View) (k : Keylet) (p : PayChanSLE)
    (a : AccountID) :
  k <> keylet_account a ->
  peek_account (set_paychan v k p) a = peek_account v a.
Proof. apply peek_account_insert_ne. Qed.

(** A directory insert that succeeds returns the hint 0 and appends
    the index to the page it finds, or to a fresh one. *)
Lemma dirAdd_spec (v v' : View) (dir key : Keylet) (page : Z) :
  dirAdd v dir key = Some (page, v') ->
  page = 0 /\
  exists l, v' = <[dir := sle_dir (l ++ [key])]> v /\
            (v !! dir = Some (sle_dir l) \/ (v !! dir = None /\ l = [])).
Proof.
  unfold dirAdd.
  destruct (v !! dir) as [[] |] eqn:Hd; try done.
  - destruct (_ <? _); [| done]. intros [= <- <-]. split; [done |].
    exists indexes. split; [done |]. by left.
  - intros [= <- <-]. split; [done |]. exists []. split; [done |]. by right.
Qed.

Lemma remove_first_app_last (key : Keylet) (l : list Keylet) :
  ~ In key l -> remove_first key (l ++ [key]) = l.
Proof.
  induction l as [| x l IH]; intros Hnot; cbn.
  - by rewrite decide_True.
  - rewrite decide_False by (intros ->; apply Hnot; by left).
    f_equal. apply IH. intros Hin. apply Hnot. by right.
Qed.

Lemma key_in_app_last (key : Keylet) (l : list Keylet) :
  key_in key (l ++ [key]) = true.
Proof.
  unfold key_in. rewrite existsb_app. cbn.
  rewrite bool_decide_eq_true_2 by done. by rewrite orb_true_r.
Qed.

Lemma key_in_In (key : Keylet) (l : list Keylet) :
  key_in key l = true <-> In key l.
Proof.
  unfold key_in. rewrite existsb_exists. split.
  - intros (x & Hin & Hx). by apply bool_decide_eq_true in Hx as <-.
  - intros Hin. exists key. split; [done |]. by apply bool_decide_eq_true.
Qed.

(** *** closeChannel *)

Lemma peek_paychan_dirRemove (v v1 : View) (dir : Keylet) (page : Z)
    (key k : Keylet) (keepRoot : bool) (p : PayChanSLE) :
  dirRemove v dir page key keepRoot = Some v1 ->
  peek_paychan v k = Some p -> peek_paychan v1 k = Some p.
Proof.
  unfold dirRemove, peek_paychan. intros H Hp.
  destruct (v !! dir) as [[] |] eqn:Hd; try done.
  assert (Hne : dir <> k) by (intros ->; by rewrite Hd in Hp).
  destruct (_ && _); [| done].
  destruct (remove_first key indexes); [destruct keepRoot |];
    injection H as <-.
  - by rewrite lookup_insert_ne.
  - by rewrite lookup_delete_ne.
  - by rewrite lookup_insert_ne.
Qed.

Lemma peek_paychan_removeFromRecipientDir (env : Env) (slep : PayChanSLE)
    (v v2 : View) (key k : Keylet) (p : PayChanSLE) :
  removeFromRecipientDir env slep v key = Some v2 ->
  peek_paychan v k = Some p -> peek_paychan v2 k = Some p.
Proof.
  unfold removeFromRecipientDir.
  destruct (pc_DestinationNode slep) as [page |]; [| by intros [= <-]].
  destruct (rules_enabled env _); [| by intros [= <-]].
  apply peek_paychan_dirRemove.
Qed.

Lemma amt_sub_xrp (a b : STAmount) :
  isXRP a = true -> isXRP b = true ->
  amt_sub a b = Some (drops (amt_value a - amt_value b)).
Proof.
  unfold amt_sub, amt_add, amt_neg, areComparable, isXRP, drops.
  cbn [amt_issue amt_value].
  destruct (amt_issue a); [| done]. destruct (amt_issue b); [| done]. done.
Qed.

Lemma closeChannel_xrp_cases (env : Env) (slep : PayChanSLE) (view : View)
    (key : Keylet) :
  peek_paychan view key = Some slep ->
  isXRP (pc_Amount slep) = true -> isXRP (pc_Balance slep) = true ->
  let r := closeChannel env slep view key in
  (fst r = tesSUCCESS /\ snd r !! key = None /\
   (exists sle, peek_account view (pc_Account slep) = Some sle /\
      peek_account (snd r) (pc_Account slep)
      = Some (mkAccountRoot
                (acct_Balance sle
                 + (amt_value (pc_Amount slep) - amt_value (pc_Balance slep)))
                (confineOwnerCount (acct_OwnerCount sle) (-1))
                (acct_Flags sle))) /\
   (forall a, a <> pc_Account slep ->
      peek_account (snd r) a = peek_account view a))
  \/
  ((fst r = tefBAD_LEDGER \/ fst r = tefINTERNAL) /\
   peek_paychan (snd r) key = Some slep /\
   (forall a, peek_account (snd r) a = peek_account view a)).
Proof.
  intros Hchan Hxa Hxb r. subst r. unfold closeChannel.
  rewrite amt_sub_xrp by done.
  unfold closeDryRun. cbn [isXRP drops amt_issue negb].
  destruct (dirRemove _ _ _ _ _) as [view1 |] eqn:Hd1.
  2: { right. cbn [fst snd]. split; [by left |]. by split. }
  pose proof (peek_paychan_dirRemove _ _ _ _ _ key _ _ Hd1 Hchan) as Hc1.
  destruct (removeFromRecipientDir _ _ _ _) as [view2 |] eqn:Hd2.
  2: { right. cbn [fst snd]. split; [by left |]. split; [done |].
       intros a. by apply (peek_account_dirRemove _ _ _ _ _ _ a) in Hd1. }
  pose proof (peek_paychan_removeFromRecipientDir _ _ _ _ _ key _ Hd2 Hc1)
    as Hc2.
  assert (Hacc : forall a, peek_account view2 a = peek_account view a).
  { intros a.
    rewrite (PayChanFacts.removeFromRecipientDir_accounts _ _ _ _ _ a Hd2).
    by apply (peek_account_dirRemove _ _ _ _ _ _ a) in Hd1. }
  destruct (peek_account view2 (pc_Account slep)) as [sle |] eqn:Hsrc.
  2: { right. cbn [fst snd]. split; [by right |]. by split. }
  left. unfold closeRefund. cbn [isXRP drops amt_issue amt_value fst snd].
  cbn [isTesSuccess TER_eqb negb fst snd].
  split; [done |]. split; [apply lookup_delete_eq |].
  assert (Hk : forall a r, peek_account view2 a = Some r ->
                 key <> keylet_account a).
  { intros a r Ha. by eapply PayChanFacts.paychan_key_is_no_account. }
  unfold set_account_balance, adjustOwnerCount. rewrite Hsrc.
  rewrite peek_account_insert_eq. cbn [acct_Balance acct_OwnerCount acct_Flags].
  split.
  - exists sle. split; [by rewrite <- Hacc |].
    unfold peek_account. rewrite lookup_delete_ne by (by eapply Hk).
    by rewrite lookup_insert_eq.
  - intros a Hne. rewrite <- Hacc. unfold peek_account at 1.
    destruct (decide (key = keylet_account a)) as [-> | Hka].
    + rewrite lookup_delete_eq. unfold peek_paychan in Hc2.
      unfold peek_account. by destruct (view2 !! keylet_account a) as [[] |].
    + rewrite lookup_delete_ne by done.
      rewrite !lookup_insert_ne by congruence. done.
Qed.

(** Closing a channel held in XRP either succeeds or leaves the
    ledger's entries as they were.  On success the channel is erased,
    the owner gets exactly [amount - balance] back and one owner count
    less, and no other account root changes.  The only failures are
    [tefBAD_LEDGER] and [tefINTERNAL]; the channel and every account
    root are then intact. *)
Theorem closeChannel_xrp_outcome (env : Env) (slep : PayChanSLE) (view : View)
    (key : Keylet) :
  peek_paychan view key = Some slep ->
  isXRP (pc_Amount slep) = true -> isXRP (pc_Balance slep) = true ->
  let r := closeChannel env slep view key in
  (fst r = tesSUCCESS /\ snd r !! key = None /\
   (exists sle, peek_account view (pc_Account slep) = Some sle /\
      peek_account (snd r) (pc_Account slep)
      = Some (mkAccountRoot
                (acct_Balance sle
                 + (amt_value (pc_Amount slep) - amt_value (pc_Balance slep)))
                (confineOwnerCount (acct_OwnerCount sle) (-1))
                (acct_Flags sle))) /\
   (forall a, a <> pc_Account slep ->
      peek_account (snd r) a = peek_account view a))
  \/
  ((fst r = tefBAD_LEDGER \/ fst r = tefINTERNAL) /\
   peek_paychan (snd r) key = Some slep /\
   (forall a, peek_account (snd r) a = peek_account view a)).
Proof. apply closeChannel_xrp_cases. Qed.

Lemma closeChannel_xrp_outcome_witness :
  let r := closeChannel (env_at no_amendments 2000) (channel None)
             (ledger_with (channel None)) K in
  (fst r = tesSUCCESS /\ snd r !! K = None /\
   (exists sle, peek_account (ledger_with (channel None)) O = Some sle /\
      peek_account (snd r) O
      = Some (mkAccountRoot (acct_Balance sle + (100000 - 0))
                (confineOwnerCount (acct_OwnerCount sle) (-1))
                (acct_Flags sle))) /\
   (forall a, a <> O ->
      peek_account (snd r) a = peek_account (ledger_with (channel None)) a))
  \/
  ((fst r = tefBAD_LEDGER \/ fst r = tefINTERNAL) /\
   peek_paychan (snd r) K = Some (channel None) /\
   (forall a, peek_account (snd r) a
              = peek_account (ledger_with (channel None)) a)).
Proof.
  apply (closeChannel_xrp_outcome (env_at no_amendments 2000) (channel None)
           (ledger_with (channel None)) K).
  - vm_compute. reflexivity.
  - reflexivity.
  - reflexivity.
Defined.

(** *** PayChanCreate::doApply *)

Lemma create_doApply_xrp_facts (env : Env) (view : View) (tx : PayChanCreateTx)
    (sle : AccountRoot) :
  peek_account view (create_Account tx) = Some sle ->
  isXRP (create_Amount tx) = true ->
  create_Account tx <> create_Destination tx ->
  let k := keylet_payChan (create_Account tx) (create_Destination tx)
             (create_Sequence tx) in
  let r := PayChanCreate_doApply env view tx in
  fst r = tesSUCCESS ->
  view !! k = None /\
  (exists lO, snd r !! keylet_ownerDir (create_Account tx)
              = Some (sle_dir (lO ++ [k])) /\
              (view !! keylet_ownerDir (create_Account tx) = Some (sle_dir lO)
               \/ (view !! keylet_ownerDir (create_Account tx) = None
                   /\ lO = []))) /\
  (rules_enabled env fixPayChanRecipientOwnerDir = true ->
   exists lD, snd r !! keylet_ownerDir (create_Destination tx)
              = Some (sle_dir (lD ++ [k]))) /\
  snd r !! k = Some (sle_paychan (createdPayChan env tx)) /\
  peek_account (snd r) (create_Account tx)
  = Some (mkAccountRoot (acct_Balance sle - amt_value (create_Amount tx))
            (confineOwnerCount (acct_OwnerCount sle) 1) (acct_Flags sle)) /\
  (forall a, a <> create_Account tx ->
     peek_account (snd r) a = peek_account view a).
Proof.
  intros Hsle Hx Hne k r. subst r k. unfold PayChanCreate_doApply.
  rewrite Hsle.
  destruct (view_exists view _) eqn:Hfresh; [done |].
  assert (Hk : view !! keylet_payChan (create_Account tx)
                 (create_Destination tx) (create_Sequence tx) = None).
  { unfold view_exists in Hfresh. by destruct (view !! _). }
  destruct (dirInsert _ _ _) as [[page view2] |] eqn:HdO; [| done].
  apply dirAdd_spec in HdO as (-> & lO & -> & HlO).
  unfold addToRecipientDir, createdPayChan.
  cbn [pc_Destination with_OwnerNode newPayChan].
  assert (HlO' : view !! keylet_ownerDir (create_Account tx)
                 = Some (sle_dir lO)
                 \/ view !! keylet_ownerDir (create_Account tx) = None
                    /\ lO = []).
  { unfold set_paychan in HlO. by rewrite lookup_insert_ne in HlO. }
  destruct (rules_enabled env fixPayChanRecipientOwnerDir) eqn:Hfeat.
  - destruct (dirInsert _ _ _) as [[page view5] |] eqn:HdD; [| done].
    apply dirAdd_spec in HdD as (-> & lD & -> & HlD).
    unfold createDeduct. rewrite Hx. cbn [fst snd isTesSuccess TER_eqb negb].
    unfold set_account_balance, adjustOwnerCount, set_paychan.
    rewrite !peek_account_insert_ne by done. rewrite Hsle.
    rewrite peek_account_insert_eq.
    cbn [acct_Balance acct_OwnerCount acct_Flags].
    intros _. split; [done |]. split.
    { exists lO. split; [| done].
      rewrite !lookup_insert_ne by congruence. by rewrite lookup_insert_eq. }
    split.
    { intros _. exists lD. rewrite !lookup_insert_ne by done.
      by rewrite lookup_insert_eq. }
    split.
    { rewrite !lookup_insert_ne by done. by rewrite lookup_insert_eq. }
    split.
    { by rewrite peek_account_insert_eq. }
    intros a Ha. by rewrite !peek_account_insert_ne by congruence.
  - unfold createDeduct. rewrite Hx. cbn [fst snd isTesSuccess TER_eqb negb].
    unfold set_account_balance, adjustOwnerCount, set_paychan.
    rewrite !peek_account_insert_ne by done. rewrite Hsle.
    rewrite peek_account_insert_eq.
    cbn [acct_Balance acct_OwnerCount acct_Flags].
    intros _. split; [done |]. split.
    { exists lO. split; [| done].
      rewrite !lookup_insert_ne by congruence. by rewrite lookup_insert_eq. }
    split; [done |]. split.
    { rewrite !lookup_insert_ne by done. by rewrite lookup_insert_eq. }
    split.
    { by rewrite peek_account_insert_eq. }
    intros a Ha. by rewrite !peek_account_insert_ne by congruence.
Qed.



Lemma confineOwnerCount_up_down (n : Z) :
  0 <= n < UINT32_MAX ->
  confineOwnerCount (confineOwnerCount n 1) (-1) = n.
Proof.
  unfold UINT32_MAX. intros H. unfold confineOwnerCount.
  rewrite (wrap32_small (n + 1)) by lia. cbn [Z.ltb Z.compare].
  destruct (n + 1 <? n) eqn:E; [apply Z.ltb_lt in E; lia |].
  rewrite wrap32_small by lia.
  destruct (n + 1 <? n + 1 + -1) eqn:E2; [apply Z.ltb_lt in E2; lia |]. lia.
Qed.

(** Create then close: a channel created in XRP and closed before
    anything was paid out of it gives the sender back its balance and
    its owner count; every account root is as it was before the create,
    and the channel is gone. *)
Theorem create_then_close_restores (env : Env) (view : View)
    (tx : PayChanCreateTx) (sle : AccountRoot) :
  peek_account view (create_Account tx) = Some sle ->
  isXRP (create_Amount tx) = true ->
  create_Account tx <> create_Destination tx ->
  0 <= acct_OwnerCount sle < UINT32_MAX ->
  let k := keylet_payChan (create_Account tx) (create_Destination tx)
             (create_Sequence tx) in
  let r := PayChanCreate_doApply env view tx in
  fst r = tesSUCCESS ->
  peek_paychan (snd r) k = Some (createdPayChan env tx) /\
  let c := closeChannel env (createdPayChan env tx) (snd r) k in
  fst c = tesSUCCESS /\ snd c !! k = None /\
  (forall a, peek_account (snd c) a = peek_account view a).
Proof.
  intros Hsle Hx Hne Hoc k r Hok.
  destruct (create_doApply_xrp_facts env view tx sle Hsle Hx Hne Hok)
    as (_ & (lO & HdO & _) & HdD & Hchan & Hacc & Hoth).
  fold k in HdO, HdD, Hchan. fold r in HdO, HdD, Hchan, Hacc, Hoth.
  assert (Hp : peek_paychan (snd r) k = Some (createdPayChan env tx)).
  { unfold peek_paychan. by rewrite Hchan. }
  split; [done |]. intros c.
  assert (Hxa : isXRP (pc_Amount (createdPayChan env tx)) = true) by done.
  assert (Hxb : isXRP (pc_Balance (createdPayChan env tx)) = true).
  { cbn. unfold isXRP in *. cbn. by destruct (amt_issue (create_Amount tx)). }
  assert (Hsucc : fst c = tesSUCCESS).
  { subst c. unfold closeChannel. rewrite amt_sub_xrp by done.
    unfold closeDryRun. cbn [isXRP drops amt_issue negb].
    assert (Hd1 : exists view1,
      dirRemove (snd r) (keylet_ownerDir (create_Account tx)) 0 k true
      = Some view1 /\
      (forall key, key <> keylet_ownerDir (create_Account tx) ->
         view1 !! key = snd r !! key)).
    { unfold dirRemove. rewrite HdO. rewrite key_in_app_last. cbn [Z.eqb andb].
      destruct (remove_first k (lO ++ [k])); eexists; (split; [done |]);
        intros key Hk'; by rewrite lookup_insert_ne. }
    destruct Hd1 as (view1 & Hd1 & Hsame1).
    change (pc_Account (createdPayChan env tx)) with (create_Account tx).
    change (pc_OwnerNode (createdPayChan env tx)) with 0.
    rewrite Hd1.
    assert (Hd2 : exists view2,
      removeFromRecipientDir env (createdPayChan env tx) view1 k = Some view2
      /\ peek_account view2 (create_Account tx)
         = peek_account (snd r) (create_Account tx)).
    { unfold removeFromRecipientDir, createdPayChan.
      cbn [pc_DestinationNode pc_Destination with_DestinationNode
           with_OwnerNode newPayChan].
      destruct (rules_enabled env fixPayChanRecipientOwnerDir) eqn:Hfeat.
      - destruct (HdD eq_refl) as (lD & HlD).
        unfold dirRemove. rewrite Hsame1 by congruence. rewrite HlD.
        rewrite key_in_app_last. cbn [Z.eqb andb].
        destruct (remove_first k (lD ++ [k])); eexists; (split; [done |]);
          unfold peek_account; rewrite lookup_insert_ne by done;
          by rewrite Hsame1.
      - exists view1. split; [done |]. unfold peek_account.
        by rewrite Hsame1. }
    destruct Hd2 as (view2 & Hd2 & Hacc2). rewrite Hd2, Hacc2, Hacc.
    unfold closeRefund. by cbn. }
  split; [done |].
  destruct (closeChannel_xrp_cases env (createdPayChan env tx) (snd r) k
              Hp Hxa Hxb)
    as [(_ & Herase & (sle' & Hs1 & Hs2) & Hrest) | (Hf & _)].
  2: { fold c in Hf. rewrite Hsucc in Hf. by destruct Hf. }
  fold c in Herase, Hs2, Hrest.
  split; [done |]. intros a.
  destruct (decide (a = create_Account tx)) as [-> | Ha].
  - change (pc_Account (createdPayChan env tx)) with (create_Account tx)
      in Hs1, Hs2.
    rewrite Hs2, Hsle. rewrite Hacc in Hs1. injection Hs1 as <-.
    cbn [acct_Balance acct_OwnerCount acct_Flags].
    rewrite confineOwnerCount_up_down by done.
    change (pc_Amount (createdPayChan env tx)) with (create_Amount tx).
    change (amt_value (pc_Balance (createdPayChan env tx))) with 0.
    destruct sle as [bal oc fl]. cbn. do 2 f_equal. lia.
  - rewrite Hrest by done. by apply Hoth.
Qed.

Lemma create_then_close_restores_witness :
  let r := PayChanCreate_doApply (env_at recipient_dir_enabled 0) accounts
             create_tx in
  peek_paychan (snd r) K
  = Some (createdPayChan (env_at recipient_dir_enabled 0) create_tx) /\
  let c := closeChannel (env_at recipient_dir_enabled 0)
             (createdPayChan (env_at recipient_dir_enabled 0) create_tx)
             (snd r) K in
  fst c = tesSUCCESS /\ snd c !! K = None /\
  (forall a, peek_account (snd c) a = peek_account accounts a).
Proof.
  apply (create_then_close_restores (env_at recipient_dir_enabled 0) accounts
           create_tx (mkAccountRoot 1000000 0 0)).
  - vm_compute. reflexivity.
  - reflexivity.
  - vm_compute. discriminate.
  - vm_compute. split; [discriminate | reflexivity].
  - vm_compute. reflexivity.
Defined.

(** *** PayChanFund::doApply *)

Lemma fund_tail_xrp_success (env : Env) (view : View) (tx : PayChanFundTx)
    (k : Keylet) (slep : PayChanSLE) (sleLine : Keylet) :
  isXRP (fund_Amount tx) = true ->
  fst (fund_tail env view tx k slep sleLine) = tesSUCCESS ->
  exists sle total,
    peek_account view (fund_Account tx) = Some sle /\
    fees_accountReserve env (acct_OwnerCount sle) + amt_value (fund_Amount tx)
    <= acct_Balance sle /\
    amt_add (pc_Amount slep) (fund_Amount tx) = Some total /\
    snd (fund_tail env view tx k slep sleLine)
    = set_paychan
        (set_account_balance view (fund_Account tx)
           (acct_Balance sle - amt_value (fund_Amount tx)))
        k (with_Amount slep total).
Proof.
  intros Hx. unfold fund_tail. rewrite Hx.
  destruct (peek_account view (fund_Account tx)) as [sle |]; [| done].
  destruct (negb (view_exists _ _)); [done |].
  destruct (acct_Balance sle <? _); [done |].
  destruct (acct_Balance sle <? _) eqn:Hfund; [done |].
  cbn [fst snd isTesSuccess TER_eqb negb].
  destruct (amt_add _ _) as [total |]; [| done].
  intros _. exists sle, total. apply Z.ltb_ge in Hfund. by repeat split.
Qed.

(** A successful XRP fund of an open channel comes from the owner,
    who held the amount on top of the reserve; it moves exactly the
    amount from the owner's balance into the channel's amount, leaves
    the channel's paid balance and every other account root alone, and
    the channel's expiration is the supplied one, or the old one when
    none is supplied. *)
Theorem fund_xrp_success (env : Env) (view : View) (tx : PayChanFundTx)
    (slep : PayChanSLE) :
  peek_paychan view (fund_Channel tx) = Some slep ->
  elapsed (info_parentCloseTime env) (pc_CancelAfter slep) = false ->
  elapsed (info_parentCloseTime env) (pc_Expiration slep) = false ->
  isXRP (fund_Amount tx) = true ->
  let r := PayChanFund_doApply env view tx in
  fst r = tesSUCCESS ->
  fund_Account tx = pc_Account slep /\
  exists sle p,
    peek_account view (pc_Account slep) = Some sle /\
    fees_accountReserve env (acct_OwnerCount sle) + amt_value (fund_Amount tx)
    <= acct_Balance sle /\
    peek_account (snd r) (pc_Account slep)
    = Some (mkAccountRoot (acct_Balance sle - amt_value (fund_Amount tx))
              (acct_OwnerCount sle) (acct_Flags sle)) /\
    (forall a, a <> pc_Account slep ->
       peek_account (snd r) a = peek_account view a) /\
    peek_paychan (snd r) (fund_Channel tx) = Some p /\
    amt_add (pc_Amount slep) (fund_Amount tx) = Some (pc_Amount p) /\
    pc_Balance p = pc_Balance slep /\
    pc_Expiration p = match fund_Expiration tx with
                      | Some extend => Some extend
                      | None => pc_Expiration slep
                      end.
Proof.
  intros Hchan Hc He Hx r. subst r. unfold PayChanFund_doApply.
  rewrite Hchan. cbv zeta. rewrite Hx. cbn [negb andb isTesSuccess TER_eqb].
  rewrite Hc, He. cbn [orb].
  destruct (pc_Account slep =? fund_Account tx) eqn:Hown; [| done].
  apply Z.eqb_eq in Hown. cbn [negb].
  assert (Htail : forall view' slep',
    peek_paychan view' (fund_Channel tx) = Some slep' ->
    (forall a, peek_account view' a = peek_account view a) ->
    pc_Account slep' = pc_Account slep ->
    pc_Amount slep' = pc_Amount slep -> pc_Balance slep' = pc_Balance slep ->
    let t := fund_tail env view' tx (fund_Channel tx) slep'
               (keylet_line (pc_Account slep) (amt_issuer (fund_Amount tx))
                  (amt_currency (fund_Amount tx))) in
    fst t = tesSUCCESS ->
    fund_Account tx = pc_Account slep /\
    exists sle p,
      peek_account view (pc_Account slep) = Some sle /\
      fees_accountReserve env (acct_OwnerCount sle)
      + amt_value (fund_Amount tx) <= acct_Balance sle /\
      peek_account (snd t) (pc_Account slep)
      = Some (mkAccountRoot (acct_Balance sle - amt_value (fund_Amount tx))
                (acct_OwnerCount sle) (acct_Flags sle)) /\
      (forall a, a <> pc_Account slep ->
         peek_account (snd t) a = peek_account view a) /\
      peek_paychan (snd t) (fund_Channel tx) = Some p /\
      amt_add (pc_Amount slep) (fund_Amount tx) = Some (pc_Amount p) /\
      pc_Balance p = pc_Balance slep /\
      pc_Expiration p = pc_Expiration slep').
  { intros view' slep' Hp Hsame Ha Hm Hb t Hok. split; [done |].
    destruct (fund_tail_xrp_success env view' tx (fund_Channel tx) slep' _
                Hx Hok) as (sle & total & Hsle & Hfund & Hadd & Hview).
    fold t in Hview. rewrite <- Hown in Hsle, Hview. rewrite Hview.
    assert (Hk : fund_Channel tx <> keylet_account (pc_Account slep))
      by (by eapply PayChanFacts.paychan_key_is_no_account).
    exists sle, (with_Amount slep' total).
    split; [by rewrite <- Hsame |]. split; [done |].
    unfold set_paychan, set_account_balance. rewrite Hsle. split.
    { rewrite peek_account_insert_ne by done.
      by rewrite peek_account_insert_eq. }
    split.
    { intros a Hne. rewrite <- Hsame.
      destruct (decide (fund_Channel tx = keylet_account a)) as [E | E].
      - unfold peek_account, peek_paychan in *. rewrite <- E.
        rewrite lookup_insert_eq.
        by destruct (view' !! fund_Channel tx) as [[] |].
      - rewrite !peek_account_insert_ne; [done | congruence | done]. }
    split; [unfold peek_paychan; by rewrite lookup_insert_eq |].
    cbn. by rewrite <- Hm. }
  destruct (fund_Expiration tx) as [extend |].
  - destruct (extend <? _); [done |].
    intros Hok.
    apply (Htail _ (with_Expiration slep (Some extend))); try done.
    + apply PayChanFacts.peek_paychan_set_paychan.
    + intros a. unfold set_paychan.
      destruct (decide (fund_Channel tx = keylet_account a)) as [E | E].
      * unfold peek_account, peek_paychan in *. rewrite <- E.
        rewrite lookup_insert_eq.
        by destruct (view !! fund_Channel tx) as [[] |].
      * by rewrite peek_account_insert_ne.
  - intros Hok. by apply (Htail view slep).
Qed.

Lemma fund_xrp_success_witness :
  let r := PayChanFund_doApply (env_at no_amendments 2000)
             (ledger_with (channel None)) (fund_extend_tx 88400) in
  fund_Account (fund_extend_tx 88400) = pc_Account (channel None) /\
  exists sle p,
    peek_account (ledger_with (channel None)) O = Some sle /\
    peek_account (snd r) O
    = Some (mkAccountRoot (acct_Balance sle - 50000) (acct_OwnerCount sle)
              (acct_Flags sle)) /\
    peek_paychan (snd r) K = Some p /\
    pc_Expiration p = Some 88400.
Proof.
  destruct (fund_xrp_success (env_at no_amendments 2000)
              (ledger_with (channel None)) (fund_extend_tx 88400)
              (channel None))
    as (Hown & sle & p & H1 & _ & H2 & _ & H3 & _ & _ & H4).
  - vm_compute. reflexivity.
  - reflexivity.
  - reflexivity.
  - reflexivity.
  - vm_compute. reflexivity.
  - split; [exact Hown |]. exists sle, p. repeat split; assumption.
Defined.

(** *** PayChanClaim::doApply *)


Lemma peek_account_set_paychan_at_channel (v : View) (k : Keylet)
    (p p' : PayChanSLE) (a : AccountID) :
  peek_paychan v k = Some p ->
  peek_account (set_paychan v k p') a = peek_account v a.
Proof.
  intros Hp. unfold set_paychan.
  destruct (decide (k = keylet_account a)) as [-> | E].
  - unfold peek_account, peek_paychan in *. rewrite lookup_insert_eq.
    by destruct (v !! keylet_account a) as [[] |].
  - by rewrite peek_account_insert_ne.
Qed.

Lemma claim_balance_block_xrp (env : Env) (view : View) (tx : PayChanClaimTx)
    (k : Keylet) (slep : PayChanSLE) (b : STAmount) (go : View * PayChanSLE) :
  isXRP b = true ->
  claim_balance_block env view tx k slep b = inr go ->
  exists sled,
    peek_account view (pc_Destination slep) = Some sled /\
    go = (set_account_balance (set_paychan view k (with_Balance slep b))
            (pc_Destination slep)
            (acct_Balance sled + (amt_value b - amt_value (pc_Balance slep))),
          with_Balance slep b).
Proof.
  intros Hx. unfold claim_balance_block.
  destruct (claim_signer tx slep); [done |].
  destruct (amt_ltb (pc_Amount slep) b) as [[] |]; try done.
  destruct (amt_leb b (pc_Balance slep)) as [[] |] eqn:Hlo; try done.
  destruct (peek_account view (pc_Destination slep)) as [sled |]; [| done].
  destruct (negb _ && _); [done |].
  destruct (_ && _ && _ && _); [done |].
  assert (Hsub : amt_sub b (pc_Balance slep)
                 = Some (drops (amt_value b - amt_value (pc_Balance slep)))).
  { unfold amt_leb in Hlo. unfold amt_sub, amt_add, amt_neg, drops.
    unfold areComparable, isXRP in *. cbn [amt_issue amt_value].
    destruct (amt_issue b); [| done].
    by destruct (amt_issue (pc_Balance slep)). }
  rewrite Hsub. cbn [isXRP drops amt_issue amt_value].
  intros [= <-]. by exists sled.
Qed.

(** A successful XRP claim without [tfClose] and [tfRenew] on an open
    channel sets the channel's balance to the requested one, credits
    the destination with exactly the difference to the old balance, and
    changes no other account root and no other field of the channel. *)
Theorem claim_xrp_success (env : Env) (view : View) (tx : PayChanClaimTx)
    (slep : PayChanSLE) (b : STAmount) :
  peek_paychan view (claim_Channel tx) = Some slep ->
  elapsed (info_parentCloseTime env) (pc_CancelAfter slep) = false ->
  elapsed (info_parentCloseTime env) (pc_Expiration slep) = false ->
  claim_Balance tx = Some b -> isXRP b = true ->
  has_flag (claim_Flags tx) tfRenew = false ->
  has_flag (claim_Flags tx) tfClose = false ->
  let r := PayChanClaim_doApply env view tx in
  fst r = tesSUCCESS ->
  peek_paychan (snd r) (claim_Channel tx) = Some (with_Balance slep b) /\
  exists sled,
    peek_account view (pc_Destination slep) = Some sled /\
    peek_account (snd r) (pc_Destination slep)
    = Some (mkAccountRoot
              (acct_Balance sled + (amt_value b - amt_value (pc_Balance slep)))
              (acct_OwnerCount sled) (acct_Flags sled)) /\
    (forall a, a <> pc_Destination slep ->
       peek_account (snd r) a = peek_account view a).
Proof.
  intros Hchan Hc He Hbal Hx Hrenew Hclose r. subst r.
  unfold PayChanClaim_doApply. rewrite Hchan. cbv zeta.
  rewrite Hc, He, Hbal, Hrenew, Hclose. cbn [orb].
  destruct (_ && _); [done |].
  destruct (claim_balance_block _ _ _ _ _ _) as [ret | [view1 slep1]] eqn:Hblock.
  { intros Hok. by apply PayChanFacts.claim_balance_block_returns_failure
      in Hblock. }
  intros _. cbn [snd].
  destruct (claim_balance_block_xrp _ _ _ _ _ _ _ Hx Hblock)
    as (sled & Hsled & [= -> ->]).
  assert (Hsled' : peek_account
                     (set_paychan view (claim_Channel tx) (with_Balance slep b))
                     (pc_Destination slep) = Some sled).
  { by rewrite (peek_account_set_paychan_at_channel _ _ slep). }
  unfold set_account_balance. rewrite Hsled'. split.
  - rewrite peek_paychan_insert_ne.
    + apply PayChanFacts.peek_paychan_set_paychan.
    + intros E. symmetry in E. revert E.
      by eapply PayChanFacts.paychan_key_is_no_account.
  - exists sled. split; [done |]. split.
    + by rewrite peek_account_insert_eq.
    + intros a Ha. rewrite peek_account_insert_ne by congruence.
      by rewrite (peek_account_set_paychan_at_channel _ _ slep).
Qed.

Lemma claim_xrp_success_witness :
  peek_paychan
    (snd (PayChanClaim_doApply (env_at no_amendments 2000)
            (ledger_with (channel None)) claim_tx)) K
  = Some (with_Balance (channel None) (drops 40000)).
Proof.
  apply (claim_xrp_success (env_at no_amendments 2000)
           (ledger_with (channel None)) claim_tx (channel None) (drops 40000)).
  - vm_compute. reflexivity.
  - reflexivity.
  - reflexivity.
  - reflexivity.
  - reflexivity.
  - reflexivity.
  - reflexivity.
  - vm_compute. reflexivity.
Defined.



(** The destination's [tfClose] on the same kind of channel closes it
    at once. *)
Lemma claim_tfClose_by_destination :
  let r := PayChanClaim_doApply (env_at no_amendments 2000)
             (ledger_with (channel None))
             (mkClaimTx D K None None None None tfClose) in
  fst r = tesSUCCESS /\ snd r !! K = None.
Proof. by vm_compute. Qed.

(** [tfRenew] without a Balance and without [tfClose] on an open
    channel: from anyone but the owner it is [tecNO_PERMISSION] and the
    view is untouched; from the owner it succeeds and clears the
    channel's expiration, nothing else. *)
Theorem claim_tfRenew (env : Env) (view : View) (tx : PayChanClaimTx)
    (slep : PayChanSLE) :
  peek_paychan view (claim_Channel tx) = Some slep ->
  elapsed (info_parentCloseTime env) (pc_CancelAfter slep) = false ->
  elapsed (info_parentCloseTime env) (pc_Expiration slep) = false ->
  claim_Balance tx = None ->
  has_flag (claim_Flags tx) tfRenew = true ->
  has_flag (claim_Flags tx) tfClose = false ->
  let r := PayChanClaim_doApply env view tx in
  (claim_Account tx <> pc_Account slep -> r = (tecNO_PERMISSION, view)) /\
  (claim_Account tx = pc_Account slep ->
   r = (tesSUCCESS,
        set_paychan view (claim_Channel tx) (with_Expiration slep None))).
Proof.
  intros Hchan Hc He Hbal Hrenew Hclose r. subst r.
  unfold PayChanClaim_doApply. rewrite Hchan. cbv zeta.
  rewrite Hc, He, Hbal, Hrenew, Hclose. cbn [orb]. split.
  - intros Hne.
    assert (E1 : (claim_Account tx =? pc_Account slep) = false)
      by (by apply Z.eqb_neq).
    assert (E2 : (pc_Account slep =? claim_Account tx) = false)
      by (apply Z.eqb_neq; congruence).
    rewrite E1, E2. cbn [negb andb].
    by destruct (negb (claim_Account tx =? pc_Destination slep)).
  - intros ->. rewrite Z.eqb_refl. done.
Qed.

Lemma claim_tfRenew_witness :
  PayChanClaim_doApply (env_at no_amendments 2000)
    (ledger_with (channel None))
    (mkClaimTx D K None None None None tfRenew)
  = (tecNO_PERMISSION, ledger_with (channel None)).
Proof.
  apply (claim_tfRenew (env_at no_amendments 2000)
           (ledger_with (channel None))
           (mkClaimTx D K None None None None tfRenew) (channel None)).
  - vm_compute. reflexivity.
  - reflexivity.
  - reflexivity.
  - reflexivity.
  - reflexivity.
  - reflexivity.
  - vm_compute. discriminate.
Defined.

(** *** PayChanClaim::preflight *)

Lemma bad_amount_false (rules : Feature -> bool) (o : option STAmount)
    (x : STAmount) :
  bad_amount rules o = false -> o = Some x -> 0 < amt_value x.
Proof.
  intros H ->. cbn in H. apply orb_false_iff in H as [_ H].
  by apply Z.leb_gt in H.
Qed.

(** What a PayChanClaim that passes preflight has established:
    [tfClose] and [tfRenew] are not both set; Balance and Amount, where
    present, are positive, and the Balance does not exceed the Amount.
    A Signature comes with a PublicKey of a known type and a Balance,
    and when the Amount is present the signature verifies, canonically,
    over the message built from the channel and that Amount. *)
Theorem claim_preflight_success
    (preflight1 preflight2 : PayChanClaimTx -> TER)
    (publicKeyType : Blob -> bool)
    (verify : Blob -> list SerField -> Blob -> bool -> bool)
    (tfPayChanClaimMask : Z) (rules : Feature -> bool) (storage : STAmount)
    (tx : PayChanClaimTx) :
  PayChanClaim_preflight preflight1 preflight2 publicKeyType verify
    tfPayChanClaimMask rules storage tx = tesSUCCESS ->
  (has_flag (claim_Flags tx) tfClose = true ->
   has_flag (claim_Flags tx) tfRenew = false) /\
  (forall b, claim_Balance tx = Some b -> 0 < amt_value b) /\
  (forall a, claim_Amount tx = Some a -> 0 < amt_value a) /\
  (forall a b, claim_Balance tx = Some b -> claim_Amount tx = Some a ->
     amt_value b <= amt_value a) /\
  (forall sig, claim_Signature tx = Some sig ->
     exists pk b,
       claim_PublicKey tx = Some pk /\ claim_Balance tx = Some b /\
       publicKeyType pk = true /\
       (forall a, claim_Amount tx = Some a ->
          verify pk (serializePayChanAuthorization (claim_Channel tx) a)
            sig true = true)).
Proof.
  unfold PayChanClaim_preflight.
  destruct (negb (isTesSuccess (preflight1 tx))) eqn:H1.
  { intros E. rewrite E in H1. done. }
  destruct (bad_amount rules (claim_Balance tx)) eqn:Hb; [done |].
  destruct (bad_amount rules (claim_Amount tx)) eqn:Ha; [done |].
  destruct (match claim_Balance tx with
            | Some b => _ | None => _ end) as [[] |] eqn:Hover; try done.
  destruct (rules fix1543 && _); [done |].
  destruct (has_flag (claim_Flags tx) tfClose
            && has_flag (claim_Flags tx) tfRenew) eqn:Hboth; [done |].
  intros Hres.
  split.
  { intros Hc. rewrite Hc in Hboth. done. }
  split; [intros b; by apply (bad_amount_false rules) |].
  split; [intros a; by apply (bad_amount_false rules) |].
  split.
  { intros a b Hbal Hamt. rewrite Hbal, Hamt in Hover. unfold amt_ltb in Hover.
    destruct (areComparable a b); [| done]. injection Hover as Hover.
    by apply Z.ltb_ge in Hover. }
  intros sig Hsig. rewrite Hsig in Hres.
  destruct (check_signature _ _ _ _ _) as [err |] eqn:Hcheck.
  { subst err. unfold check_signature in Hcheck.
    repeat case_match; simplify_eq. }
  unfold check_signature in Hcheck.
  destruct (claim_PublicKey tx) as [pk |]; [| done].
  destruct (claim_Balance tx) as [b |]; [| done].
  exists pk, b. split; [done |]. split; [done |].
  destruct (amt_ltb _ b) as [[] |]; try done.
  destruct (negb (publicKeyType pk)) eqn:Hpk; [done |].
  apply negb_false_iff in Hpk. split; [done |].
  intros a Hamt.
  assert (Hpos : 0 < amt_value a)
    by (by apply (bad_amount_false rules (claim_Amount tx))).
  rewrite Hamt in Hcheck. cbn [deref] in Hcheck.
  assert (Hnz : amt_nonzero a = true).
  { unfold amt_nonzero. apply negb_true_iff, Z.eqb_neq. lia. }
  rewrite Hnz in Hcheck.
  destruct (verify pk _ sig true); [done |]. done.
Qed.

Lemma claim_preflight_success_witness :
  (has_flag (claim_Flags claim_tx) tfClose = true ->
   has_flag (claim_Flags claim_tx) tfRenew = false) /\
  (forall b, claim_Balance claim_tx = Some b -> 0 < amt_value b).
Proof.
  destruct (claim_preflight_success (fun _ => tesSUCCESS) (fun _ => tesSUCCESS)
              (fun _ => true) (fun _ _ _ _ => true) 0 no_amendments (drops 0)
              claim_tx) as (H1 & H2 & _).
  - vm_compute. reflexivity.
  - split; assumption.
Defined.

(** *** A fund after the channel has elapsed *)

Lemma dirRemove_listed (view : View) (owner : AccountID) (page : Z)
    (key : Keylet) (keepRoot : bool) :
  listed view owner page key ->
  exists view1,
    dirRemove view (keylet_ownerDir owner) page key keepRoot = Some view1 /\
    (forall k, k <> keylet_ownerDir owner -> view1 !! k = view !! k).
Proof.
  intros (-> & l & Hl & Hin). unfold dirRemove. rewrite Hl, Hin. cbn [Z.eqb andb].
  destruct (remove_first key l) as [| x r]; [destruct keepRoot |]; eexists;
    (split; [reflexivity |]); intros k Hk;
    by rewrite ?lookup_insert_ne, ?lookup_delete_ne.
Qed.

(** Closing a linked channel held in XRP succeeds. *)
Lemma closeChannel_xrp_succeeds (env : Env) (slep : PayChanSLE) (view : View)
    (key : Keylet) :
  isXRP (pc_Amount slep) = true -> isXRP (pc_Balance slep) = true ->
  channel_linked env view key slep ->
  fst (closeChannel env slep view key) = tesSUCCESS.
Proof.
  intros Hxa Hxb (Hown & Hdst & [sle Hsle]). unfold closeChannel.
  rewrite amt_sub_xrp by done.
  unfold closeDryRun. cbn [isXRP drops amt_issue negb].
  destruct (dirRemove_listed _ _ _ _ true Hown) as (view1 & -> & Hsame1).
  assert (Hrec : exists view2,
            removeFromRecipientDir env slep view1 key = Some view2).
  { unfold removeFromRecipientDir.
    destruct (pc_DestinationNode slep) as [page |] eqn:Hnode; [| by eexists].
    destruct (rules_enabled env fixPayChanRecipientOwnerDir) eqn:Hfix;
      [| by eexists].
    destruct (Hdst page eq_refl eq_refl) as [Hne (-> & l & Hl & Hin)].
    assert (Hlisted : listed view1 (pc_Destination slep) 0 key).
    { split; [done |]. exists l. split; [| done].
      rewrite Hsame1; [done | congruence]. }
    destruct (dirRemove_listed _ _ _ _ true Hlisted) as (view2 & -> & _).
    by eexists. }
  destruct Hrec as [view2 Hrec]. rewrite Hrec.
  rewrite (PayChanFacts.removeFromRecipientDir_accounts _ _ _ _ _ _ Hrec).
  unfold peek_account at 1. rewrite Hsame1 by done.
  fold (peek_account view (pc_Account slep)). rewrite Hsle.
  unfold closeRefund. by cbn [isXRP drops amt_issue fst snd isTesSuccess TER_eqb negb].
Qed.

(** Any caller's fund closes an elapsed channel.  A PayChanFund that
    reaches the expiry test (its amount is XRP, or the tokens amendment
    is off, or the dry run for its issued amount passed) on a channel
    held in XRP and linked into the ledger, whose [cancelAfter] or
    [expiration] has elapsed, returns [tesSUCCESS] whoever sent it: the
    channel is erased, the owner gets [amount - balance] back and one
    owner count less, and no other account root changes, so nothing is
    taken from the funder. *)
Theorem fund_after_expiry_closes (env : Env) (view : View) (tx : PayChanFundTx)
    (slep : PayChanSLE) :
  peek_paychan view (fund_Channel tx) = Some slep ->
  (isXRP (fund_Amount tx) = false ->
   rules_enabled env featurePaychanAndEscrowForTokens = true ->
   trustAdjustLockedBalance_dry env view
     (keylet_line (pc_Account slep) (amt_issuer (fund_Amount tx))
        (amt_currency (fund_Amount tx)))
     (fund_Amount tx) 1 = tesSUCCESS) ->
  elapsed (info_parentCloseTime env) (pc_CancelAfter slep) = true
  \/ elapsed (info_parentCloseTime env) (pc_Expiration slep) = true ->
  isXRP (pc_Amount slep) = true -> isXRP (pc_Balance slep) = true ->
  channel_linked env view (fund_Channel tx) slep ->
  let r := PayChanFund_doApply env view tx in
  fst r = tesSUCCESS /\
  snd r !! fund_Channel tx = None /\
  (exists sle, peek_account view (pc_Account slep) = Some sle /\
     peek_account (snd r) (pc_Account slep)
     = Some (mkAccountRoot
               (acct_Balance sle
                + (amt_value (pc_Amount slep) - amt_value (pc_Balance slep)))
               (confineOwnerCount (acct_OwnerCount sle) (-1))
               (acct_Flags sle))) /\
  (forall a, a <> pc_Account slep ->
     peek_account (snd r) a = peek_account view a).
Proof.
  intros Hchan Hdry Helapsed Hxa Hxb Hlinked r. subst r.
  rewrite (PayChanFacts.fund_after_expiry_is_close _ _ _ _ Hchan Hdry Helapsed).
  pose proof (closeChannel_xrp_succeeds _ _ _ _ Hxa Hxb Hlinked) as Hok.
  destruct (closeChannel_xrp_cases env slep view (fund_Channel tx) Hchan Hxa Hxb)
    as [H | [[Hf | Hf] _]]; [exact H | |]; rewrite Hok in Hf; discriminate.
Qed.

Lemma fund_after_expiry_closes_witness :
  let r := PayChanFund_doApply (env_at no_amendments 2000)
             (ledger_with (channel (Some 1000))) fund_xrp_tx in
  fst r = tesSUCCESS /\
  snd r !! K = None /\
  (exists sle,
     peek_account (ledger_with (channel (Some 1000))) O = Some sle /\
     peek_account (snd r) O
     = Some (mkAccountRoot (acct_Balance sle + (100000 - 0))
               (confineOwnerCount (acct_OwnerCount sle) (-1))
               (acct_Flags sle))) /\
  (forall a, a <> O ->
     peek_account (snd r) a
     = peek_account (ledger_with (channel (Some 1000))) a).
Proof.
  apply (fund_after_expiry_closes (env_at no_amendments 2000)
           (ledger_with (channel (Some 1000))) fund_xrp_tx
           (channel (Some 1000))).
  - vm_compute. reflexivity.
  - vm_compute. discriminate.
  - left. vm_compute. reflexivity.
  - reflexivity.
  - reflexivity.
  - split; [| split].
    + split; [reflexivity |]. exists [K]. split; vm_compute; reflexivity.
    + intros page. vm_compute. discriminate.
    + vm_compute. eauto.
Defined.

End PayChanProps.

(** ** Further properties of the hook runtime *)

Module HookProps.

Import Hook HookApi Scenarios MoreScenarios.

(** *** setHookState *)

(** [setHookState] writes nothing unless it succeeds or runs into a
    full directory: with any other status the view it leaves is the
    view it was given. *)
Theorem setHookState_failure_keeps_view (COMPUTE : Z -> Z)
    (accountReserve : Z -> Z) (view : View) (acc : AccountID) (k : Keylet)
    (data : Blob) :
  let r := setHookState COMPUTE accountReserve view acc k data in
  fst r <> tesSUCCESS -> fst r <> tecDIR_FULL -> snd r = view.
Proof.
  intros r. subst r. unfold setHookState.
  repeat case_match; cbn [fst snd]; intros; simplify_eq; done.
Qed.

Lemma setHookState_failure_keeps_view_witness :
  snd (setHookState (allotment 5) reserve hook_ledger A
         (keylet_hook_state A 1) oversized) = hook_ledger.
Proof.
  apply (setHookState_failure_keeps_view (allotment 5) reserve hook_ledger A
           (keylet_hook_state A 1) oversized).
  - vm_compute. discriminate.
  - vm_compute. discriminate.
Defined.

Lemma setHookState_reserve_short (COMPUTE : Z -> Z) (accountReserve : Z -> Z)
    (view : View) (acc : AccountID) (k : Keylet) (data : Blob)
    (sle : AccountRoot) (hook : HookSLE) :
  peek_account view acc = Some sle ->
  peek_hook view acc = Some hook ->
  data <> [] -> Z.of_nat (length data) <= hook_HookDataMaxSize hook ->
  peek_hook_state view k = None ->
  COMPUTE (hook_HookStateCount hook)
  < COMPUTE (wrap32 (hook_HookStateCount hook + 1)) ->
  acct_Balance sle < accountReserve (wrap32 (acct_OwnerCount sle + 1)) ->
  setHookState COMPUTE accountReserve view acc k data
  = (tecINSUFFICIENT_RESERVE, view).
Proof.
  intros Hacc Hhook Hne Hfit Hnone Hcross Hpoor. unfold setHookState.
  rewrite Hacc, Hhook. apply Z.ltb_ge in Hfit. rewrite Hfit.
  assert (Hlen : (Z.of_nat (length data) =? 0) = false).
  { apply Z.eqb_neq. destruct data; [done | cbn; lia]. }
  rewrite Hlen, Hnone. apply Z.ltb_lt in Hcross, Hpoor.
  by rewrite Hcross, Hpoor.
Qed.

(** The edges of [setHookState] on an account with a hook: data
    longer than the hook's [sfHookDataMaxSize] is
    [temHOOK_DATA_TOO_LARGE]; empty data for a key that has no entry is
    a success that changes nothing; and when the hook's allotment is
    used up and the balance does not meet the reserve for one more
    owned entry, a new entry is [tecINSUFFICIENT_RESERVE]. *)
Theorem setHookState_edges (COMPUTE : Z -> Z) (accountReserve : Z -> Z)
    (view : View) (acc : AccountID) (k : Keylet) (data : Blob)
    (sle : AccountRoot) (hook : HookSLE) :
  peek_account view acc = Some sle ->
  peek_hook view acc = Some hook ->
  let r := setHookState COMPUTE accountReserve view acc k data in
  (hook_HookDataMaxSize hook < Z.of_nat (length data) ->
   r = (temHOOK_DATA_TOO_LARGE, view)) /\
  (data = [] -> 0 <= hook_HookDataMaxSize hook ->
   peek_hook_state view k = None -> r = (tesSUCCESS, view)) /\
  (data <> [] -> Z.of_nat (length data) <= hook_HookDataMaxSize hook ->
   peek_hook_state view k = None ->
   COMPUTE (hook_HookStateCount hook)
   < COMPUTE (wrap32 (hook_HookStateCount hook + 1)) ->
   acct_Balance sle < accountReserve (wrap32 (acct_OwnerCount sle + 1)) ->
   r = (tecINSUFFICIENT_RESERVE, view)).
Proof.
  intros Hacc Hhook r. subst r. unfold setHookState. rewrite Hacc, Hhook.
  split; [| split].
  - intros Hbig. apply Z.ltb_lt in Hbig. by rewrite Hbig.
  - intros -> Hmax Hnone. change (Z.of_nat (length (@nil byte))) with 0.
    apply Z.ltb_ge in Hmax. rewrite Hmax. change (0 =? 0) with true.
    by rewrite Hnone.
  - intros Hne Hfit Hnone Hcross Hpoor.
    apply Z.ltb_ge in Hfit. rewrite Hfit.
    assert (Hlen : (Z.of_nat (length data) =? 0) = false).
    { apply Z.eqb_neq. destruct data; [done | cbn; lia]. }
    rewrite Hlen, Hnone. apply Z.ltb_lt in Hcross, Hpoor.
    by rewrite Hcross, Hpoor.
Qed.

Lemma setHookState_edges_witness :
  setHookState (allotment 5) reserve poor_hook_ledger A
    (keylet_hook_state A 1) data16
  = (tecINSUFFICIENT_RESERVE, poor_hook_ledger).
Proof.
  apply (setHookState_edges (allotment 5) reserve poor_hook_ledger A
           (keylet_hook_state A 1) data16 (mkAccountRoot 250000 1 0)
           (installed_hook 0)).
  - vm_compute. reflexivity.
  - vm_compute. reflexivity.
  - discriminate.
  - vm_compute. discriminate.
  - vm_compute. reflexivity.
  - vm_compute. reflexivity.
  - vm_compute. reflexivity.
Defined.

(** Replacing the data of an existing entry is a plain overwrite of
    that one entry: the hook's state count, the account root and the
    owner directory stay as they are. *)
Theorem setHookState_replace (COMPUTE : Z -> Z) (accountReserve : Z -> Z)
    (view : View) (acc : AccountID) (k : Keylet) (data : Blob)
    (sle : AccountRoot) (hook : HookSLE) (old : HookStateSLE) :
  peek_account view acc = Some sle ->
  peek_hook view acc = Some hook ->
  peek_hook_state view k = Some old ->
  data <> [] -> Z.of_nat (length data) <= hook_HookDataMaxSize hook ->
  setHookState COMPUTE accountReserve view acc k data
  = (tesSUCCESS, <[k := sle_hook_state (mkHookState data 0)]> view).
Proof.
  intros Hacc Hhook Hold Hne Hfit. unfold setHookState.
  rewrite Hacc, Hhook. apply Z.ltb_ge in Hfit. rewrite Hfit.
  assert (Hlen : (Z.of_nat (length data) =? 0) = false).
  { apply Z.eqb_neq. destruct data; [done | cbn; lia]. }
  rewrite Hlen, Hold. by rewrite insert_delete_eq.
Qed.

Lemma setHookState_replace_witness :
  setHookState (allotment 5) reserve hook_ledger3 A (keylet_hook_state A 2)
    data16
  = (tesSUCCESS,
     <[keylet_hook_state A 2 := sle_hook_state (mkHookState data16 0)]>
       hook_ledger3).
Proof.
  apply (setHookState_replace (allotment 5) reserve hook_ledger3 A
           (keylet_hook_state A 2) data16 (mkAccountRoot 5000000 2 0)
           (installed_hook 3) (mkHookState [x2a] 0)).
  - vm_compute. reflexivity.
  - vm_compute. reflexivity.
  - vm_compute. reflexivity.
  - discriminate.
  - vm_compute. discriminate.
Defined.

Lemma owned_filter_ext (v1 v2 : View) (l : list Keylet) :
  (forall x, x ∈ l ->
     is_Some (peek_hook_state v1 x) <-> is_Some (peek_hook_state v2 x)) ->
  filter (fun x => is_Some (peek_hook_state v1 x)) l
  = filter (fun x => is_Some (peek_hook_state v2 x)) l.
Proof.
  induction l as [| x l IH]; intros H; [done |].
  rewrite !filter_cons.
  assert (Hx := H x (list_elem_of_here x l)).
  rewrite IH by (intros y Hy; apply H; by apply list_elem_of_further).
  destruct (decide (is_Some (peek_hook_state v1 x)));
    destruct (decide (is_Some (peek_hook_state v2 x))); tauto.
Qed.



(** *** The change buffer *)

Lemma cache_find_set_eq (key : Z) (e : bool * Blob) (m : StateCache) :
  cache_find key (cache_set key e m) = Some e.
Proof.
  induction m as [| [k' e'] m IH]; cbn.
  - by rewrite Z.eqb_refl.
  - destruct (key <? k') eqn:Hlt; [cbn; by rewrite Z.eqb_refl |].
    destruct (key =? k') eqn:Heq; cbn.
    + by rewrite Z.eqb_refl.
    + by rewrite Heq.
Qed.

Lemma cache_find_set_ne (key key' : Z) (e : bool * Blob) (m : StateCache) :
  key' <> key -> cache_find key' (cache_set key e m) = cache_find key' m.
Proof.
  intros Hne. induction m as [| [k' e'] m IH]; cbn.
  - by rewrite (proj2 (Z.eqb_neq key' key)).
  - destruct (key <? k') eqn:Hlt; cbn.
    + by rewrite (proj2 (Z.eqb_neq key' key)).
    + destruct (key =? k') eqn:Heq; cbn.
      * apply Z.eqb_eq in Heq. subst k'.
        by rewrite (proj2 (Z.eqb_neq key' key)).
      * by rewrite IH.
Qed.

Lemma modifiedEntries_set_unmodified (key : Z) (b : Blob) (m : StateCache) :
  cache_find key m = None ->
  modifiedEntries (cache_set key (false, b) m) = modifiedEntries m.
Proof.
  unfold modifiedEntries.
  induction m as [| [k' [f' b']] m IH]; cbn [cache_set cache_find];
    intros Hnone.
  - rewrite filter_cons. by rewrite decide_False by (by cbn).
  - destruct (key =? k') eqn:Heq; [done |].
    destruct (key <? k') eqn:Hlt.
    + rewrite (filter_cons _ (key, (false, b))).
      by rewrite decide_False by (by cbn).
    + rewrite !(filter_cons _ (k', (f', b'))). by rewrite IH.
Qed.

Lemma read_memory_length (memory : list byte) (ptr len : Z) (b : list byte) :
  read_memory memory ptr len = Some b -> Z.of_nat (length b) = len.
Proof.
  unfold read_memory, memory_length.
  destruct (_ && _) eqn:Hb; [| done]. intros [= <-].
  apply andb_true_iff in Hb as [Hb H3]. apply andb_true_iff in Hb as [H1 H2].
  apply Z.leb_le in H1, H2, H3.
  rewrite length_take, length_drop. lia.
Qed.

(** *** set_state and get_state *)

Lemma set_state_success_facts (maxHookDataSize : Z) (view : View)
    (hookCtx hookCtx' : HookContext) (memory : list byte)
    (key_ptr data_ptr_in in_len n : Z) :
  set_state maxHookDataSize view hookCtx memory key_ptr data_ptr_in in_len
  = Ok (returned n, hookCtx') ->
  n = in_len /\ in_len <> 0 /\
  exists hook keyBytes blob,
    peek_hook view (account hookCtx) = Some hook /\
    in_len <= hook_HookDataMaxSize hook /\
    read_memory memory key_ptr 32 = Some keyBytes /\
    read_memory memory data_ptr_in in_len = Some blob /\
    Z.of_nat (length blob) = in_len /\
    hookCtx' = with_changedState hookCtx
                 (cache_set (uint256_fromVoid keyBytes) (true, blob)
                    (changedState hookCtx)) /\
    cache_find (uint256_fromVoid keyBytes) (changedState hookCtx')
    = Some (true, blob).
Proof.
  unfold set_state.
  destruct (_ || _); [done |].
  destruct (in_len =? 0) eqn:Hz; [done |]. apply Z.eqb_neq in Hz.
  destruct (peek_hook view (account hookCtx)) as [hook |]; [| done].
  destruct (hook_HookDataMaxSize hook <? in_len) eqn:Hbig; [done |].
  apply Z.ltb_ge in Hbig.
  destruct (read_memory memory key_ptr 32) as [keyBytes |]; [| done].
  destruct (read_memory memory data_ptr_in in_len) as [blob |] eqn:Hread;
    [| done].
  intros [= <- <-]. split; [done |]. split; [done |].
  exists hook, keyBytes, blob. repeat split; try done.
  - by apply read_memory_length in Hread.
  - cbn. apply cache_find_set_eq.
Qed.

(** A [set_state] call that returns a length returns [in_len], which
    is not zero and not above the hook's [sfHookDataMaxSize]; the key is
    the 32 bytes at [key_ptr], the data the [in_len] bytes at
    [data_ptr_in], and the change buffer holds exactly that data for the
    key, marked modified, whatever it held for the key before. *)
Theorem set_state_success (maxHookDataSize : Z) (view : View)
    (hookCtx hookCtx' : HookContext) (memory : list byte)
    (key_ptr data_ptr_in in_len n : Z) :
  set_state maxHookDataSize view hookCtx memory key_ptr data_ptr_in in_len
  = Ok (returned n, hookCtx') ->
  n = in_len /\ in_len <> 0 /\
  exists hook keyBytes blob,
    peek_hook view (account hookCtx) = Some hook /\
    in_len <= hook_HookDataMaxSize hook /\
    read_memory memory key_ptr 32 = Some keyBytes /\
    read_memory memory data_ptr_in in_len = Some blob /\
    Z.of_nat (length blob) = in_len /\
    hookCtx' = with_changedState hookCtx
                 (cache_set (uint256_fromVoid keyBytes) (true, blob)
                    (changedState hookCtx)) /\
    cache_find (uint256_fromVoid keyBytes) (changedState hookCtx')
    = Some (true, blob).
Proof. apply set_state_success_facts. Qed.

Lemma set_state_success_witness :
  16 = 16 /\ 16 <> 0 /\
  exists hook keyBytes blob,
    peek_hook hook_ledger (account (initialContext A)) = Some hook /\
    16 <= hook_HookDataMaxSize hook /\
    read_memory page 0 32 = Some keyBytes /\
    read_memory page 32 16 = Some blob /\
    Z.of_nat (length blob) = 16 /\
    staged_context = with_changedState (initialContext A)
                 (cache_set (uint256_fromVoid keyBytes) (true, blob)
                    (changedState (initialContext A))) /\
    cache_find (uint256_fromVoid keyBytes) (changedState staged_context)
    = Some (true, blob).
Proof.
  apply (set_state_success 128 hook_ledger (initialContext A) staged_context
           page 0 32 16 16).
  vm_compute. reflexivity.
Defined.

Section GetStateProps.

Variable WRITE_WASM_MEMORY_AND_RETURN :
  list byte -> Z -> Z -> Blob -> access (api_return * list byte).

(** Read your own write: after a [set_state] that staged data for the
    key at [key_ptr], a [get_state] for the same [key_ptr] that passes
    its bounds test hands exactly the staged data to the copy into guest
    memory; the ledger is not consulted and the hook context stays as
    [set_state] left it. *)
Theorem get_state_after_set_state (maxHookDataSize : Z) (view : View)
    (hookCtx hookCtx1 : HookContext) (memory : list byte)
    (key_ptr data_ptr_in in_len n data_ptr_out out_len : Z) :
  set_state maxHookDataSize view hookCtx memory key_ptr data_ptr_in in_len
  = Ok (returned n, hookCtx1) ->
  wrap32 (key_ptr + out_len) <= memory_length memory ->
  exists blob,
    read_memory memory data_ptr_in in_len = Some blob /\
    get_state WRITE_WASM_MEMORY_AND_RETURN view hookCtx1 memory key_ptr
      data_ptr_out out_len
    = match WRITE_WASM_MEMORY_AND_RETURN memory data_ptr_out out_len blob with
      | Ok (code, memory') => Ok (code, hookCtx1, memory')
      | OutsideLinearMemory => OutsideLinearMemory
      end.
Proof.
  intros Hset Hbound.
  apply set_state_success_facts in Hset
    as (_ & _ & hook & keyBytes & blob & _ & _ & Hkey & Hdata & _ & _ & Hfind).
  exists blob. split; [done |]. unfold get_state.
  apply Z.ltb_ge in Hbound. rewrite Hbound, Hkey, Hfind. done.
Qed.

(** A [get_state] for a key that is not in the change buffer, on an
    account with a hook: without a HookState entry in the ledger it
    returns [DOESNT_EXIST] and changes nothing; with one it hands the
    entry's data to the copy into guest memory and keeps the data in
    the change buffer, marked not modified. *)
Theorem get_state_cache_miss (view : View) (hookCtx : HookContext)
    (memory : list byte) (key_ptr data_ptr_out out_len : Z)
    (keyBytes : list byte) (hook : HookSLE) :
  wrap32 (key_ptr + out_len) <= memory_length memory ->
  read_memory memory key_ptr 32 = Some keyBytes ->
  let key := uint256_fromVoid keyBytes in
  cache_find key (changedState hookCtx) = None ->
  peek_hook view (account hookCtx) = Some hook ->
  let r := get_state WRITE_WASM_MEMORY_AND_RETURN view hookCtx memory key_ptr
             data_ptr_out out_len in
  (peek_hook_state view (keylet_hook_state (account hookCtx) key) = None ->
   r = Ok (DOESNT_EXIST, hookCtx, memory)) /\
  (forall hs,
     peek_hook_state view (keylet_hook_state (account hookCtx) key) = Some hs ->
     exists hookCtx',
       cache_find key (changedState hookCtx') = Some (false, hs_HookData hs) /\
       (forall key', key' <> key ->
          cache_find key' (changedState hookCtx')
          = cache_find key' (changedState hookCtx)) /\
       r = match WRITE_WASM_MEMORY_AND_RETURN memory data_ptr_out out_len
                   (hs_HookData hs) with
           | Ok (code, memory') => Ok (code, hookCtx', memory')
           | OutsideLinearMemory => OutsideLinearMemory
           end).
Proof.
  intros Hbound Hkey key Hmiss Hhook r. subst r. unfold get_state.
  apply Z.ltb_ge in Hbound. rewrite Hbound, Hkey. fold key.
  rewrite Hmiss, Hhook. split.
  - by intros ->.
  - intros hs ->. eexists. split; [| split; [| reflexivity]].
    + cbn. apply cache_find_set_eq.
    + intros key' Hne. cbn. by apply cache_find_set_ne.
Qed.

Lemma commit_skips_unmodified (COMPUTE : Z -> Z) (accountReserve : Z -> Z)
    (acc : AccountID) (m : StateCache) (e1 : ExitType) (s1 : list byte)
    (c1 : Z) (view : View) :
  commitChangesToLedger COMPUTE accountReserve
    (mkHookContext acc m e1 s1 c1) view
  = commitChangesToLedger COMPUTE accountReserve
      (mkHookContext acc (modifiedEntries m) e1 s1 c1) view.
Proof.
  unfold commitChangesToLedger, modifiedEntries. cbn [changedState account].
  revert view. induction m as [| [key [f b]] m IH]; intros view; [done |].
  rewrite filter_cons. cbn [fst snd fold_left]. destruct f.
  - rewrite decide_True by done. cbn [fold_left]. apply IH.
  - rewrite decide_False by done. apply IH.
Qed.

(** Reading never changes what is committed: whatever [get_state]
    returns, committing the hook context it leaves writes the same
    ledger as committing the context it was given. *)
Theorem get_state_does_not_change_commit (COMPUTE : Z -> Z)
    (accountReserve : Z -> Z) (view ledger : View)
    (hookCtx hookCtx' : HookContext) (memory memory' : list byte)
    (key_ptr data_ptr_out out_len : Z) (code : api_return) :
  get_state WRITE_WASM_MEMORY_AND_RETURN view hookCtx memory key_ptr
    data_ptr_out out_len = Ok (code, hookCtx', memory') ->
  commitChangesToLedger COMPUTE accountReserve hookCtx' ledger
  = commitChangesToLedger COMPUTE accountReserve hookCtx ledger.
Proof.
  unfold get_state.
  destruct (_ <? _); [by intros [= <- <- <-] |].
  destruct (read_memory memory key_ptr 32) as [keyBytes |]; [| done].
  destruct (cache_find _ _) as [cacheEntry |] eqn:Hfind.
  { destruct (WRITE_WASM_MEMORY_AND_RETURN _ _ _ _) as [[c m] |]; [| done].
    by intros [= <- <- <-]. }
  destruct (peek_hook view (account hookCtx)); [| by intros [= <- <- <-]].
  destruct (peek_hook_state view _) as [hs |]; [| by intros [= <- <- <-]].
  destruct (WRITE_WASM_MEMORY_AND_RETURN _ _ _ _) as [[c m] |]; [| done].
  intros [= <- <- <-]. destruct hookCtx as [acc cache e1 s1 c1].
  unfold with_changedState. cbn [account changedState exitType exitReason
                                 exitCode] in *.
  rewrite commit_skips_unmodified.
  rewrite (commit_skips_unmodified _ _ _ cache).
  by rewrite modifiedEntries_set_unmodified.
Qed.

(** The bounds test of [get_state] adds the output length to the key
    pointer; it does not cover the 32 bytes of the key.  A call with a
    key pointer less than 32 bytes before the end of memory and an
    output length that still fits passes the test and reads its key
    outside the linear memory. *)
Theorem get_state_key_outside (view : View) (hookCtx : HookContext)
    (memory : list byte) (key_ptr data_ptr_out out_len : Z) :
  0 <= key_ptr -> 0 <= out_len ->
  key_ptr + out_len <= memory_length memory ->
  memory_length memory < key_ptr + 32 ->
  memory_length memory < 2 ^ 32 ->
  get_state WRITE_WASM_MEMORY_AND_RETURN view hookCtx memory key_ptr
    data_ptr_out out_len = OutsideLinearMemory.
Proof.
  intros Hk Ho Hfit Hout Hlen. unfold get_state.
  rewrite wrap32_small by lia.
  destruct (_ <? _) eqn:Hb; [apply Z.ltb_lt in Hb; lia |].
  unfold read_memory.
  assert (H32 : (0 <=? key_ptr) && (0 <=? 32)
                && (key_ptr + 32 <=? memory_length memory) = false).
  { apply andb_false_iff. right. apply Z.leb_gt. lia. }
  by rewrite H32.
Qed.

End GetStateProps.

Lemma get_state_after_set_state_witness :
  exists blob,
    read_memory page 32 16 = Some blob /\
    get_state (fun m _ _ b => Ok (returned (Z.of_nat (length b)), m))
      hook_ledger staged_context page 0 64 16
    = match (fun m _ _ b => Ok (returned (Z.of_nat (length b)), m))
              page 64 16 blob with
      | Ok (code, memory') => Ok (code, staged_context, memory')
      | OutsideLinearMemory => OutsideLinearMemory
      end.
Proof.
  apply (get_state_after_set_state
           (fun m _ _ b => Ok (returned (Z.of_nat (length b)), m))
           128 hook_ledger (initialContext A) staged_context page 0 32 16 16
           64 16).
  - vm_compute. reflexivity.
  - vm_compute. discriminate.
Defined.

Lemma get_state_cache_miss_witness :
  get_state (fun m _ _ b => Ok (returned (Z.of_nat (length b)), m))
    hook_ledger (initialContext A) page 0 64 16
  = Ok (DOESNT_EXIST, initialContext A, page).
Proof.
  apply (get_state_cache_miss
           (fun m _ _ b => Ok (returned (Z.of_nat (length b)), m))
           hook_ledger (initialContext A) page 0 64 16
           (repeat x00 31 ++ [x01]) (installed_hook 0)).
  - vm_compute. discriminate.
  - vm_compute. reflexivity.
  - reflexivity.
  - vm_compute. reflexivity.
  - vm_compute. reflexivity.
Defined.

Lemma page_length : memory_length page = 65536.
Proof. by vm_compute. Qed.

Lemma page_key : read_memory page 0 32 = Some (repeat x00 31 ++ [x01]).
Proof. by vm_compute. Qed.

Lemma get_state_does_not_change_commit_witness :
  commitChangesToLedger (allotment 5) reserve
    (mkHookContext A [(1, (false, [x2a]))] ROLLBACK [] (-1)) hook_ledger3
  = commitChangesToLedger (allotment 5) reserve (initialContext A) hook_ledger3.
Proof.
  apply (get_state_does_not_change_commit
           (fun m _ _ b => Ok (returned (Z.of_nat (length b)), m))
           (allotment 5) reserve hook_ledger3 hook_ledger3 (initialContext A)
           (mkHookContext A [(1, (false, [x2a]))] ROLLBACK [] (-1))
           page page 0 64 16 (returned 1)).
  unfold get_state. rewrite page_length, page_key. reflexivity.
Defined.

Lemma get_state_key_outside_witness :
  get_state (fun m _ _ b => Ok (returned (Z.of_nat (length b)), m))
    hook_ledger (initialContext A) page 65535 0 1
  = OutsideLinearMemory.
Proof.
  apply (get_state_key_outside
           (fun m _ _ b => Ok (returned (Z.of_nat (length b)), m))
           hook_ledger (initialContext A) page 65535 0 1).
  - discriminate.
  - discriminate.
  - vm_compute. discriminate.
  - vm_compute. reflexivity.
  - vm_compute. reflexivity.
Defined.

(** *** hook::apply *)

Lemma set_state_keeps_exit (maxHookDataSize : Z) (view : View)
    (hookCtx hookCtx' : HookContext) (memory : list byte)
    (key_ptr data_ptr_in in_len : Z) (code : api_return) :
  set_state maxHookDataSize view hookCtx memory key_ptr data_ptr_in in_len
  = Ok (code, hookCtx') ->
  exitType hookCtx' = exitType hookCtx /\ account hookCtx' = account hookCtx.
Proof.
  unfold set_state. repeat case_match; intros [= <- <-]; done.
Qed.

Lemma get_state_keeps_exit
    (W : list byte -> Z -> Z -> Blob -> access (api_return * list byte))
    (view : View) (hookCtx hookCtx' : HookContext) (memory memory' : list byte)
    (key_ptr data_ptr_out out_len : Z) (code : api_return) :
  get_state W view hookCtx memory key_ptr data_ptr_out out_len
  = Ok (code, hookCtx', memory') ->
  exitType hookCtx' = exitType hookCtx /\ account hookCtx' = account hookCtx.
Proof.
  unfold get_state. repeat case_match; intros [= <- <- <-]; done.
Qed.

Lemma exit_context (hookCtx hookCtx' : HookContext) (memory : list byte)
    (error_code data_ptr_in in_len : Z) (e : ExitType) :
  _exit hookCtx memory error_code data_ptr_in in_len e = Ok (inr hookCtx') ->
  account hookCtx' = account hookCtx /\
  changedState hookCtx' = changedState hookCtx /\
  exitType hookCtx' = e.
Proof.
  unfold _exit. repeat case_match; intros [= <-]; done.
Qed.

(** The change buffer stays ordered. *)
Lemma cache_set_above (lo key : Z) (e : bool * Blob)
    (m : list (Z * (bool * Blob))) :
  lo < key -> Forall (fun x => lo < fst x) m ->
  Forall (fun x => lo < fst x) (cache_set key e m).
Proof.
  intros Hlo. induction m as [| [k' e'] r IH]; intros Hall; cbn [cache_set].
  - by constructor.
  - inversion Hall as [| ? ? Hk Hr]; subst.
    destruct (key <? k'); [by constructor |].
    destruct (key =? k'); [by constructor |].
    constructor; [done | by apply IH].
Qed.

Lemma cache_set_ascending (key : Z) (e : bool * Blob)
    (m : list (Z * (bool * Blob))) :
  ascending_keys m -> ascending_keys (cache_set key e m).
Proof.
  induction m as [| [k' e'] r IH]; cbn [cache_set ascending_keys].
  - intros _. split; [constructor | done].
  - intros [Hall Hr]. cbn [fst] in Hall.
    destruct (key <? k') eqn:Hlt.
    + apply Z.ltb_lt in Hlt. cbn [ascending_keys fst]. split; [| done].
      constructor; [done |].
      eapply Forall_impl; [exact Hall |]. cbn. intros; lia.
    + destruct (key =? k') eqn:Heq.
      * apply Z.eqb_eq in Heq. subst. by cbn [ascending_keys fst].
      * cbn [ascending_keys fst]. split; [| by apply IH].
        apply Z.ltb_ge in Hlt. apply Z.eqb_neq in Heq.
        apply cache_set_above; [lia | done].
Qed.


Lemma set_state_well_staged (maxHookDataSize : Z) (view : View)
    (hookCtx hookCtx' : HookContext) (memory : list byte)
    (key_ptr data_ptr_in in_len : Z) (code : api_return) :
  set_state maxHookDataSize view hookCtx memory key_ptr data_ptr_in in_len
  = Ok (code, hookCtx') ->
  well_staged view (account hookCtx) (changedState hookCtx) ->
  well_staged view (account hookCtx) (changedState hookCtx').
Proof.
  unfold set_state. intros H Hws.
  destruct (_ || _); [by injection H as <- <- |].
  destruct (in_len =? 0) eqn:Hz; [by injection H as <- <- |].
  apply Z.eqb_neq in Hz.
  destruct (peek_hook view (account hookCtx)) as [hook |] eqn:Hh;
    [| by injection H as <- <-].
  destruct (hook_HookDataMaxSize hook <? in_len) eqn:Hbig;
    [by injection H as <- <- |].
  apply Z.ltb_ge in Hbig.
  destruct (read_memory memory key_ptr 32) as [keyBytes |]; [| done].
  destruct (read_memory memory data_ptr_in in_len) as [blob |] eqn:Hread;
    [| done].
  injection H as <- <-. cbn [with_changedState changedState].
  destruct Hws as [Hasc Hst]. split; [by apply cache_set_ascending |].
  intros key b Hf.
  destruct (decide (key = uint256_fromVoid keyBytes)) as [-> | Hne].
  - rewrite cache_find_set_eq in Hf. injection Hf as <-.
    apply read_memory_length in Hread. split.
    + intros ->. cbn in Hread. lia.
    + exists hook. split; [done | lia].
  - rewrite cache_find_set_ne in Hf by done. by apply (Hst key).
Qed.

Lemma get_state_well_staged
    (W : list byte -> Z -> Z -> Blob -> access (api_return * list byte))
    (view : View) (hookCtx hookCtx' : HookContext) (memory memory' : list byte)
    (key_ptr data_ptr_out out_len : Z) (code : api_return) :
  get_state W view hookCtx memory key_ptr data_ptr_out out_len
  = Ok (code, hookCtx', memory') ->
  well_staged view (account hookCtx) (changedState hookCtx) ->
  well_staged view (account hookCtx) (changedState hookCtx').
Proof.
  unfold get_state. intros H Hws.
  destruct (_ <? _); [by injection H as <- <- <- |].
  destruct (read_memory memory key_ptr 32) as [keyBytes |]; [| done].
  destruct (cache_find _ _) as [e |] eqn:Hc.
  { destruct (W _ _ _ _) as [[c m'] |]; [| done]. by injection H as <- <- <-. }
  destruct (peek_hook _ _); [| by injection H as <- <- <-].
  destruct (peek_hook_state _ _) as [hs |]; [| by injection H as <- <- <-].
  destruct (W _ _ _ _) as [[c m'] |]; [| done]. injection H as <- <- <-.
  cbn [with_changedState changedState].
  destruct Hws as [Hasc Hst]. split; [by apply cache_set_ascending |].
  intros key b Hf.
  destruct (decide (key = uint256_fromVoid keyBytes)) as [-> | Hne].
  - by rewrite cache_find_set_eq in Hf.
  - rewrite cache_find_set_ne in Hf by done. by apply (Hst key).
Qed.

(** Every run keeps the account of its context and leaves a change
    buffer that is well staged. *)
Lemma wasmer_instance_call_well_staged (maxHookDataSize : Z)
    (W : list byte -> Z -> Z -> Blob -> access (api_return * list byte))
    (view : View) (code : GuestCode) :
  forall (memory : list byte) (hookCtx hookCtx' : HookContext),
  wasmer_instance_call maxHookDataSize W view memory code hookCtx
  = Ok hookCtx' ->
  well_staged view (account hookCtx) (changedState hookCtx) ->
  account hookCtx' = account hookCtx /\
  well_staged view (account hookCtx) (changedState hookCtx').
Proof.
  induction code as [| ptr bytes next IH | c next IH];
    intros memory hookCtx hookCtx'; cbn [wasmer_instance_call].
  - by intros [= <-].
  - destruct (write_memory _ _ _); [apply IH | by intros [= <-]].
  - destruct c as [ptr n | kp dp n | kp dp n | ec p n | ec p n | ec p n].
    + destruct (output_dbg _ _ _) as [[ret out] |]; [apply IH | done].
    + destruct (set_state _ _ _ _ _ _ _) as [[ret ctx1] |] eqn:Hs; [| done].
      intros Hrun Hws.
      pose proof (set_state_well_staged _ _ _ _ _ _ _ _ _ Hs Hws) as Hws1.
      apply set_state_keeps_exit in Hs as [_ Ha]. rewrite <- Ha in *.
      by apply (IH _ _ _ _ _ Hrun).
    + destruct (get_state _ _ _ _ _ _ _) as [[[ret ctx1] memory1] |] eqn:Hg;
        [| done].
      intros Hrun Hws.
      pose proof (get_state_well_staged _ _ _ _ _ _ _ _ _ _ Hg Hws) as Hws1.
      apply get_state_keeps_exit in Hg as [_ Ha]. rewrite <- Ha in *.
      by apply (IH _ _ _ _ _ Hrun).
    + unfold accept.
      destruct (_exit _ _ _ _ _ _) as [[ret | ctx1] |] eqn:He; [| | done].
      * apply IH.
      * intros [= <-] Hws. apply exit_context in He as (Ha & Hc & _).
        by rewrite Ha, Hc.
    + unfold reject.
      destruct (_exit _ _ _ _ _ _) as [[ret | ctx1] |] eqn:He; [| | done].
      * apply IH.
      * intros [= <-] Hws. apply exit_context in He as (Ha & Hc & _).
        by rewrite Ha, Hc.
    + unfold rollback.
      destruct (_exit _ _ _ _ _ _) as [[ret | ctx1] |] eqn:He; [| | done].
      * apply IH.
      * intros [= <-] Hws. apply exit_context in He as (Ha & Hc & _).
        by rewrite Ha, Hc.
Qed.

Lemma initial_well_staged (view : View) (acc : AccountID) :
  well_staged view (account (initialContext acc))
    (changedState (initialContext acc)).
Proof. split; [done |]. by intros key blob. Qed.

Lemma wasmer_instance_call_keeps_exit (maxHookDataSize : Z)
    (W : list byte -> Z -> Z -> Blob -> access (api_return * list byte))
    (view : View) (code : GuestCode) :
  forall (memory : list byte) (hookCtx hookCtx' : HookContext),
  makes_no_exit_call code ->
  wasmer_instance_call maxHookDataSize W view memory code hookCtx
  = Ok hookCtx' ->
  exitType hookCtx' = exitType hookCtx.
Proof.
  induction code as [| ptr bytes next IH | c next IH];
    intros memory hookCtx hookCtx'; cbn [wasmer_instance_call makes_no_exit_call].
  - by intros _ [= <-].
  - destruct (write_memory _ _ _); [apply IH | by intros _ [= <-]].
  - intros [Hc Hnext].
    destruct c as [ptr n | kp dp n | kp dp n | ec p n | ec p n | ec p n];
      try discriminate Hc.
    + destruct (output_dbg _ _ _) as [[ret out] |]; [| done].
      by apply IH.
    + destruct (set_state _ _ _ _ _ _ _) as [[ret ctx1] |] eqn:Hs; [| done].
      intros Hrun. apply IH in Hrun; [| done].
      apply set_state_keeps_exit in Hs as [Hs _]. congruence.
    + destruct (get_state _ _ _ _ _ _ _) as [[[ret ctx1] memory1] |] eqn:Hg;
        [| done].
      intros Hrun. apply IH in Hrun; [| done].
      apply get_state_keeps_exit in Hg as [Hg _]. congruence.
Qed.

(** A guest that never calls [accept], [reject] or [rollback]
    changes nothing: when its run stays inside the linear memory,
    whatever it read, printed or staged, the transaction fails with
    [terNO_AUTH] and the view is the one [hook::apply] was given. *)
Theorem apply_hook_without_exit (COMPUTE : Z -> Z) (maxHookDataSize : Z)
    (accountReserve : Z -> Z)
    (W : list byte -> Z -> Z -> Blob -> access (api_return * list byte))
    (wasmer_instantiate : Blob -> option Guest)
    (hook : Blob) (view : View) (acc : AccountID) (instance : Guest)
    (hookCtx : HookContext) :
  wasmer_instantiate hook = Some instance ->
  makes_no_exit_call (guest_code instance) ->
  wasmer_instance_call maxHookDataSize W view (guest_memory instance)
    (guest_code instance) (initialContext acc) = Ok hookCtx ->
  apply_hook COMPUTE maxHookDataSize accountReserve W wasmer_instantiate hook
    view acc = Ok (terNO_AUTH, view).
Proof.
  intros Hinst Hall Hrun. unfold apply_hook. rewrite Hinst, Hrun.
  apply (wasmer_instance_call_keeps_exit _ _ _ _ _ _ _ Hall) in Hrun.
  cbn [initialContext exitType] in Hrun. by rewrite Hrun.
Qed.

Lemma apply_hook_without_exit_witness :
  apply_hook (allotment 5) 128 reserve copy_out (instantiate returning_guest)
    wasm hook_ledger A = Ok (terNO_AUTH, hook_ledger).
Proof.
  apply (apply_hook_without_exit (allotment 5) 128 reserve copy_out
           (instantiate returning_guest) wasm hook_ledger A returning_guest
           staged_context).
  - reflexivity.
  - cbn. auto.
  - vm_compute. reflexivity.
Defined.

(** The status of a commit is dropped.  A hook accepts after staging
    one new entry; the hook's allotment is used up and the account's
    balance does not meet the reserve for one more owned entry.
    [setHookState] refuses the entry, and [hook::apply] still returns
    [tesSUCCESS], with the view unchanged: the accepted write is
    lost without a trace in the status. *)
Theorem apply_hook_accept_drops_failed_write (COMPUTE : Z -> Z)
    (maxHookDataSize : Z) (accountReserve : Z -> Z)
    (W : list byte -> Z -> Z -> Blob -> access (api_return * list byte))
    (wasmer_instantiate : Blob -> option Guest) (hook : Blob) (view : View)
    (acc : AccountID) (instance : Guest) (hookCtx : HookContext)
    (key : Z) (blob : Blob) (sle : AccountRoot) (h : HookSLE) :
  wasmer_instantiate hook = Some instance ->
  wasmer_instance_call maxHookDataSize W view (guest_memory instance)
    (guest_code instance) (initialContext acc) = Ok hookCtx ->
  exitType hookCtx = ACCEPT ->
  changedState hookCtx = [(key, (true, blob))] ->
  peek_account view acc = Some sle ->
  peek_hook view acc = Some h ->
  blob <> [] -> Z.of_nat (length blob) <= hook_HookDataMaxSize h ->
  peek_hook_state view (keylet_hook_state acc key) = None ->
  COMPUTE (hook_HookStateCount h) < COMPUTE (wrap32 (hook_HookStateCount h + 1)) ->
  acct_Balance sle < accountReserve (wrap32 (acct_OwnerCount sle + 1)) ->
  apply_hook COMPUTE maxHookDataSize accountReserve W wasmer_instantiate hook
    view acc = Ok (tesSUCCESS, view).
Proof.
  intros Hinst Hrun Hexit Hbuf Hacc Hhook Hne Hfit Hnone Hcross Hpoor.
  unfold apply_hook. rewrite Hinst, Hrun, Hexit. cbn.
  unfold commitChangesToLedger. rewrite Hbuf. cbn [fold_left].
  apply wasmer_instance_call_well_staged in Hrun as [Hrun _];
    [| apply initial_well_staged].
  cbn in Hrun. rewrite Hrun.
  by rewrite (setHookState_reserve_short _ _ _ _ _ _ sle h).
Qed.

Lemma apply_hook_accept_drops_failed_write_witness :
  apply_hook (allotment 5) 128 reserve copy_out (instantiate accepting_guest)
    wasm poor_hook_ledger A = Ok (tesSUCCESS, poor_hook_ledger).
Proof.
  apply (apply_hook_accept_drops_failed_write (allotment 5) 128 reserve
           copy_out (instantiate accepting_guest) wasm poor_hook_ledger A
           accepting_guest
           (mkHookContext A [(1, (true, data16))] ACCEPT [] 0)
           1 data16 (mkAccountRoot 250000 1 0) (installed_hook 0)).
  - reflexivity.
  - vm_compute. reflexivity.
  - reflexivity.
  - reflexivity.
  - vm_compute. reflexivity.
  - vm_compute. reflexivity.
  - discriminate.
  - vm_compute. discriminate.
  - vm_compute. reflexivity.
  - vm_compute. reflexivity.
  - vm_compute. reflexivity.
Defined.

(** *** SetHook::setHook *)

Lemma dirRemove_lookup_ne (v v1 : View) (dir : Keylet) (page : Z)
    (key k : Keylet) (keepRoot : bool) :
  dirRemove v dir page key keepRoot = Some v1 ->
  k <> dir -> v1 !! k = v !! k.
Proof.
  unfold dirRemove. intros H Hne.
  destruct (v !! dir) as [[] |] eqn:Hd; try done.
  destruct (_ && _); [| done].
  destruct (remove_first key indexes); [destruct keepRoot |];
    injection H as <-.
  - by rewrite lookup_insert_ne.
  - by rewrite lookup_delete_ne.
  - by rewrite lookup_insert_ne.
Qed.

Lemma removeHookFromLedger_facts (view : View) (acc : AccountID) :
  fst (removeHookFromLedger view acc) = tesSUCCESS ->
  peek_hook (snd (removeHookFromLedger view acc)) acc = None /\
  (forall k, k <> keylet_hook acc -> k <> keylet_ownerDir acc ->
     snd (removeHookFromLedger view acc) !! k = view !! k).
Proof.
  unfold removeHookFromLedger.
  destruct (peek_hook view acc) as [h |] eqn:Hh.
  2: { intros _. by cbn [snd]. }
  destruct (dirRemove _ _ _ _ _) as [view1 |] eqn:Hd; [| done].
  intros _. cbn [snd]. split.
  - unfold peek_hook. by rewrite lookup_delete_eq.
  - intros k Hk1 Hk2. rewrite lookup_delete_ne by done.
    by apply (dirRemove_lookup_ne _ _ _ _ _ k _ Hd).
Qed.



(** Removing a hook.  A successful [setHook] with empty code on an
    account that has a hook erases the Hook entry and gives back the
    owner count of its reserve units; no HookState entry is touched, so
    the hook's state entries stay in the ledger while the entry that
    carried their count is gone. *)
Theorem setHook_remove (maxHookDataSize : Z) (accountReserve : Z -> Z)
    (view : View) (account_ : AccountID) (mPriorBalance hookOn_ : Z)
    (h : HookSLE) :
  peek_hook view account_ = Some h ->
  let r := setHook maxHookDataSize accountReserve view account_ mPriorBalance
             [] hookOn_ in
  fst r = tesSUCCESS ->
  peek_hook (snd r) account_ = None /\
  (exists sle,
     peek_account view account_ = Some sle /\
     peek_account (snd r) account_
     = Some (mkAccountRoot (acct_Balance sle)
               (confineOwnerCount (acct_OwnerCount sle)
                  (- hook_HookReserveCount h))
               (acct_Flags sle))) /\
  (forall a, a <> account_ -> peek_account (snd r) a = peek_account view a) /\
  (forall a key, snd r !! keylet_hook_state a key
                 = view !! keylet_hook_state a key).
Proof.
  intros Hh r. subst r. unfold setHook. rewrite Hh.
  rewrite (bool_decide_eq_true_2 (is_Some (Some h))) by eauto.
  cbn [andb negb]. rewrite andb_false_r.
  destruct (negb (isTesSuccess (removeHookFromLedger view account_).1))
    eqn:Hrm.
  { intros Hok. rewrite Hok in Hrm. done. }
  apply negb_false_iff, isTesSuccess_true in Hrm.
  destruct (removeHookFromLedger_facts view account_ Hrm) as [Hgone Hsame].
  set (view1 := (removeHookFromLedger view account_).2) in *.
  assert (Hacc1 : forall a, peek_account view1 a = peek_account view a).
  { intros a. unfold peek_account. by rewrite Hsame. }
  destruct (peek_account view1 account_) as [sle |] eqn:Hsle; [| done].
  destruct (mPriorBalance <? _) eqn:Hres; [done |].
  rewrite (bool_decide_eq_true_2 (@nil byte = [])) by done.
  cbn [negb fst snd]. intros _. unfold adjustOwnerCount. rewrite Hsle.
  change (Z.of_nat (length (@nil byte))) with 0.
  change (ceil_div 0 (5 * maxHookDataSize)) with (- (0 / (5 * maxHookDataSize))).
  rewrite Zdiv_0_l, Z.sub_0_l.
  split.
  { unfold peek_hook. rewrite lookup_insert_ne by done. exact Hgone. }
  split.
  { exists sle. rewrite <- Hacc1. split; [done |].
    apply PayChanProps.peek_account_insert_eq. }
  split.
  { intros a Ha. rewrite PayChanProps.peek_account_insert_ne by congruence.
    apply Hacc1. }
  intros a key. rewrite lookup_insert_ne by done. by apply Hsame.
Qed.

Lemma setHook_remove_witness :
  peek_hook (snd (setHook 128 reserve hook_ledger3 A 5000000 [] 0)) A = None.
Proof.
  apply (setHook_remove 128 reserve hook_ledger3 A 5000000 0 (installed_hook 3)).
  - vm_compute. reflexivity.
  - vm_compute. reflexivity.
Defined.

(** *** SetHook::destroyEntireHookState *)

Lemma destroy_loop_keeps_absent (entries : list Keylet) (view : View)
    (dir k : Keylet) :
  k <> dir -> view !! k = None ->
  snd (destroy_loop view dir entries) !! k = None.
Proof.
  intros Hk. revert view.
  induction entries as [| e rest IH]; intros view Hnone; [done |].
  cbn [destroy_loop].
  destruct (view !! e) as [sleItem |] eqn:Hitem; [| done].
  case_bool_decide as Htype; [| by apply IH].
  destruct (dirRemove _ _ _ _ _) as [view1 |] eqn:Hdir; [| done].
  apply IH. destruct (decide (k = e)) as [-> | Hne].
  - by rewrite lookup_delete_eq.
  - rewrite lookup_delete_ne by done.
    by rewrite (dirRemove_lookup_ne _ _ _ _ _ k _ Hdir).
Qed.

Lemma destroy_loop_keeps_others (entries : list Keylet) (view : View)
    (dir k : Keylet) :
  k <> dir ->
  (~ In k entries \/
   exists s, view !! k = Some s /\ sfLedgerEntryType s <> ltHOOK_STATE) ->
  snd (destroy_loop view dir entries) !! k = view !! k.
Proof.
  intros Hk. revert view.
  induction entries as [| e rest IH]; intros view Hcase; [done |].
  cbn [destroy_loop].
  destruct (view !! e) as [sleItem |] eqn:Hitem; [| done].
  case_bool_decide as Htype.
  - destruct (dirRemove _ _ _ _ _) as [view1 |] eqn:Hdir; [| done].
    assert (Hne : k <> e).
    { destruct Hcase as [Hnot | (s & Hs & Hty)].
      - intros ->. apply Hnot. by left.
      - intros ->. rewrite Hitem in Hs. by simplify_eq. }
    assert (Hsame : delete e view1 !! k = view !! k).
    { rewrite lookup_delete_ne by done.
      by rewrite (dirRemove_lookup_ne _ _ _ _ _ k _ Hdir). }
    rewrite <- Hsame. apply IH.
    destruct Hcase as [Hnot | (s & Hs & Hty)].
    + left. intros Hin. apply Hnot. by right.
    + right. exists s. by rewrite Hsame.
  - apply IH. destruct Hcase as [Hnot | Hs]; [| by right].
    left. intros Hin. apply Hnot. by right.
Qed.

Lemma destroy_loop_erases (entries : list Keylet) (view : View)
    (dir k : Keylet) (s : SLE) :
  fst (destroy_loop view dir entries) = tesSUCCESS ->
  k <> dir -> In k entries ->
  view !! k = Some s -> sfLedgerEntryType s = ltHOOK_STATE ->
  snd (destroy_loop view dir entries) !! k = None.
Proof.
  intros Hok Hk. revert view Hok.
  induction entries as [| e rest IH]; intros view Hok Hin Hs Hty; [done |].
  cbn [destroy_loop] in *.
  destruct (view !! e) as [sleItem |] eqn:Hitem; [| done].
  case_bool_decide as Htype.
  - destruct (dirRemove _ _ _ _ _) as [view1 |] eqn:Hdir; [| done].
    destruct (decide (k = e)) as [-> | Hne].
    + apply destroy_loop_keeps_absent; [done |]. by rewrite lookup_delete_eq.
    + destruct Hin as [-> | Hin]; [done |].
      apply IH; [done | done | | done].
      rewrite lookup_delete_ne by done.
      by rewrite (dirRemove_lookup_ne _ _ _ _ _ k _ Hdir).
  - destruct Hin as [-> | Hin].
    + rewrite Hitem in Hs. by simplify_eq.
    + by apply IH.
Qed.

(** The bulk teardown.  When [destroyEntireHookState] succeeds on an
    account whose owner directory lists [entries], every listed index
    that held a HookState entry is erased from the ledger, and every
    entry other than the directory itself that is not listed, or is of
    another type (a payment channel, the account root), is left as it
    was. *)
Theorem destroyEntireHookState_erases_listed_states (view : View)
    (acc : AccountID) (entries : list Keylet) :
  view !! keylet_ownerDir acc = Some (sle_dir entries) ->
  fst (destroyEntireHookState view acc) = tesSUCCESS ->
  (forall k s, In k entries -> view !! k = Some s ->
     sfLedgerEntryType s = ltHOOK_STATE ->
     snd (destroyEntireHookState view acc) !! k = None) /\
  (forall k, k <> keylet_ownerDir acc ->
     (~ In k entries \/
      exists s, view !! k = Some s /\ sfLedgerEntryType s <> ltHOOK_STATE) ->
     snd (destroyEntireHookState view acc) !! k = view !! k).
Proof.
  intros Hdir. unfold destroyEntireHookState, dirIsEmpty, cdirFirst.
  rewrite Hdir. destruct entries as [| e rest].
  { intros _. split; [intros k s [] | done]. }
  intros Hok. split.
  - intros k s Hin Hs Hty.
    apply (destroy_loop_erases _ _ _ _ s); try done.
    intros ->. rewrite Hdir in Hs. by simplify_eq.
  - intros k Hk Hcase. by apply destroy_loop_keeps_others.
Qed.

Lemma destroyEntireHookState_erases_listed_states_witness :
  snd (destroyEntireHookState orphan_ledger A) !! keylet_hook_state A 2 = None.
Proof.
  refine (proj1 (destroyEntireHookState_erases_listed_states orphan_ledger A
                   [keylet_hook_state A 1; keylet_hook_state A 2;
                    keylet_hook_state A 3] _ _)
            (keylet_hook_state A 2) state_entry _ _ _).
  - vm_compute. reflexivity.
  - vm_compute. reflexivity.
  - right. left. reflexivity.
  - vm_compute. reflexivity.
  - reflexivity.
Defined.

(** *** hook_api::output_dbg *)

Lemma dbg_loop_inside (memory : list byte) (ptr : Z) (n : nat) (i : Z) :
  0 <= ptr -> 0 <= i ->
  ptr + i + Z.of_nat n <= memory_length memory ->
  memory_length memory <= 2 ^ 32 ->
  dbg_loop memory ptr i n
  = Ok (firstn n (skipn (Z.to_nat (ptr + i)) memory)).
Proof.
  intros Hp. revert i. induction n as [| n IH]; intros i Hi Hin Hmem; [done |].
  cbn [dbg_loop]. rewrite wrap32_small by lia.
  unfold read_memory.
  replace ((0 <=? ptr + i) && (0 <=? 1)
           && (ptr + i + 1 <=? memory_length memory)) with true
    by (symmetry; rewrite !andb_true_iff, !Z.leb_le; lia).
  rewrite IH by lia.
  replace (Z.to_nat (ptr + (i + 1))) with (Z.to_nat (ptr + i) + 1)%nat by lia.
  f_equal. change (Z.to_nat 1) with 1%nat.
  rewrite <- drop_drop.
  unfold memory_length in Hin.
  assert (Hlen : (0 < length (drop (Z.to_nat (ptr + i)) memory))%nat)
    by (rewrite length_drop; lia).
  destruct (drop (Z.to_nat (ptr + i)) memory) as [| c rest]; [cbn in Hlen; lia |].
  reflexivity.
Qed.

Lemma dbg_loop_outside (memory : list byte) (ptr : Z) (n : nat) (i : Z) :
  0 <= ptr -> 0 <= i -> (0 < n)%nat ->
  memory_length memory < ptr + i + Z.of_nat n ->
  ptr + i + Z.of_nat n <= 2 ^ 32 ->
  dbg_loop memory ptr i n = OutsideLinearMemory.
Proof.
  intros Hp. revert i. induction n as [| n IH]; intros i Hi Hn Hout Hmax; [lia |].
  cbn [dbg_loop]. rewrite wrap32_small by lia.
  destruct (read_memory memory (ptr + i) 1) as [c |] eqn:Hread; [| done].
  unfold read_memory in Hread.
  destruct (_ && _) eqn:Hb; [| done].
  rewrite !andb_true_iff, !Z.leb_le in Hb.
  rewrite IH; [done | lia | lia | lia | lia].
Qed.

(** [output_dbg] returns the requested length capped at 1024, which is
    also the number of bytes it prints when the range lies in linear
    memory; it has no bounds test of its own, so a range that runs past
    the end of linear memory is read outside it. *)
Theorem output_dbg_bounds (memory : list byte) (ptr len : Z) :
  0 <= ptr -> 0 <= len ->
  memory_length memory <= 2 ^ 32 ->
  let n := Z.min len 1024 in
  (ptr + n <= memory_length memory ->
   output_dbg memory ptr len
   = Ok (returned n, firstn (Z.to_nat n) (skipn (Z.to_nat ptr) memory))) /\
  (0 < Z.min n (memory_length memory) ->
   memory_length memory < ptr + Z.min n (memory_length memory) ->
   ptr + n <= 2 ^ 32 ->
   output_dbg memory ptr len = OutsideLinearMemory).
Proof.
  intros Hp Hl Hmem n. unfold output_dbg.
  assert (Hcap : (if 1024 <? len then 1024 else len) = n).
  { subst n. destruct (1024 <? len) eqn:Hc;
      [apply Z.ltb_lt in Hc | apply Z.ltb_ge in Hc]; lia. }
  rewrite Hcap. split.
  - intros Hin.
    rewrite dbg_loop_inside; [| lia | lia | lia | lia].
    rewrite Z.add_0_r. do 3 f_equal. lia.
  - intros Hpos Hout Hmax.
    rewrite dbg_loop_outside; [done | lia | lia | lia | lia | lia].
Qed.

Lemma output_dbg_bounds_witness :
  output_dbg data16 0 4 = Ok (returned 4, [x10; x11; x12; x13]) /\
  output_dbg data16 10 2000 = OutsideLinearMemory.
Proof.
  split.
  - apply (output_dbg_bounds data16 0 4); vm_compute; congruence.
  - apply (output_dbg_bounds data16 10 2000); vm_compute; congruence.
Defined.

End HookProps.

(** ** The commit discipline of hook::apply *)

Module HookCommit.

Import Hook HookApi Scenarios MoreScenarios HookProps.







End HookCommit.

(** ** SetHook and the state count *)

Module SetHookFacts.

Import Hook HookApi Scenarios MoreScenarios HookProps.

Lemma dirRemove_spec (v v1 : View) (dir : Keylet) (page : Z) (key : Keylet) :
  dirRemove v dir page key false = Some v1 ->
  exists l, v !! dir = Some (sle_dir l) /\
    v1 = match remove_first key l with
         | [] => delete dir v
         | l' => <[dir := sle_dir l']> v
         end.
Proof.
  unfold dirRemove.
  destruct (v !! dir) as [[] |]; try done.
  destruct (_ && _); [| done]. intros H. eexists. split; [done |].
  destruct (remove_first key indexes); by injection H as <-.
Qed.

Lemma filter_remove_first (P : Keylet -> Prop) `{!forall k, Decision (P k)}
    (key : Keylet) (l : list Keylet) :
  ~ P key -> filter P (remove_first key l) = filter P l.
Proof.
  intros Hkey. induction l as [| x l IH]; [done |]. cbn [remove_first].
  destruct (decide (x = key)) as [-> | Hne].
  - by rewrite filter_cons, decide_False.
  - by rewrite !filter_cons, IH.
Qed.

(** What a successful removal of a hook leaves: no Hook entry, the
    owner directory without the hook's index (erased when that was its
    only index), an account root, and every other entry as it was. *)
Lemma setHook_remove_view (maxHookDataSize : Z) (accountReserve : Z -> Z)
    (view : View) (account_ : AccountID) (mPriorBalance hookOn_ : Z)
    (h : HookSLE) :
  peek_hook view account_ = Some h ->
  let r := setHook maxHookDataSize accountReserve view account_ mPriorBalance
             [] hookOn_ in
  fst r = tesSUCCESS ->
  exists l,
    view !! keylet_ownerDir account_ = Some (sle_dir l) /\
    is_Some (peek_account view account_) /\
    snd r !! keylet_hook account_ = None /\
    snd r !! keylet_ownerDir account_
    = match remove_first (keylet_hook account_) l with
      | [] => None
      | l' => Some (sle_dir l')
      end /\
    is_Some (peek_account (snd r) account_) /\
    (forall k, k <> keylet_hook account_ -> k <> keylet_ownerDir account_ ->
       k <> keylet_account account_ -> snd r !! k = view !! k).
Proof.
  intros Hh r. subst r. unfold setHook. rewrite Hh.
  rewrite (bool_decide_eq_true_2 (is_Some (Some h))) by eauto.
  cbn [andb negb]. rewrite andb_false_r.
  unfold removeHookFromLedger. rewrite Hh.
  destruct (dirRemove _ _ _ _ _) as [view1 |] eqn:Hd; [| done].
  cbn [fst snd isTesSuccess TER_eqb negb].
  apply dirRemove_spec in Hd as (l & Hl & ->).
  set (view1 := match remove_first (keylet_hook account_) l with
                | [] => delete (keylet_ownerDir account_) view
                | l' => <[keylet_ownerDir account_ := sle_dir l']> view
                end).
  assert (Hdir1 : view1 !! keylet_ownerDir account_
                  = match remove_first (keylet_hook account_) l with
                    | [] => None
                    | l' => Some (sle_dir l')
                    end).
  { subst view1. destruct (remove_first _ l).
    - by rewrite lookup_delete_eq.
    - by rewrite lookup_insert_eq. }
  assert (Hsame1 : forall k, k <> keylet_ownerDir account_ ->
                     view1 !! k = view !! k).
  { intros k Hk. subst view1. destruct (remove_first _ l).
    - by rewrite lookup_delete_ne.
    - by rewrite lookup_insert_ne. }
  clearbody view1.
  destruct (peek_account (delete _ view1) account_) as [sle |] eqn:Hsle;
    [| done].
  destruct (mPriorBalance <? _); [done |].
  rewrite (bool_decide_eq_true_2 (@nil byte = [])) by done.
  cbn [negb fst snd]. intros _. unfold adjustOwnerCount. rewrite Hsle.
  exists l. split; [done |].
  unfold peek_account in Hsle |- *.
  rewrite lookup_delete_ne, Hsame1 in Hsle by done.
  split; [by destruct (view !! keylet_account account_) as [[] |] |].
  split; [by rewrite lookup_insert_ne, lookup_delete_eq |].
  split; [by rewrite lookup_insert_ne, lookup_delete_ne |].
  split; [by rewrite lookup_insert_eq |].
  intros k H1 H2 H3. by rewrite lookup_insert_ne, lookup_delete_ne, Hsame1.
Qed.

(** What a successful installation on an account without a hook
    leaves: a Hook entry with state count 0, the hook's index appended
    to the owner directory, an account root, and every other entry as
    it was. *)
Lemma setHook_fresh_install_view (maxHookDataSize : Z)
    (accountReserve : Z -> Z) (view : View) (account_ : AccountID)
    (mPriorBalance : Z) (hook_ : Blob) (hookOn_ : Z) :
  peek_hook view account_ = None -> hook_ <> [] ->
  let r := setHook maxHookDataSize accountReserve view account_ mPriorBalance
             hook_ hookOn_ in
  fst r = tesSUCCESS ->
  (exists h', snd r !! keylet_hook account_ = Some (sle_hook h') /\
              hook_HookStateCount h' = 0) /\
  snd r !! keylet_ownerDir account_
  = Some (sle_dir (match view !! keylet_ownerDir account_ with
                   | Some (sle_dir l) => l
                   | _ => []
                   end ++ [keylet_hook account_])) /\
  is_Some (peek_account (snd r) account_) /\
  (forall k, k <> keylet_hook account_ -> k <> keylet_ownerDir account_ ->
     k <> keylet_account account_ -> snd r !! k = view !! k).
Proof.
  intros Hh Hne r. subst r. unfold setHook. rewrite Hh.
  rewrite (bool_decide_eq_false_2 (hook_ = [])) by done.
  cbn [andb negb]. unfold removeHookFromLedger. rewrite Hh.
  cbn [fst snd isTesSuccess TER_eqb negb].
  destruct (peek_account view account_) as [sle |] eqn:Hsle; [| done].
  destruct (mPriorBalance <? _); [done |].
  destruct (dirAdd _ _ _) as [[page view3] |] eqn:Hdir; [| done].
  apply PayChanProps.dirAdd_spec in Hdir as (-> & l & -> & Hl).
  cbn [fst snd]. intros _. unfold adjustOwnerCount, set_hook.
  rewrite !PayChanProps.peek_account_insert_ne by done. rewrite Hsle.
  split; [| split; [| split]].
  - eexists. split.
    + rewrite lookup_insert_ne by done. by rewrite lookup_insert_eq.
    + reflexivity.
  - rewrite !lookup_insert_ne by done. rewrite lookup_insert_eq.
    unfold set_hook in Hl. rewrite lookup_insert_ne in Hl by done.
    by destruct Hl as [-> | [-> ->]].
  - unfold peek_account. by rewrite lookup_insert_eq.
  - intros k H1 H2 H3. by rewrite !lookup_insert_ne.
Qed.

(** C3.  Removing a hook and installing one again loses the state
    count.  On an account with a hook, a SetHook with empty code
    followed by a SetHook with code, both successful, leaves a Hook
    entry whose [sfHookStateCount] is 0, while the account owns exactly
    the HookState entries it owned before: the removal erases the entry
    that carried the count and leaves the state entries, and the
    installation starts from 0 because it finds no old hook. *)
Theorem remove_then_install_resets_state_count (maxHookDataSize : Z)
    (accountReserve : Z -> Z) (view : View) (account_ : AccountID)
    (balance1 balance2 hookOn1 hookOn2 : Z) (code : Blob) (h : HookSLE) :
  peek_hook view account_ = Some h -> code <> [] ->
  let r1 := setHook maxHookDataSize accountReserve view account_ balance1
              [] hookOn1 in
  let r2 := setHook maxHookDataSize accountReserve (snd r1) account_ balance2
              code hookOn2 in
  fst r1 = tesSUCCESS -> fst r2 = tesSUCCESS ->
  (hook_HookStateCount <$> peek_hook (snd r2) account_) = Some 0 /\
  ownedHookStates (snd r2) account_ = ownedHookStates view account_.
Proof.
  intros Hh Hne r1 r2 Hok1 Hok2.
  destruct (setHook_remove_view _ _ _ _ _ _ _ Hh Hok1)
    as (l & Hl & [sle Hsle] & Hhk1 & Hdir1 & _ & Hsame1).
  fold r1 in Hhk1, Hdir1, Hsame1.
  assert (Hnone : peek_hook (snd r1) account_ = None).
  { unfold peek_hook. by rewrite Hhk1. }
  destruct (setHook_fresh_install_view _ _ _ _ _ _ _ Hnone Hne Hok2)
    as ([h' [Hh' Hcount]] & Hdir2 & [sle2 Hsle2] & Hsame2).
  fold r2 in Hh', Hdir2, Hsle2, Hsame2.
  split.
  { unfold peek_hook. rewrite Hh'. cbn. by rewrite Hcount. }
  assert (Hlist : match snd r1 !! keylet_ownerDir account_ with
                  | Some (sle_dir l1) => l1
                  | _ => []
                  end = remove_first (keylet_hook account_) l).
  { rewrite Hdir1. by destruct (remove_first _ l). }
  rewrite Hlist in Hdir2.
  assert (Hview_hook : peek_hook_state view (keylet_hook account_) = None).
  { unfold peek_hook in Hh. unfold peek_hook_state.
    by destruct (view !! keylet_hook account_) as [[] |]. }
  assert (Hequiv : forall k,
            is_Some (peek_hook_state (snd r2) k)
            <-> is_Some (peek_hook_state view k)).
  { intros k. unfold peek_hook_state.
    destruct (decide (k = keylet_hook account_)) as [-> | H1].
    { rewrite Hh'. unfold peek_hook in Hh.
      destruct (view !! keylet_hook account_) as [[] |]; try done;
        split; by intros [? ?]. }
    destruct (decide (k = keylet_ownerDir account_)) as [-> | H2].
    { rewrite Hdir2, Hl. split; by intros [? ?]. }
    destruct (decide (k = keylet_account account_)) as [-> | H3].
    { unfold peek_account in Hsle, Hsle2.
      destruct (snd r2 !! keylet_account account_) as [[] |]; try done;
        destruct (view !! keylet_account account_) as [[] |]; try done;
        split; by intros [? ?]. }
    by rewrite Hsame2, Hsame1. }
  unfold ownedHookStates. rewrite Hdir2, Hl.
  rewrite (owned_filter_ext (snd r2) view) by (intros x _; apply Hequiv).
  rewrite filter_app, filter_cons, decide_False, filter_nil, app_nil_r.
  - apply filter_remove_first. rewrite Hview_hook. by intros [? ?].
  - rewrite Hview_hook. by intros [? ?].
Qed.

Lemma remove_then_install_resets_state_count_witness :
  let r1 := setHook 128 reserve hook_ledger3 A 5000000 [] 0 in
  let r2 := setHook 128 reserve (snd r1) A 5000000 wasm 1 in
  (hook_HookStateCount <$> peek_hook (snd r2) A) = Some 0 /\
  ownedHookStates (snd r2) A
  = [keylet_hook_state A 1; keylet_hook_state A 2; keylet_hook_state A 3].
Proof.
  intros r1 r2.
  destruct (remove_then_install_resets_state_count 128 reserve hook_ledger3 A
              5000000 5000000 0 1 wasm (installed_hook 3)) as [Hcount Howned].
  - vm_compute. reflexivity.
  - discriminate.
  - vm_compute. reflexivity.
  - vm_compute. reflexivity.
  - split; [exact Hcount |]. fold r1 r2 in Howned. rewrite Howned.
    vm_compute. reflexivity.
Defined.

(** The ledger the scenario starts from is in step: the hook's count
    is 3 and [A] owns three HookState entries. *)
Lemma hook_ledger3_in_step :
  (hook_HookStateCount <$> peek_hook hook_ledger3 A) = Some 3 /\
  length (ownedHookStates hook_ledger3 A) = 3%nat.
Proof. by vm_compute. Qed.

End SetHookFacts.
